(** * DCA: wire format, transcoding session and streaming delivery

    A shallow embedding of the Go package [dca] (frame wire format,
    metadata prologue decoder, encode session, streaming session) and
    the properties of its specification.

    Go values are modelled as follows.
    - [int], [int16], [int32], [int64], [time.Duration]: [Z], with the
      wrap-around of every conversion and arithmetic operation written out.
    - [[]byte]: [list byte]; a slice that may be [nil] is a [slice]
      ([None] is [nil]).
    - [error]: the inductive type [error]; a Go [error] result is an
      [option error] ([None] is [nil]).
    - a run-time panic: the [Panics] outcome.
    - a buffered channel: its buffer, its closed flag and the pending
      sends of the (single) producer. *)

From Stdlib Require Import String Ascii ZArith List Lia Bool DecimalString.
From coqutil Require Import Byte Word.LittleEndianList Z.bitblast.
Import ListNotations.
Local Open Scope Z_scope.

(** ** Go run-time and standard-library model *)

Module Go.

(** The error values the package returns or forwards. *)
Inductive strconv_cause := ErrSyntax | ErrRange.

Inductive error :=
| EOF                                   (* io.EOF *)
| ErrUnexpectedEOF                      (* io.ErrUnexpectedEOF *)
| ErrorsNew (msg : string)              (* errors.New(msg) *)
| NumError (func : string) (num : list byte) (cause : strconv_cause)
                                        (* *strconv.NumError *)
| JSONError (msg : string)              (* an error of encoding/json *)
| ExecError (msg : string)              (* an error of os/exec or os *)
| ErrNotDCA                             (* decode.go: var ErrNotDCA *)
| ErrVoiceConnClosed.                   (* stream: var ErrVoiceConnClosed *)

Definition slice := option (list byte).

Inductive outcome (A : Type) :=
| Returns (a : A)
| Panics (msg : string).
Arguments Returns {A} a.
Arguments Panics {A} msg.

(** Integer conversions. *)
Definition uint16 (z : Z) : Z := z mod 2 ^ 16.
Definition uint32 (z : Z) : Z := z mod 2 ^ 32.
Definition int16 (z : Z) : Z := (z + 2 ^ 15) mod 2 ^ 16 - 2 ^ 15.
Definition int32 (z : Z) : Z := (z + 2 ^ 31) mod 2 ^ 32 - 2 ^ 31.
Definition int64 (z : Z) : Z := (z + 2 ^ 63) mod 2 ^ 64 - 2 ^ 63.

Definition len {A} (l : list A) : Z := Z.of_nat (length l).

(** [strconv.Itoa]. *)
Definition Itoa (z : Z) : string := NilZero.string_of_int (Z.to_int z).

(** [strconv.ParseInt(s, 10, bitSize)] on the bytes of [s]: an optional
    sign, then one or more decimal digits (no underscores in an explicit
    base), the value within the [bitSize]-bit signed range.  [Atoi] is
    [ParseInt(s, 10, 0)] with [int] of 64 bits. *)
Definition digit_of (b : byte) : option Z :=
  let v := byte.unsigned b in
  if (48 <=? v) && (v <=? 57) then Some (v - 48) else None.

Fixpoint parse_digits (bs : list byte) (acc : Z) : option Z :=
  match bs with
  | [] => Some acc
  | b :: bs' =>
      match digit_of b with
      | Some d => parse_digits bs' (10 * acc + d)
      | None => None
      end
  end.

Definition ParseInt10 (func : string) (s : list byte) (bitSize : Z)
  : Z * option error :=
  let '(neg, digits) :=
    match s with
    | b :: rest =>
        if byte.unsigned b =? 43 then (false, rest)        (* '+' *)
        else if byte.unsigned b =? 45 then (true, rest)    (* '-' *)
        else (false, s)
    | [] => (false, [])
    end in
  match digits with
  | [] => (0, Some (NumError func s ErrSyntax))
  | _ =>
      match parse_digits digits 0 with
      | None => (0, Some (NumError func s ErrSyntax))
      | Some un =>
          let cutoff := 2 ^ (bitSize - 1) in
          if negb neg && (cutoff <=? un)
          then (cutoff - 1, Some (NumError func s ErrRange))
          else if neg && (cutoff <? un)
          then (- cutoff, Some (NumError func s ErrRange))
          else (if neg then - un else un, None)
      end
  end.

Definition Atoi (s : string) : Z * option error :=
  ParseInt10 "Atoi" (list_byte_of_string s) 64.

(** [make([]byte, n)] for [0 <= n]. *)
Definition make_bytes (n : Z) : list byte := repeat Byte.x00 (Z.to_nat n).

(** An [io.Reader] over an in-memory byte sequence ([bytes.Reader],
    [bytes.Buffer], a regular file): [Read] delivers as many of the
    unread bytes as the destination holds and reports [io.EOF] once
    nothing is left. *)
Definition Reader := list byte.

Definition Read (r : Reader) (n : nat) : list byte * option error * Reader :=
  match r with
  | [] => ([], Some EOF, [])
  | _ => (firstn n r, None, skipn n r)
  end.

(** [io.ReadAtLeast(r, buf, min)] with [len(buf) = min = want]:
    <<
      for n < min && err == nil { nn, err = r.Read(buf[n:]); n += nn }
      if n >= min { err = nil }
      else if n > 0 && err == EOF { err = ErrUnexpectedEOF }
    >>
    [got] holds the [n] bytes read so far.  Every iteration either
    stops the loop or reads at least one byte, so [want] iterations
    plus one are enough. *)
Fixpoint ReadAtLeast_loop (fuel : nat) (r : Reader) (want : nat)
         (got : list byte) (err : option error)
  : list byte * option error * Reader :=
  if (length got <? want)%nat && match err with None => true | _ => false end
  then
    match fuel with
    | O => (got, err, r)
    | S fuel' =>
        let '(bs, err', r') := Read r (want - length got) in
        ReadAtLeast_loop fuel' r' want (got ++ bs) err'
    end
  else (got, err, r).

Definition ReadFull (r : Reader) (want : nat)
  : list byte * option error * Reader :=
  let '(got, err, r') := ReadAtLeast_loop (S want) r want [] None in
  if (want <=? length got)%nat then (got, None, r')
  else
    match got, err with
    | _ :: _, Some EOF => (got, Some ErrUnexpectedEOF, r')
    | _, _ => (got, err, r')
    end.

(** [binary.Read(r, binary.LittleEndian, &size)] for [size int16]:
    the variable keeps its old value when the read fails. *)
Definition binary_Read_int16 (r : Reader) (old : Z)
  : Z * option error * Reader :=
  let '(bs, err, r') := ReadFull r 2 in
  match err with
  | Some e => (old, Some e, r')
  | None => (int16 (le_combine bs), None, r')
  end.

(** [binary.Read(r, binary.LittleEndian, &metaLen)] for [metaLen int32]. *)
Definition binary_Read_int32 (r : Reader) (old : Z)
  : Z * option error * Reader :=
  let '(bs, err, r') := ReadFull r 4 in
  match err with
  | Some e => (old, Some e, r')
  | None => (int32 (le_combine bs), None, r')
  end.

(** [binary.Read(r, binary.LittleEndian, &buf)] for [buf []byte]: reads
    [len(buf)] bytes; the slice is left untouched when the read fails. *)
Definition binary_Read_bytes (r : Reader) (buf : list byte)
  : list byte * option error * Reader :=
  let '(bs, err, r') := ReadFull r (length buf) in
  match err with
  | Some e => (buf, Some e, r')
  | None => (bs, None, r')
  end.

(** [binary.Write(&buf, binary.LittleEndian, v)] for [v int16] and
    [v int32] appends these bytes to a [bytes.Buffer] (whose [Write]
    never fails). *)
Definition binary_Write_int16 (v : Z) : list byte := le_split 2 (uint16 v).
Definition binary_Write_int32 (v : Z) : list byte := le_split 4 (uint32 v).

End Go.
Import Go.

(** ** dca.go *)

(** [DecodeFrame]: decodes one frame from a reader.
    <<
      var size int16
      err = binary.Read(r, binary.LittleEndian, &size)
      if err != nil { return }
      frame = make([]byte, size)
      err = binary.Read(r, binary.LittleEndian, &frame)
      return
    >>
    [make] panics on a negative length. *)
Definition DecodeFrame (r : Reader) : outcome (slice * option error * Reader) :=
  let '(size, err, r1) := binary_Read_int16 r 0 in
  match err with
  | Some e => Returns (None, Some e, r1)
  | None =>
      if size <? 0 then Panics "makeslice: len out of range"
      else
        let frame := make_bytes size in
        let '(frame', err', r2) := binary_Read_bytes r1 frame in
        Returns (Some frame', err', r2)
  end.

(** The bytes [writeOpusFrame] assembles in [dcaBuf] before it sends them:
    <<
      binary.Write(&dcaBuf, binary.LittleEndian, int16(len(opusFrame)))
      dcaBuf.Write(opusFrame)
    >> *)
Definition dcaBuf_of (opusFrame : list byte) : list byte :=
  binary_Write_int16 (int16 (len opusFrame)) ++ opusFrame.


(** ** decode.go *)

Module Decode.
Section WithJSON.

(** The declaration of [Metadata] and the JSON decoder are outside the
    sources at hand: the document type and [json.Unmarshal] into a
    [*Metadata] are taken as parameters.  [json_Unmarshal] gives the
    pointer left in [metadata] ([None] is [nil]) and the message of the
    decoding error, if any. *)
Variable MetadataDoc : Type.
Variable json_Unmarshal : list byte -> option MetadataDoc * option string.

Record Decoder := {
  Metadata : option MetadataDoc;
  FormatVersion : Z;
  r : Reader
}.

Definition NewDecoder (rd : Reader) : Decoder :=
  {| Metadata := None; FormatVersion := 0; r := rd |}.

(** [d.r.Read(fingerprint)] into [fingerprint := make([]byte, 4)]: the
    bytes read, then the zero bytes the read left untouched. *)
Definition read_fingerprint (rd : Reader)
  : list byte * option error * Reader :=
  let '(bs, err, rd') := Read rd 4 in
  (bs ++ make_bytes (4 - len bs), err, rd').

Definition magic : list byte := list_byte_of_string "DCA".

(** [ReadMetadata] reads the first metadata frame. *)
Definition ReadMetadata (d : Decoder) : outcome (Decoder * option error) :=
  let '(fingerprint, err, r1) := read_fingerprint (r d) in
  let d := {| Metadata := Metadata d; FormatVersion := FormatVersion d;
              r := r1 |} in
  match err with
  | Some e => Returns (d, Some e)
  | None =>
      if negb (if list_eq_dec Byte.byte_eq_dec (firstn 3 fingerprint) magic
               then true else false)
      then Returns (d, Some ErrNotDCA)
      else
        let '(version, err) :=
          ParseInt10 "ParseInt" (skipn 3 fingerprint) 32 in
        match err with
        | Some e => Returns (d, Some e)
        | None =>
            let '(metaLen, err, r2) := binary_Read_int32 r1 0 in
            let d := {| Metadata := Metadata d; FormatVersion := version;
                        r := r2 |} in
            match err with
            | Some e => Returns (d, Some e)
            | None =>
                if metaLen <? 0 then Panics "makeslice: len out of range"
                else
                  let '(jsonBuf, err, r3) :=
                    binary_Read_bytes r2 (make_bytes metaLen) in
                  let d := {| Metadata := Metadata d;
                              FormatVersion := version; r := r3 |} in
                  match err with
                  | Some e => Returns (d, Some e)
                  | None =>
                      let '(metadata, jerr) := json_Unmarshal jsonBuf in
                      Returns ({| Metadata := metadata;
                                  FormatVersion := version; r := r3 |},
                               option_map JSONError jerr)
                  end
            end
        end
  end.

(** [OpusFrame] returns the next audio frame. *)
Definition OpusFrame (d : Decoder)
  : outcome (slice * option error * Decoder) :=
  match DecodeFrame (r d) with
  | Panics m => Panics m
  | Returns (frame, err, r') =>
      Returns (frame, err,
               {| Metadata := Metadata d; FormatVersion := FormatVersion d;
                  r := r' |})
  end.

End WithJSON.
End Decode.

(** ** The encode session *)

Module Encode.

(** [EncodeOptions] is a set of options for encoding dca. *)
Record EncodeOptions := {
  Volume : Z;
  Channels : Z;
  FrameRate : Z;
  FrameDuration : Z;
  Bitrate : Z;
  PacketLoss : Z;
  RawOutput : bool;
  Application : string;
  CoverFormat : string;
  CompressionLevel : Z;
  BufferedFrames : Z;
  VBR : bool;
  Comment : string
}.

Definition PCMFrameLen (e : EncodeOptions) : Z :=
  int64 (int64 (960 * Channels e) * Z.quot (FrameDuration e) 20).

(** [Validate] returns an error if the options are not correct. *)
Definition Validate (opts : EncodeOptions) : option error :=
  if (Volume opts <? 0) || (512 <? Volume opts)
  then Some (ErrorsNew "Out of bounds volume (0-512)")
  else if negb (FrameDuration opts =? 20) && negb (FrameDuration opts =? 40)
          && negb (FrameDuration opts =? 60)
  then Some (ErrorsNew "Invalid FrameDuration")
  else if (PacketLoss opts <? 0) || (100 <? PacketLoss opts)
  then Some (ErrorsNew "Invalid packet loss percentage")
  else None.

Definition StdEncodeOptions : EncodeOptions := {|
  Volume := 256;
  Channels := 2;
  FrameRate := 48000;
  FrameDuration := 20;
  Bitrate := 64;
  PacketLoss := 1;
  RawOutput := false;
  Application := "audio";
  CoverFormat := "";
  CompressionLevel := 10;
  BufferedFrames := 100;
  VBR := true;
  Comment := ""
|}.

(** *** Metadata documents *)

(** Modelled from the spec: the declarations of [Metadata] and of the
    prober's document ([FFprobeMetadata]) are not among the sources.
    The records below hold the fields [writeMetadataFrame] assigns and
    reads: format identity and version, tool identity, song tags, origin
    info, opus parameters; the prober's [format.bitrate] (a string),
    [format.format_long_name] and the optional [format.tags]. *)
Record DCAToolMetadata := {
  Tool_Name : string; Tool_Version : string; Tool_Url : string;
  Tool_Author : string
}.

Record DCAMetadata := { Dca_Version : Z; Dca_Tool : DCAToolMetadata }.

Record OpusMetadata := {
  Opus_Bitrate : Z; Opus_SampleRate : Z; Opus_Application : string;
  Opus_FrameSize : Z; Opus_Channels : Z; Opus_VBR : bool
}.

Record SongMetadata := {
  Title : string; Artist : string; Album : string; Genre : string;
  Comments : string; Cover : option string
}.

Record OriginMetadata := {
  Source : string; Origin_Bitrate : Z; Origin_Channels : Z;
  Encoding : string
}.

Record Metadata := {
  Dca : DCAMetadata;
  Opus : OpusMetadata;
  SongInfo : SongMetadata;
  Origin : OriginMetadata
}.

Record FFprobeTags := {
  Tags_Title : string; Tags_Artist : string; Tags_Album : string;
  Tags_Genre : string
}.

Record FFprobeFormat := {
  Format_Bitrate : string;
  FormatLongName : string;
  Tags : option FFprobeTags
}.

(** What [json.Unmarshal(cmdBuf.Bytes(), &ffprobeData)] leaves. *)
Inductive FFprobeResult :=
| ProbeUnmarshalError (e : error)
| ProbeNil                                  (* the pointer stays nil *)
| ProbeData (format : option FFprobeFormat).

Definition FormatVersion : Z := 1.
Definition LibraryVersion : string := "0.0.4".
Definition GitHubRepositoryURL : string := "https://github.com/jonas747/dca".

(** *** The world outside the session *)

(** [ogg.Page]: the segment table and the payload of a page. *)
Record Page := { SegTbl : list byte; Packet : list byte }.

(** The outcomes of everything [run] asks of its collaborators: the
    pipes and the transcoder process, the prober, the cover extractor,
    the image and JSON encoders, and the pages the container decoder
    yields from the transcoder's output before it reports [Decode_err]. *)
Record World := {
  StdoutPipe_err : option error;
  StderrPipe_err : option error;
  Start_err : option error;
  Wait_err : option string;        (* [err.Error()] of [ffmpeg.Wait()] *)
  Pages : list Page;
  Decode_err : error;
  ffprobe_Start_err : option error;
  ffprobe_Wait_err : option error;
  ffprobe_Unmarshal : FFprobeResult;
  cover_Start_err : option error;
  cover_Wait_err : option error;
  cover_Stdout : list byte;
  jpeg_to_png : list byte -> option (list byte);
  base64_EncodeToString : list byte -> string;
  json_Marshal : Metadata -> list byte * option error
}.

(** What the session does, in program order. *)
Inductive event :=
| EvLog (msg : string)                 (* logln(msg, ...) *)
| EvProbe (path : string)              (* ffprobe.Start() succeeded *)
| EvCover (path : string)              (* cover.Start() succeeded *)
| EvStart (args : list string)         (* ffmpeg.Start() succeeded *)
| EvSend (frame : list byte)           (* e.frameChannel <- frame *)
| EvClose.                             (* close(e.frameChannel) *)

Inductive exit := Normal | Panicked (msg : string).

Record encodeSession := {
  options : option EncodeOptions;
  pipeReader : option Reader;
  filePath : string;
  running : bool;
  started : bool;
  frameChannel_cap : Z;
  process : bool;
  lastFrame : Z;
  trace : list event
}.

Definition emit (ev : event) (e : encodeSession) : encodeSession :=
  {| options := options e; pipeReader := pipeReader e;
     filePath := filePath e; running := running e; started := started e;
     frameChannel_cap := frameChannel_cap e; process := process e;
     lastFrame := lastFrame e; trace := trace e ++ [ev] |}.

Definition set_running (b : bool) (e : encodeSession) : encodeSession :=
  {| options := options e; pipeReader := pipeReader e;
     filePath := filePath e; running := b; started := started e;
     frameChannel_cap := frameChannel_cap e; process := process e;
     lastFrame := lastFrame e; trace := trace e |}.

Definition set_options (o : EncodeOptions) (e : encodeSession)
  : encodeSession :=
  {| options := Some o; pipeReader := pipeReader e;
     filePath := filePath e; running := running e; started := started e;
     frameChannel_cap := frameChannel_cap e; process := process e;
     lastFrame := lastFrame e; trace := trace e |}.

Definition set_process (e : encodeSession) : encodeSession :=
  {| options := options e; pipeReader := pipeReader e;
     filePath := filePath e; running := running e; started := true;
     frameChannel_cap := frameChannel_cap e; process := true;
     lastFrame := lastFrame e; trace := trace e |}.

Definition incr_lastFrame (e : encodeSession) : encodeSession :=
  {| options := options e; pipeReader := pipeReader e;
     filePath := filePath e; running := running e; started := started e;
     frameChannel_cap := frameChannel_cap e; process := process e;
     lastFrame := int64 (lastFrame e + 1); trace := trace e |}.

(** [EncodeMem] and [EncodeFile] build the session and start [run] on
    it; they dereference [options] and make the channel, and both can
    panic. *)
Definition new_session (r : option Reader) (path : string)
           (opts : option EncodeOptions) : outcome encodeSession :=
  match opts with
  | None => Panics "invalid memory address or nil pointer dereference"
  | Some o =>
      if BufferedFrames o <? 0 then Panics "makechan: size out of range"
      else Returns
             {| options := opts; pipeReader := r; filePath := path;
                running := false; started := false;
                frameChannel_cap := BufferedFrames o; process := false;
                lastFrame := 0; trace := [] |}
  end.

Definition EncodeMem (r : Reader) (opts : option EncodeOptions) :=
  new_session (Some r) "" opts.

Definition EncodeFile (path : string) (opts : option EncodeOptions) :=
  new_session None path opts.

(** *** The producer *)

(** [writeOpusFrame]: the length prefix and the payload go into a fresh
    buffer, the buffer's bytes onto the channel, and [lastFrame] is
    counted up.  Neither write into a [bytes.Buffer] returns an error. *)
Definition writeOpusFrame (opusFrame : list byte) (e : encodeSession)
  : encodeSession * option error :=
  let dcaBuf := binary_Write_int16 (int16 (len opusFrame)) in
  let dcaBuf := dcaBuf ++ opusFrame in
  (incr_lastFrame (emit (EvSend dcaBuf) e), None).

(** [page.Packet[lo:hi]], which panics out of range. *)
Definition slice_of (l : list byte) (lo hi : Z) : option (list byte) :=
  if (0 <=? lo) && (lo <=? hi) && (hi <=? len l)
  then Some (firstn (Z.to_nat (hi - lo)) (skipn (Z.to_nat lo) l))
  else None.

(** The loop of [readStdout] over the segment table of one page: each
    segment is appended to the packet buffer, and a segment shorter than
    255 bytes flushes a buffer that holds at least one byte.  An error of
    [writeOpusFrame] is logged and leaves the loop; a segment beyond the
    end of the page payload makes the slice expression panic. *)
Fixpoint read_segments (segs : list byte) (packet : list byte) (curPos : Z)
         (packetBuf : list byte) (e : encodeSession)
  : list byte * encodeSession * exit :=
  match segs with
  | [] => (packetBuf, e, Normal)
  | seg :: segs' =>
      match slice_of packet curPos (curPos + byte.unsigned seg) with
      | None => (packetBuf, e, Panicked "slice bounds out of range")
      | Some part =>
          let packetBuf := packetBuf ++ part in
          let curPos := curPos + byte.unsigned seg in
          if (byte.unsigned seg <? 255) && (0 <? len packetBuf) then
            let '(e, err) := writeOpusFrame packetBuf e in
            match err with
            | Some _ =>
                (packetBuf, emit (EvLog "Error writing opus frame:") e,
                 Normal)
            | None => read_segments segs' packet curPos [] e
            end
          else read_segments segs' packet curPos packetBuf e
      end
  end.

(** The loop of [readStdout] over the pages. *)
Fixpoint read_pages (pages : list Page) (packetBuf : list byte)
         (e : encodeSession) : list byte * encodeSession * exit :=
  match pages with
  | [] => (packetBuf, e, Normal)
  | page :: pages' =>
      match read_segments (SegTbl page) (Packet page) 0 packetBuf e with
      | (packetBuf, e, Normal) => read_pages pages' packetBuf e
      | stopped => stopped
      end
  end.

(** [readStdout]: pages are decoded until the decoder reports an error;
    what is left in the packet buffer is written as a last frame; the
    channel is closed on the way out (also when the loop panics). *)
Definition readStdout (w : World) (e : encodeSession)
  : encodeSession * exit :=
  match read_pages (Pages w) [] e with
  | (packetBuf, e, Normal) =>
      let e := match Decode_err w with
               | EOF => e
               | _ => emit (EvLog "Error reading fmmpeg stdout:") e
               end in
      let e :=
        if 0 <? len packetBuf then
          let '(e, err) := writeOpusFrame packetBuf e in
          match err with
          | Some _ => emit (EvLog "Error writing opus frame:") e
          | None => e
          end
        else e in
      (emit EvClose e, Normal)
  | (_, e, Panicked msg) => (emit EvClose e, Panicked msg)
  end.

(** *** The metadata prologue *)

Definition file_metadata (o : EncodeOptions) : Metadata :=
  {| Dca := {| Dca_Version := FormatVersion;
               Dca_Tool := {| Tool_Name := "dca";
                              Tool_Version := LibraryVersion;
                              Tool_Url := GitHubRepositoryURL;
                              Tool_Author := "jonas747" |} |};
     Opus := {| Opus_Bitrate := int64 (Bitrate o * 1000);
                Opus_SampleRate := FrameRate o;
                Opus_Application := Application o;
                Opus_FrameSize := PCMFrameLen o;
                Opus_Channels := Channels o;
                Opus_VBR := VBR o |};
     SongInfo := {| Title := ""; Artist := ""; Album := ""; Genre := "";
                    Comments := ""; Cover := None |};
     Origin := {| Source := ""; Origin_Bitrate := 0; Origin_Channels := 0;
                  Encoding := "" |} |}.

Definition with_SongInfo (s : SongMetadata) (m : Metadata) : Metadata :=
  {| Dca := Dca m; Opus := Opus m; SongInfo := s; Origin := Origin m |}.

Definition with_Origin (g : OriginMetadata) (m : Metadata) : Metadata :=
  {| Dca := Dca m; Opus := Opus m; SongInfo := SongInfo m; Origin := g |}.

Definition with_Cover (c : string) (m : Metadata) : Metadata :=
  with_SongInfo
    {| Title := Title (SongInfo m); Artist := Artist (SongInfo m);
       Album := Album (SongInfo m); Genre := Genre (SongInfo m);
       Comments := Comments (SongInfo m); Cover := Some c |} m.

(** The tail of [writeMetadataFrame]: "Write the magic header". *)
Definition write_prologue (w : World) (metadata : Metadata)
           (e : encodeSession) : encodeSession :=
  let '(jsonData, err) := json_Marshal w metadata in
  match err with
  | Some _ => emit (EvLog "JSon error:") e
  | None =>
      let buf := list_byte_of_string ("DCA" ++ Itoa FormatVersion) in
      let jsonLen := int32 (len jsonData) in
      let buf := buf ++ binary_Write_int32 jsonLen in
      let buf := buf ++ jsonData in
      emit (EvSend buf) e
  end.

(** [writeMetadataFrame]: every failure of the probe is logged and
    makes the function return before anything is sent. *)
Definition writeMetadataFrame (w : World) (o : EncodeOptions)
           (e : encodeSession) : encodeSession * exit :=
  let metadata := file_metadata o in
  match pipeReader e with
  | None =>
      match ffprobe_Start_err w with
      | Some _ => (emit (EvLog "RunStart Error:") e, Normal)
      | None =>
      let e := emit (EvProbe (filePath e)) e in
      match ffprobe_Wait_err w with
      | Some _ => (emit (EvLog "FFprobe Error:") e, Normal)
      | None =>
      match ffprobe_Unmarshal w with
      | ProbeUnmarshalError _ =>
          (emit (EvLog "Erorr unmarshaling the FFprobe JSON:") e, Normal)
      | ProbeNil =>
          (e, Panicked "invalid memory address or nil pointer dereference")
      | ProbeData format =>
      let format :=
        match format with
        | Some f => f
        | None => {| Format_Bitrate := ""; FormatLongName := "";
                     Tags := None |}
        end in
      let tags :=
        match Tags format with
        | Some t => t
        | None => {| Tags_Title := ""; Tags_Artist := "";
                     Tags_Album := ""; Tags_Genre := "" |}
        end in
      let '(bitrateInt, err) := Atoi (Format_Bitrate format) in
      match err with
      | Some _ =>
          (emit (EvLog "Could not convert bitrate to int:") e, Normal)
      | None =>
      let metadata :=
        with_SongInfo
          {| Title := Tags_Title tags; Artist := Tags_Artist tags;
             Album := Tags_Album tags; Genre := Tags_Genre tags;
             Comments := Comment o; Cover := None |} metadata in
      let metadata :=
        with_Origin
          {| Source := "file"; Origin_Bitrate := bitrateInt;
             Origin_Channels := Channels o;
             Encoding := FormatLongName format |} metadata in
      match cover_Start_err w with
      | Some _ => (emit (EvLog "RunStart Error:") e, Normal)
      | None =>
      let e := emit (EvCover (filePath e)) e in
      let metadata :=
        match cover_Wait_err w with
        | Some _ => metadata
        | None =>
            let coverImage :=
              if String.eqb (CoverFormat o) "png" then
                match jpeg_to_png w (cover_Stdout w) with
                | Some png => base64_EncodeToString w png
                | None => ""%string
                end
              else base64_EncodeToString w (cover_Stdout w) in
            with_Cover coverImage metadata
        end in
      (write_prologue w metadata e, Normal)
      end end end end end
  | Some _ =>
      let metadata :=
        with_Origin
          {| Source := "pipe"; Origin_Bitrate := 0;
             Origin_Channels := Channels o;
             Encoding := "pcm16/s16le" |} metadata in
      (write_prologue w metadata e, Normal)
  end.

(** *** [run] *)

Definition ffmpeg_args (inFile : string) (o : EncodeOptions) : list string :=
  let vbrStr := (if VBR o then "on" else "off")%string in
  [ "-stats"; "-i"; inFile; "-map"; "0:a"; "-acodec"; "libopus";
    "-f"; "ogg"; "-vbr"; vbrStr;
    "-compression_level"; Itoa (CompressionLevel o);
    "-vol"; Itoa (Volume o); "-ar"; Itoa (FrameRate o);
    "-ac"; Itoa (Channels o); "-b:a"; Itoa (int64 (Bitrate o * 1000));
    "-application"; Application o;
    "-frame_duration"; Itoa (FrameDuration o);
    "-packet_loss"; Itoa (PacketLoss o); "pipe:1" ]%string.

(** The body of [run], without the deferred reset of [running]. *)
Definition run_body (w : World) (e : encodeSession)
  : encodeSession * exit :=
  let e := set_running true e in
  let inFile := if String.eqb (filePath e) "" then "pipe:0"%string
                else filePath e in
  let e := match options e with
           | None => set_options StdEncodeOptions e
           | Some _ => e
           end in
  let o := match options e with
           | Some o => o
           | None => StdEncodeOptions
           end in
  let args := ffmpeg_args inFile o in
  match StdoutPipe_err w with
  | Some _ => (emit EvClose (emit (EvLog "StdoutPipe Error:") e), Normal)
  | None =>
  match StderrPipe_err w with
  | Some _ => (emit EvClose (emit (EvLog "StderrPipe Error:") e), Normal)
  | None =>
  let '(e, ex) :=
    if RawOutput o then (e, Normal) else writeMetadataFrame w o e in
  match ex with
  | Panicked msg => (e, Panicked msg)
  | Normal =>
  match Start_err w with
  | Some _ => (emit EvClose (emit (EvLog "RunStart Error:") e), Normal)
  | None =>
  let e := set_process (emit (EvStart args) e) in
  let '(e, ex) := readStdout w e in
  match ex with
  | Panicked msg => (e, Panicked msg)
  | Normal =>
      match Wait_err w with
      | None => (e, Normal)
      | Some msg =>
          if negb (String.eqb msg "signal: killed")
          then (emit (EvLog "Error waiting for ffmpeg:") e, Normal)
          else (e, Normal)
      end
  end end end end end.

Definition run (w : World) (e : encodeSession) : encodeSession * exit :=
  let '(e, ex) := run_body w e in (set_running false e, ex).

(** The frames a session puts on its channel, in order. *)
Fixpoint sent_frames (tr : list event) : list (list byte) :=
  match tr with
  | [] => []
  | EvSend f :: tr' => f :: sent_frames tr'
  | _ :: tr' => sent_frames tr'
  end.

(** The arguments of every transcoder launch. *)
Fixpoint launches (tr : list event) : list (list string) :=
  match tr with
  | [] => []
  | EvStart args :: tr' => args :: launches tr'
  | _ :: tr' => launches tr'
  end.

(** An event that neither launches the transcoder nor closes the queue. *)
Definition plain (ev : event) : bool :=
  match ev with
  | EvStart _ | EvClose => false
  | _ => true
  end.

(** A step from [e] to [e'] that adds only such events to the trace. *)
Definition steady (e e' : encodeSession) : Prop :=
  exists more, trace e' = trace e ++ more /\ forallb plain more = true.

End Encode.

(** ** The frame channel and [ReadFrame] *)

Module Queue.

(** What the producer still has to do on [frameChannel].  Every value a
    session sends is the content of a buffer that has been written to,
    so it is never [nil]. *)
Inductive chanop :=
| Send (frame : list byte)
| Close.

(** The channel operations of a session trace. *)
Fixpoint chanops (tr : list Encode.event) : list chanop :=
  match tr with
  | [] => []
  | Encode.EvSend f :: tr' => Send f :: chanops tr'
  | Encode.EvClose :: tr' => Close :: chanops tr'
  | _ :: tr' => chanops tr'
  end.

(** A producer that emits [frames] and then closes the queue. *)
Definition produces (frames : list (list byte)) : list chanop :=
  map Send frames ++ [Close].

(** [chan []byte] of capacity [cap] together with its producer. *)
Record state := {
  pending : list chanop;
  buf : list (list byte);
  cap : Z;
  closed : bool
}.

Definition init (ops : list chanop) (capacity : Z) : state :=
  {| pending := ops; buf := []; cap := capacity; closed := false |}.

(** One step of the producer; [None] when it is blocked on a full
    buffer or has nothing left to do.  (A second [close] would panic;
    [readStdout] and the failure paths of [run] close exactly once.) *)
Definition producer_step (s : state) : option state :=
  match pending s with
  | Send f :: ops =>
      if len (buf s) <? cap s
      then Some {| pending := ops; buf := buf s ++ [f]; cap := cap s;
                   closed := closed s |}
      else None
  | Close :: ops =>
      Some {| pending := ops; buf := buf s; cap := cap s; closed := true |}
  | [] => None
  end.

(** [<-e.frameChannel]: the oldest buffered frame; on an empty buffer
    the frame of a producer standing at its send (the hand-over of an
    unbuffered channel; on a buffered one the same as that send followed
    by the receive); [nil] once the channel is closed and drained;
    [None] when the receive blocks. *)
Definition recv (s : state) : option (slice * state) :=
  match buf s with
  | f :: b =>
      Some (Some f, {| pending := pending s; buf := b; cap := cap s;
                       closed := closed s |})
  | [] =>
      if closed s then Some (None, s)
      else
        match pending s with
        | Send f :: ops =>
            Some (Some f, {| pending := ops; buf := []; cap := cap s;
                             closed := closed s |})
        | _ => None
        end
  end.

(** [ReadFrame] blocks until a frame is read or there are no more
    frames:
    <<
      frame = <-e.frameChannel
      if frame == nil { return nil, io.EOF }
      return frame, nil
    >> *)
Definition ReadFrame (s : state) : option (slice * option error * state) :=
  match recv s with
  | None => None
  | Some (None, s') => Some (None, Some EOF, s')
  | Some (Some frame, s') => Some (Some frame, None, s')
  end.

(** Whose turn it is. *)
Inductive turn := Producer | Consumer.

(** The results of the [ReadFrame] calls that returned, in order, under
    a schedule; a turn given to a blocked party passes. *)
Fixpoint exec (sched : list turn) (s : state)
  : list (slice * option error) * state :=
  match sched with
  | [] => ([], s)
  | Producer :: sched' =>
      match producer_step s with
      | Some s' => exec sched' s'
      | None => exec sched' s
      end
  | Consumer :: sched' =>
      match ReadFrame s with
      | Some (frame, err, s') =>
          let '(rs, s'') := exec sched' s' in ((frame, err) :: rs, s'')
      | None => exec sched' s
      end
  end.

End Queue.

(** ** The streaming session *)

Module Stream.

(** [time.Second], in nanoseconds. *)
Definition Second : Z := 1000000000.

(** The source ([OpusReader]) and the sink ([vc.OpusSend]) of a
    session: the result of the [n]-th call of [OpusFrame], the frame
    duration, and for the [n]-th hand-off the time after which the
    voice connection takes the frame ([None]: never). *)
Record Env := {
  OpusFrame : nat -> slice * option error;
  FrameDuration : Z;
  OpusSend : nat -> option Z;
  has_done : bool
}.

Record StreamingSession := {
  paused : bool;
  framesSent : Z;
  finished : bool;
  running : bool;
  err : option error
}.

(** Where a [stream] goroutine stands, between two critical sections. *)
Inductive pc :=
| Entry                      (* started by [go s.stream()] *)
| LoopHead                   (* at the top of the [for] loop *)
| Pull                       (* in [readNext], before [OpusFrame] *)
| HandOff (opus : slice)     (* in [readNext], at the [select] *)
| Count                      (* in [readNext], before [framesSent++] *)
| Failed (e : error)         (* [readNext] returned [e] *)
| Deferred                   (* before the deferred [running = false] *)
| Done.

Record System := {
  session : StreamingSession;
  tasks : list pc;
  pulls : nat;                    (* calls of [OpusFrame] so far *)
  handoffs : nat;                 (* hand-offs attempted so far *)
  waited : list Z;                (* how long each [select] took *)
  done : list error;              (* what was sent on [done] *)
  panicked : bool
}.

(** The outcome of
    <<
      timeOut := time.After(time.Second)
      select {
      case <-timeOut: return ErrVoiceConnClosed
      case s.vc.OpusSend <- opus:
      }
    >>
    and the time it takes. *)
Definition select_send (offer : option Z) : bool * Z :=
  match offer with
  | Some d => if d <? Second then (true, Z.max 0 d) else (false, Second)
  | None => (false, Second)
  end.

Definition with_session (s : StreamingSession) (y : System) : System :=
  {| session := s; tasks := tasks y; pulls := pulls y;
     handoffs := handoffs y; waited := waited y; done := done y;
     panicked := panicked y |}.

Definition with_tasks (t : list pc) (y : System) : System :=
  {| session := session y; tasks := t; pulls := pulls y;
     handoffs := handoffs y; waited := waited y; done := done y;
     panicked := panicked y |}.

Fixpoint set_nth {A} (i : nat) (x : A) (l : list A) : list A :=
  match l, i with
  | [], _ => []
  | _ :: l', O => x :: l'
  | y :: l', S i' => y :: set_nth i' x l'
  end.

Definition goto (i : nat) (p : pc) (y : System) : System :=
  with_tasks (set_nth i p (tasks y)) y.

(** One critical section (or one blocking call) of goroutine [i]. *)
Definition task_step (env : Env) (i : nat) (y : System) : System :=
  let s := session y in
  match nth_error (tasks y) i with
  | None | Some Done => y
  | Some Entry =>
      if running s then
        {| session := s; tasks := tasks y; pulls := pulls y;
           handoffs := handoffs y; waited := waited y; done := done y;
           panicked := true |}
      else
        goto i LoopHead
          (with_session {| paused := paused s; framesSent := framesSent s;
                           finished := finished s; running := true;
                           err := err s |} y)
  | Some LoopHead =>
      if paused s then goto i Deferred y else goto i Pull y
  | Some Pull =>
      let '(opus, e) := OpusFrame env (pulls y) in
      let y := {| session := s; tasks := tasks y; pulls := S (pulls y);
                  handoffs := handoffs y; waited := waited y;
                  done := done y; panicked := panicked y |} in
      match e with
      | Some e => goto i (Failed e) y
      | None => goto i (HandOff opus) y
      end
  | Some (HandOff opus) =>
      let '(sent, t) := select_send (OpusSend env (handoffs y)) in
      let y := {| session := s; tasks := tasks y; pulls := pulls y;
                  handoffs := S (handoffs y); waited := waited y ++ [t];
                  done := done y; panicked := panicked y |} in
      if sent then goto i Count y
      else goto i (Failed ErrVoiceConnClosed) y
  | Some Count =>
      goto i LoopHead
        (with_session {| paused := paused s;
                         framesSent := int64 (framesSent s + 1);
                         finished := finished s; running := running s;
                         err := err s |} y)
  | Some (Failed e) =>
      let s' := {| paused := paused s; framesSent := framesSent s;
                   finished := true; running := running s;
                   err := match e with EOF => err s | _ => Some e end |} in
      goto i Deferred
        {| session := s'; tasks := tasks y; pulls := pulls y;
           handoffs := handoffs y; waited := waited y;
           done := if has_done env then done y ++ [e] else done y;
           panicked := panicked y |}
  | Some Deferred =>
      goto i Done
        (with_session {| paused := paused s; framesSent := framesSent s;
                         finished := finished s; running := false;
                         err := err s |} y)
  end.

(** [SetPaused] provides pause/unpause functionality. *)
Definition SetPaused (p : bool) (y : System) : System :=
  let s := session y in
  if finished s then y
  else if negb p && running s then
    if paused s
    then with_session {| paused := false; framesSent := framesSent s;
                         finished := finished s; running := running s;
                         err := err s |} y
    else y
  else if p && negb (running s) then
    if negb (paused s)
    then with_session {| paused := true; framesSent := framesSent s;
                         finished := finished s; running := running s;
                         err := err s |} y
    else y
  else
    let y := if negb (running s) && paused s && negb p
             then with_tasks (tasks y ++ [Entry]) y
             else y in
    with_session {| paused := p; framesSent := framesSent s;
                    finished := finished s; running := running s;
                    err := err s |} y.

(** [PlaybackPosition] returns the duration of content transmitted so
    far: [time.Duration(s.framesSent) * s.source.FrameDuration()]. *)
Definition PlaybackPosition (env : Env) (y : System) : Z :=
  int64 (framesSent (session y) * FrameDuration env).

(** [Finished] returns whether the stream finished, and any error that
    caused it to stop. *)
Definition Finished (y : System) : bool * option error :=
  (finished (session y), err (session y)).

Definition Paused (y : System) : bool := paused (session y).

(** [NewStream]: a fresh session and its first [go session.stream()]. *)
Definition NewStream : System :=
  {| session := {| paused := false; framesSent := 0; finished := false;
                   running := false; err := None |};
     tasks := [Entry]; pulls := 0; handoffs := 0; waited := [];
     done := []; panicked := false |}.

(** What can happen next: a caller pauses or resumes, or a goroutine
    moves on.  Nothing happens once the program has panicked. *)
Inductive action :=
| CallSetPaused (p : bool)
| Task (i : nat).

Definition step (env : Env) (a : action) (y : System) : System :=
  if panicked y then y
  else match a with
       | CallSetPaused p => SetPaused p y
       | Task i => task_step env i y
       end.

Definition exec (env : Env) (acts : list action) (y : System) : System :=
  fold_left (fun y a => step env a y) acts y.

End Stream.

(** ** The packet boundary rule, as the specification words it *)

Module PacketSpec.

(** The maximum segment size. *)
Definition max_segment : Z := 255.

(** The segments of a page: its payload cut as its segment table says. *)
Fixpoint segments_of (tbl : list byte) (data : list byte)
  : list (list byte) :=
  match tbl with
  | [] => []
  | seg :: tbl' =>
      let n := Z.to_nat (byte.unsigned seg) in
      firstn n data :: segments_of tbl' (skipn n data)
  end.

Definition page_segments (pages : list Encode.Page) : list (list byte) :=
  concat (map (fun p => segments_of (Encode.SegTbl p) (Encode.Packet p))
              pages).

(** Consecutive segments are concatenated into one packet buffer; the
    accumulated packet is flushed whenever a segment shorter than the
    maximum segment size is met; a non-empty partial packet left when
    the segments end is flushed once. *)
Fixpoint walk (segs : list (list byte)) (packet : list byte)
  : list (list byte) :=
  match segs with
  | [] => if 0 <? len packet then [packet] else []
  | seg :: segs' =>
      let packet := packet ++ seg in
      if len seg <? max_segment then packet :: walk segs' []
      else walk segs' packet
  end.

Definition packets (pages : list Encode.Page) : list (list byte) :=
  walk (page_segments pages) [].

(** The same walk with a flush only of a packet that holds at least one
    byte; it gives the flushed packets and the packet still open. *)
Fixpoint walk_guarded (segs : list (list byte)) (packet : list byte)
  : list (list byte) * list byte :=
  match segs with
  | [] => ([], packet)
  | seg :: segs' =>
      let packet := packet ++ seg in
      if (len seg <? max_segment) && (0 <? len packet) then
        let '(flushed, open) := walk_guarded segs' [] in
        (packet :: flushed, open)
      else walk_guarded segs' packet
  end.

Definition nonempty (packet : list byte) : bool := 0 <? len packet.

(** The bytes a segment table announces. *)
Definition table_total (tbl : list byte) : Z :=
  fold_right (fun seg n => byte.unsigned seg + n) 0 tbl.

(** A page whose payload holds every segment of its table. *)
Definition page_ok (p : Encode.Page) : Prop :=
  table_total (Encode.SegTbl p) <= len (Encode.Packet p).

(** [writeOpusFrame] on each packet in turn. *)
Fixpoint send_all (ps : list (list byte)) (e : Encode.encodeSession)
  : Encode.encodeSession :=
  match ps with
  | [] => e
  | p :: ps' => send_all ps' (fst (Encode.writeOpusFrame p e))
  end.

End PacketSpec.

(** ** Sample worlds *)

Module Samples.

Import Encode.

(** A world in which every collaborator succeeds: the prober reports a
    bit rate of 128000 and no tags, the cover extractor fails to find a
    cover, and the transcoder's output holds [pages]. *)
Definition world_of_pages (pages : list Page) : World :=
  {| StdoutPipe_err := None;
     StderrPipe_err := None;
     Start_err := None;
     Wait_err := None;
     Pages := pages;
     Decode_err := EOF;
     ffprobe_Start_err := None;
     ffprobe_Wait_err := None;
     ffprobe_Unmarshal :=
       ProbeData (Some {| Format_Bitrate := "128000";
                          FormatLongName := "Ogg"; Tags := None |});
     cover_Start_err := None;
     cover_Wait_err := Some (ExecError "exit status 1");
     cover_Stdout := [];
     jpeg_to_png := fun _ => None;
     base64_EncodeToString := fun _ => ""%string;
     json_Marshal := fun _ => (list_byte_of_string "{}", None) |}.

(** The same world with a prober that cannot be started. *)
Definition world_without_prober (pages : list Page) : World :=
  let w := world_of_pages pages in
  {| StdoutPipe_err := StdoutPipe_err w;
     StderrPipe_err := StderrPipe_err w;
     Start_err := Start_err w;
     Wait_err := Wait_err w;
     Pages := Pages w;
     Decode_err := Decode_err w;
     ffprobe_Start_err :=
       Some (ExecError "exec: ffprobe: executable file not found in $PATH");
     ffprobe_Wait_err := ffprobe_Wait_err w;
     ffprobe_Unmarshal := ffprobe_Unmarshal w;
     cover_Start_err := cover_Start_err w;
     cover_Wait_err := cover_Wait_err w;
     cover_Stdout := cover_Stdout w;
     jpeg_to_png := jpeg_to_png w;
     base64_EncodeToString := base64_EncodeToString w;
     json_Marshal := json_Marshal w |}.

(** A page with a single segment of three bytes. *)
Definition small_page : Page :=
  {| SegTbl := [Byte.x03]; Packet := [Byte.x0a; Byte.x0b; Byte.x0c] |}.

(** A page whose only segment is empty. *)
Definition empty_segment_page : Page :=
  {| SegTbl := [Byte.x00]; Packet := [] |}.

(** Options that [Validate] rejects: the volume is out of bounds. *)
Definition loud_options : EncodeOptions :=
  {| Volume := 1000; Channels := 2; FrameRate := 48000;
     FrameDuration := 20; Bitrate := 64; PacketLoss := 1;
     RawOutput := true; Application := "audio"; CoverFormat := "";
     CompressionLevel := 10; BufferedFrames := 100; VBR := true;
     Comment := "" |}.

(** A session as [EncodeFile] leaves it for [run]. *)
Definition file_session (o : EncodeOptions) : encodeSession :=
  {| options := Some o; pipeReader := None; filePath := "song.ogg";
     running := false; started := false;
     frameChannel_cap := BufferedFrames o; process := false;
     lastFrame := 0; trace := [] |}.

End Samples.

(** ** What a reader of the queue is to see *)

Module QueueSpec.

Definition ok (frame : list byte) : slice * option error :=
  (Some frame, None).

Definition eof : slice * option error := (None, Some EOF).

(** The results of [n] calls on a source of [frames]: the frames in
    order, then the end of stream for good. *)
Fixpoint ideal (frames : list (list byte)) (n : nat)
  : list (slice * option error) :=
  match n with
  | O => []
  | S n' =>
      match frames with
      | f :: fs => ok f :: ideal fs n'
      | [] => eof :: ideal [] n'
      end
  end.

(** The frames among the results of the calls. *)
Fixpoint delivered (rs : list (slice * option error)) : list (list byte) :=
  match rs with
  | [] => []
  | (Some f, _) :: rs' => f :: delivered rs'
  | (None, _) :: rs' => delivered rs'
  end.

(** The frames of the pending sends. *)
Fixpoint sends (ops : list Queue.chanop) : list (list byte) :=
  match ops with
  | [] => []
  | Queue.Send f :: ops' => f :: sends ops'
  | Queue.Close :: ops' => sends ops'
  end.

(** The frames a state still holds for its readers. *)
Definition future (s : Queue.state) : list (list byte) :=
  Queue.buf s ++ sends (Queue.pending s).

(** The producer closes once, after its last send. *)
Definition wf (s : Queue.state) : Prop :=
  (Queue.closed s = false /\
   exists fs, Queue.pending s = Queue.produces fs) \/
  (Queue.closed s = true /\ Queue.pending s = []).

End QueueSpec.

(** ** The abort of the forwarding task *)

Module StreamSpec.

Import Stream.


(** Where a goroutine stands [n] steps after a hand-off of [opus] that
    the sink does not take. *)
Definition abort_phase (opus : slice) (n : nat) : pc :=
  match n with
  | O => HandOff opus
  | S O => Failed ErrVoiceConnClosed
  | S (S O) => Deferred
  | _ => Done
  end.

(** The other goroutines are gone. *)
Definition alone (i : nat) (y : System) : Prop :=
  forall j, j <> i ->
    nth_error (tasks y) j = Some Done \/ nth_error (tasks y) j = None.

(** The state [n] steps of goroutine [i] after [y0], where it stood at
    such a hand-off. *)
Definition aborting (i : nat) (opus : slice) (y0 : System) (n : nat)
           (y : System) : Prop :=
  panicked y = false /\
  framesSent (session y) = framesSent (session y0) /\
  nth_error (tasks y) i = Some (abort_phase opus n) /\
  alone i y /\
  ((n <= 2)%nat -> running (session y) = true) /\
  (n = 0%nat -> handoffs y = handoffs y0 /\ waited y = waited y0) /\
  ((1 <= n)%nat ->
   waited y = waited y0 ++ [Second] /\ handoffs y = S (handoffs y0)) /\
  ((2 <= n)%nat ->
   finished (session y) = true /\
   err (session y) = Some ErrVoiceConnClosed).

End StreamSpec.

(** ** Reading a whole stream with a decoder *)

Module DecoderLoop.
Section WithJSON.

Variable MetadataDoc : Type.

(** [n] calls of [OpusFrame] in a row, as the playback loops make them;
    the results of the calls and the decoder they leave. *)
Fixpoint OpusFrames (n : nat) (d : Decode.Decoder MetadataDoc)
  : outcome (list (slice * option error) * Decode.Decoder MetadataDoc) :=
  match n with
  | O => Returns ([], d)
  | S n' =>
      match Decode.OpusFrame MetadataDoc d with
      | Panics msg => Panics msg
      | Returns (frame, err, d') =>
          match OpusFrames n' d' with
          | Panics msg => Panics msg
          | Returns (rs, d'') => Returns ((frame, err) :: rs, d'')
          end
      end
  end.

End WithJSON.
End DecoderLoop.

(** ** Bookkeeping of the streaming session *)

Module StreamInv.

Import Stream.

(** A goroutine past the check of [running] at its entry and before the
    deferred reset of the flag. *)
Definition active (p : pc) : bool :=
  match p with
  | Entry | Done => false
  | _ => true
  end.

(** A goroutine whose hand-off was taken and that has not counted it. *)
Definition counting (p : pc) : bool :=
  match p with
  | Count => true
  | _ => false
  end.

(** A goroutine holding a frame it has pulled and not yet offered. *)
Definition holding (p : pc) : bool :=
  match p with
  | HandOff _ => true
  | _ => false
  end.

Definition count (f : pc -> bool) (t : list pc) : Z := len (filter f t).

(** How many of the first [n] hand-offs the sink takes within the
    second. *)
Fixpoint accepted (env : Env) (n : nat) : Z :=
  match n with
  | O => 0
  | S n' =>
      accepted env n'
      + (if fst (select_send (OpusSend env n')) then 1 else 0)
  end.

(** How many of the first [n] calls of [OpusFrame] return an error. *)
Fixpoint refused (env : Env) (n : nat) : Z :=
  match n with
  | O => 0
  | S n' =>
      refused env n'
      + match snd (OpusFrame env n') with Some _ => 1 | None => 0 end
  end.

(** The session after its first goroutine has forwarded [n] frames and
    stands at the top of its loop again. *)
Definition forwarding (env : Env) (n : nat) : System :=
  {| session := {| paused := false; framesSent := int64 (Z.of_nat n);
                   finished := false; running := true; err := None |};
     tasks := [LoopHead]; pulls := n; handoffs := n;
     waited := map (fun i => snd (select_send (OpusSend env i))) (seq 0 n);
     done := []; panicked := false |}.

(** A goroutine that has passed the check of [paused] and not yet
    called [OpusFrame]. *)
Definition pulling (p : pc) : bool :=
  match p with
  | Pull => true
  | _ => false
  end.

(** A step of a goroutine, as opposed to a call of [SetPaused]. *)
Definition is_task (a : action) : bool :=
  match a with
  | Task _ => true
  | CallSetPaused _ => false
  end.

(** While the session is paused: the calls of [OpusFrame] made and the
    one still to come, and the same for the hand-offs. *)
Definition pause_budget (y : System) : Z * Z :=
  (Z.of_nat (pulls y) + count pulling (tasks y),
   Z.of_nat (handoffs y) + count pulling (tasks y)
   + count holding (tasks y)).

(** Anything but a call [SetPaused(true)]. *)
Definition no_pause (a : action) : bool :=
  match a with
  | CallSetPaused true => false
  | _ => true
  end.

(** The flag [running] says whether a goroutine is in its loop. *)
Definition exclusive (y : System) : Prop :=
  count active (tasks y) = if running (session y) then 1 else 0.

(** The counters add up. *)
Definition balanced (env : Env) (y : System) : Prop :=
  framesSent (session y)
  = int64 (accepted env (handoffs y) - count counting (tasks y)) /\
  Z.of_nat (pulls y)
  = Z.of_nat (handoffs y) + refused env (pulls y) + count holding (tasks y).

End StreamInv.

(** ** Readers behind the [io.Reader] interface *)

Module IO.
Section Over.

(** A reader and its [Read]: the bytes delivered, the error and the
    reader afterwards; [None] when the call does not return.  The loops
    below are meant for readers that deliver a byte or an error on every
    request for at least one byte; for others they may run out of their
    bound, which counts as not returning. *)
Variable R : Type.
Variable Read : R -> nat -> option (list byte * option error * R).

(** [io.ReadAtLeast(r, buf, min)] with [len(buf) = min = want]. *)
Fixpoint ReadAtLeast_loop (fuel : nat) (r : R) (want : nat)
         (got : list byte) (err : option error)
  : option (list byte * option error * R) :=
  if (length got <? want)%nat && match err with None => true | _ => false end
  then
    match fuel with
    | O => None
    | S fuel' =>
        match Read r (want - length got) with
        | None => None
        | Some (bs, err', r') =>
            ReadAtLeast_loop fuel' r' want (got ++ bs) err'
        end
    end
  else Some (got, err, r).

Definition ReadFull (r : R) (want : nat)
  : option (list byte * option error * R) :=
  match ReadAtLeast_loop (S want) r want [] None with
  | None => None
  | Some (got, err, r') =>
      if (want <=? length got)%nat then Some (got, None, r')
      else
        match got, err with
        | _ :: _, Some EOF => Some (got, Some ErrUnexpectedEOF, r')
        | _, _ => Some (got, err, r')
        end
  end.

Definition binary_Read_int16 (r : R) (old : Z)
  : option (Z * option error * R) :=
  match ReadFull r 2 with
  | None => None
  | Some (bs, err, r') =>
      match err with
      | Some e => Some (old, Some e, r')
      | None => Some (int16 (le_combine bs), None, r')
      end
  end.

Definition binary_Read_bytes (r : R) (buf : list byte)
  : option (list byte * option error * R) :=
  match ReadFull r (length buf) with
  | None => None
  | Some (bs, err, r') =>
      match err with
      | Some e => Some (buf, Some e, r')
      | None => Some (bs, None, r')
      end
  end.

(** [DecodeFrame] on such a reader. *)
Definition DecodeFrame (r : R)
  : option (outcome (slice * option error * R)) :=
  match binary_Read_int16 r 0 with
  | None => None
  | Some (size, err, r1) =>
      match err with
      | Some e => Some (Returns (None, Some e, r1))
      | None =>
          if size <? 0 then Some (Panics "makeslice: len out of range")
          else
            let frame := make_bytes size in
            match binary_Read_bytes r1 frame with
            | None => None
            | Some (frame', err', r2) => Some (Returns (Some frame', err', r2))
            end
      end
  end.

End Over.
End IO.

(** ** The reading side of an encode session *)

Module Session.

(** What the readers of a session work on: [e.buf], the bytes of frames
    taken off the queue and not yet read, and [e.frameChannel] with its
    producer. *)
Record reader := {
  unread : list byte;
  frames : Queue.state
}.

(** A receive that waits: where [Queue.recv] would block on an open and
    empty channel, the producer gets the turn it is waiting for.  [None]
    when the producer has nothing left to do and never closed. *)
Definition receive (s : Queue.state) : option (slice * Queue.state) :=
  match Queue.recv s with
  | Some r => Some r
  | None =>
      match Queue.producer_step s with
      | Some s' => Queue.recv s'
      | None => None
      end
  end.

(** [ReadFrame], waiting. *)
Definition ReadFrame (s : Queue.state)
  : option (slice * option error * Queue.state) :=
  match receive s with
  | None => None
  | Some (None, s') => Some (None, Some EOF, s')
  | Some (Some frame, s') => Some (Some frame, None, s')
  end.

(** [bytes.Buffer.Read]: an empty buffer gives [io.EOF], unless nothing
    was asked for. *)
Definition Buffer_Read (b : list byte) (n : nat)
  : list byte * option error * list byte :=
  match b with
  | [] => if (n =? 0)%nat then ([], None, []) else ([], Some EOF, [])
  | _ => (firstn n b, None, skipn n b)
  end.

(** The loop of [Read]:
    <<
      for e.buf.Len() < len(p) {
        f, err := e.ReadFrame()
        if err != nil { break }
        e.buf.Write(f)
      }
    >> *)
Fixpoint fill (fuel : nat) (n : nat) (s : reader) : option reader :=
  if (length (unread s) <? n)%nat then
    match fuel with
    | O => None
    | S fuel' =>
        match ReadFrame (frames s) with
        | None => None
        | Some (_, Some _, q) => Some {| unread := unread s; frames := q |}
        | Some (f, None, q) =>
            fill fuel' n
              {| unread := unread s ++ match f with
                                       | Some f => f
                                       | None => []
                                       end;
                 frames := q |}
        end
    end
  else Some s.

(** How many receives the queue and its producer can still serve. *)
Definition backlog (q : Queue.state) : nat :=
  (length (Queue.buf q) + length (Queue.pending q))%nat.

(** [Read], the [io.Reader] of a session, for [len(p) = n]. *)
Definition Read (s : reader) (n : nat)
  : option (list byte * option error * reader) :=
  let filled :=
    if (n <=? length (unread s))%nat then Some s
    else fill (S (backlog (frames s))) n s in
  match filled with
  | None => None
  | Some s' =>
      let '(bs, err, rest) := Buffer_Read (unread s') n in
      Some (bs, err, {| unread := rest; frames := frames s' |})
  end.

(** [OpusFrame] of a session: [return DecodeFrame(e)]. *)
Definition OpusFrame (s : reader)
  : option (outcome (slice * option error * reader)) :=
  IO.DecodeFrame reader Read s.

(** [n] calls of [OpusFrame] in a row. *)
Fixpoint OpusFrames (n : nat) (s : reader)
  : option (outcome (list (slice * option error) * reader)) :=
  match n with
  | O => Some (Returns ([], s))
  | S n' =>
      match OpusFrame s with
      | None => None
      | Some (Panics msg) => Some (Panics msg)
      | Some (Returns (frame, err, s')) =>
          match OpusFrames n' s' with
          | None => None
          | Some (Panics msg) => Some (Panics msg)
          | Some (Returns (rs, s'')) => Some (Returns ((frame, err) :: rs, s''))
          end
      end
  end.

(** The loop of [Truncate], [for _ = range e.frameChannel {}]: it ends
    when the channel is closed and drained. *)
Fixpoint drain (fuel : nat) (q : Queue.state) : option Queue.state :=
  match fuel with
  | O => None
  | S fuel' =>
      match receive q with
      | None => None
      | Some (None, q') => Some q'
      | Some (Some _, q') => drain fuel' q'
      end
  end.

(** The mutex of a session ([sync.Mutex]), as a caller other than [run]
    finds it.  [run] takes it first thing and keeps it until the
    transcoder is started or the set-up has failed; a prologue, if one is
    written, is sent on the channel in between, with the mutex held.
    Every other holder ([writeOpusFrame], [handleStderrLine], the
    deferred reset of [run], [Stop], [Running], [Stats]) lets go without
    waiting for anybody: a mutex they hold counts as free. *)
Inductive mutex :=
| Free
| HeldByRun (prologue : bool).    (* [prologue]: it is still to be sent *)

(** [e.Lock()] by such a caller: it returns when [run] has let go.  A
    prologue that is still to be sent has to find room in the channel
    first, for the caller is not receiving, and nobody else is taken to
    be; when there is no room the call never returns: [None]. *)
Definition Lock (m : mutex) (q : Queue.state) : option Queue.state :=
  match m, Queue.pending q with
  | HeldByRun true, Queue.Send _ :: _ => Queue.producer_step q
  | _, _ => Some q
  end.

(** [Stop] stops the encoding session:
    <<
      e.Lock()
      defer e.Unlock()
      if !e.running || e.process == nil { return errors.New("Not running") }
      err := e.process.Kill()
      return err
    >>
    [e] holds the fields as they are once the mutex is got, [Kill_err] is
    what [e.process.Kill()] returns, and the flag says whether the
    process was signalled. *)
Definition Stop (Kill_err : option error) (m : mutex)
           (e : Encode.encodeSession) (q : Queue.state)
  : option (option error * bool * Queue.state) :=
  match Lock m q with
  | None => None
  | Some q' =>
      if negb (Encode.running e) || negb (Encode.process e)
      then Some (Some (ErrorsNew "Not running"), false, q')
      else Some (Kill_err, true, q')
  end.

(** [Running]: [e.Lock(); running = e.running; e.Unlock()]. *)
Definition Running (m : mutex) (e : Encode.encodeSession) (q : Queue.state)
  : option (bool * Queue.state) :=
  match Lock m q with
  | None => None
  | Some q' => Some (Encode.running e, q')
  end.

(** [Truncate] throws away all unread frames and kills ffmpeg:
    <<
      e.Stop()
      for _ = range e.frameChannel { }
    >>
    The error of [Stop] is dropped; whether the process was signalled is
    kept here.  What the signal does to the transcoder shows in the queue
    only through what the producer goes on to do, which is [q]'s
    [pending].  The loop is not reached when [Stop] does not return. *)
Definition Truncate (Kill_err : option error) (m : mutex)
           (e : Encode.encodeSession) (q : Queue.state)
  : option (bool * Queue.state) :=
  match Stop Kill_err m e q with
  | None => None
  | Some (_, signalled, q1) =>
      match drain (S (backlog q1)) q1 with
      | None => None
      | Some q' => Some (signalled, q')
      end
  end.

(** A fresh reader on the queue of a session whose producer will do
    [ops]. *)
Definition open (ops : list Queue.chanop) (capacity : Z) : reader :=
  {| unread := []; frames := Queue.init ops capacity |}.

(** The bytes a reader has before it. *)
Definition stream (s : reader) : list byte :=
  unread s ++ concat (QueueSpec.future (frames s)).

End Session.

(** ** The statistics the transcoder prints *)

Module Stderr.
Section WithScanner.

(** [float32], the conversion [time.Duration(timeS)] of one to an
    integer, [string(r)] for a rune, and [fmt.Sscanf] with the format of
    the status line are outside the sources at hand and are taken as
    parameters.  [Sscanf] gives the values of the six variables after the
    call (those of verbs it did not reach are still zero) and its
    error. *)
Variable float32 : Type.
Variable Duration_of_float32 : float32 -> Z.
Variable string_of_rune : Z -> string.

Record scanned := {
  size : Z;
  timeH : Z;
  timeM : Z;
  timeS : float32;
  bitrate : float32;
  speed : float32
}.

Variable Sscanf : string -> scanned * option error.
Variable float32_zero : float32.

(** [EncodeStats] is transcode stats reported by ffmpeg. *)
Record EncodeStats := {
  Size : Z;
  Duration : Z;
  Bitrate : float32;
  Speed : float32
}.

(** [time.Second], [time.Minute] and [time.Hour]. *)
Definition Second : Z := 1000000000.
Definition Minute : Z := 60 * Second.
Definition Hour : Z := 60 * Minute.

(** The part of a session the reader of [stderr] works on, and what it
    logs. *)
Record state := {
  lastStats : option EncodeStats;
  log : list string
}.

Definition logln (msg : string) (st : state) : state :=
  {| lastStats := lastStats st; log := log st ++ [msg] |}.

(** The snapshot a status line gives. *)
Definition stats_of (line : string) : EncodeStats :=
  let v := fst (Sscanf line) in
  let dur := int64 (int64 (timeH v) * Hour) in
  let dur := int64 (dur + int64 (int64 (timeM v) * Minute)) in
  let dur :=
    int64 (dur + int64 (int64 (Duration_of_float32 (timeS v)) * Second)) in
  {| Size := size v; Duration := dur; Bitrate := bitrate v;
     Speed := speed v |}.

(** [strings.Index(line, "size=") != 0]: not stats info. *)
Definition is_stats (line : string) : bool := String.prefix "size=" line.

Definition handleStderrLine (line : string) (st : state) : state :=
  if negb (is_stats line) then st
  else
    let st := match snd (Sscanf line) with
              | Some _ => logln "Error parsing ffmpeg stats:" st
              | None => st
              end in
    {| lastStats := Some (stats_of line); log := log st |}.

(** [r == '\n' || r == '\r']. *)
Definition terminator (r : Z) : bool := (r =? 10) || (r =? 13).

(** The loop of [readStderr] over the runes [ReadRune] delivers before
    its error. *)
Fixpoint readStderr_loop (input : list Z) (outBuf : string) (st : state)
  : state :=
  match input with
  | [] => st
  | r :: input' =>
      if terminator r then
        if (0 <? String.length outBuf)%nat
        then readStderr_loop input' "" (handleStderrLine outBuf st)
        else readStderr_loop input' outBuf st
      else readStderr_loop input' (outBuf ++ string_of_rune r) st
  end.

(** [readStderr] on a stream of [input] runes that ends with the error
    [err] of [ReadRune]. *)
Definition readStderr (input : list Z) (err : error) (st : state) : state :=
  let st := readStderr_loop input "" st in
  match err with
  | EOF => st
  | _ => logln "Error Reading stderr:" st
  end.

(** [Stats]: a copy of the last snapshot, a zero one when there is
    none. *)
Definition Stats (st : state) : EncodeStats :=
  match lastStats st with
  | Some s => s
  | None => {| Size := 0; Duration := 0; Bitrate := float32_zero;
               Speed := float32_zero |}
  end.

(** The text of a run of runes. *)
Definition text (l : list Z) : string :=
  fold_left (fun s r => (s ++ string_of_rune r)%string) l ""%string.

(** A line and the terminator that ends it. *)
Definition complete (lt : list Z * Z) : bool :=
  forallb (fun r => negb (terminator r)) (fst lt) && terminator (snd lt).

Definition wire (lt : list Z * Z) : list Z := fst lt ++ [snd lt].

Definition nonblank (line : string) : bool := (0 <? String.length line)%nat.

End WithScanner.
End Stderr.

(** ** The earlier producer, on raw transcoder output *)

Module Chunked.

Import Encode.

(** [(e.options.Bitrate*e.options.FrameDuration)/8], the length of
    [inBuf]. *)
Definition inBuf_len (o : EncodeOptions) : Z :=
  Z.quot (int64 (Bitrate o * FrameDuration o)) 8.

(** Where the loop stands when the model stops following it. *)
Inductive status :=
| Looping                    (* still in the [for] loop *)
| Returned                   (* [return], and the deferred [close] *)
| Panicked (msg : string).   (* [make] refused the length *)

(** [readStdout] of the sessions that read fixed-size chunks, followed
    for [fuel] iterations:
    <<
      defer close(e.frameChannel)
      for {
        inBuf := make([]byte, (e.options.Bitrate*e.options.FrameDuration)/8)
        err := binary.Read(stdout, binary.LittleEndian, &inBuf)
        if err == io.EOF || err == io.ErrUnexpectedEOF { return }
        if err != nil { Logln(...); return }
        var framebuf bytes.Buffer
        opuslen := int16(len(inBuf))
        binary.Write(&framebuf, binary.LittleEndian, &opuslen)
        binary.Write(&framebuf, binary.LittleEndian, &inBuf)
        e.frameChannel <- framebuf.Bytes()
      }
    >>
    The result is what was read off [stdout] so far, the events and the
    status. *)
Fixpoint readStdout_loop (fuel : nat) (o : EncodeOptions) (stdout : Reader)
         (tr : list event) : Reader * list event * status :=
  match fuel with
  | O => (stdout, tr, Looping)
  | S fuel' =>
      if inBuf_len o <? 0
      then (stdout, tr ++ [EvClose], Panicked "makeslice: len out of range")
      else
        let '(inBuf, err, stdout') :=
          binary_Read_bytes stdout (make_bytes (inBuf_len o)) in
        match err with
        | Some EOF | Some ErrUnexpectedEOF =>
            (stdout', tr ++ [EvClose], Returned)
        | Some _ =>
            (stdout',
             tr ++ [EvLog "error reading from ffmpeg stdout:"; EvClose],
             Returned)
        | None =>
            let framebuf := binary_Write_int16 (int16 (len inBuf)) ++ inBuf in
            readStdout_loop fuel' o stdout' (tr ++ [EvSend framebuf])
        end
  end.

End Chunked.

(** * Properties *)

(** ** Facts about the run-time model *)

Section ReaderFacts.

Lemma ReadAtLeast_loop_eq fuel r want got err :
  ReadAtLeast_loop fuel r want got err =
  if (length got <? want)%nat && match err with None => true | _ => false end
  then
    match fuel with
    | O => (got, err, r)
    | S fuel' =>
        let '(bs, err', r') := Read r (want - length got) in
        ReadAtLeast_loop fuel' r' want (got ++ bs) err'
    end
  else (got, err, r).
Proof. destruct fuel; reflexivity. Qed.

Lemma ReadFull_zero (r : Reader) : ReadFull r 0 = ([], None, r).
Proof. reflexivity. Qed.

Lemma ReadFull_empty (want : nat) :
  (0 < want)%nat -> ReadFull [] want = ([], Some EOF, []).
Proof.
  intros Hw. unfold ReadFull. rewrite ReadAtLeast_loop_eq.
  cbn [length]. rewrite (proj2 (Nat.ltb_lt 0 want) Hw).
  cbn [andb Read app]. rewrite ReadAtLeast_loop_eq.
  rewrite andb_false_r. cbn [length].
  rewrite (proj2 (Nat.leb_gt want 0) Hw). reflexivity.
Qed.

Lemma ReadFull_enough (r : Reader) (want : nat) :
  (want <= length r)%nat ->
  ReadFull r want = (firstn want r, None, skipn want r).
Proof.
  intros Hle. destruct want as [|w]; [reflexivity|].
  destruct r as [|b r]; [cbn in Hle; lia|].
  assert (Hlen : length (firstn (S w) (b :: r)) = S w)
    by (rewrite length_firstn; apply Nat.min_l; exact Hle).
  unfold ReadFull. rewrite ReadAtLeast_loop_eq.
  change (length (@nil byte)) with 0%nat.
  rewrite (proj2 (Nat.ltb_lt 0 (S w))) by lia.
  rewrite Nat.sub_0_r. cbn [andb Read app].
  rewrite ReadAtLeast_loop_eq, Hlen, Nat.ltb_irrefl. cbn [andb].
  rewrite Hlen, Nat.leb_refl. reflexivity.
Qed.

Lemma ReadFull_short (r : Reader) (want : nat) :
  (0 < length r < want)%nat ->
  ReadFull r want = (r, Some ErrUnexpectedEOF, []).
Proof.
  intros [Hpos Hlt].
  destruct r as [|b r]; [cbn in Hpos; lia|].
  assert (Hl : (length (b :: r) <? want)%nat = true)
    by (apply Nat.ltb_lt; exact Hlt).
  assert (Hn : (want <=? length (b :: r))%nat = false)
    by (apply Nat.leb_gt; exact Hlt).
  unfold ReadFull. rewrite ReadAtLeast_loop_eq.
  change (length (@nil byte)) with 0%nat.
  rewrite (proj2 (Nat.ltb_lt 0 want)) by lia.
  rewrite Nat.sub_0_r. cbn [andb Read app].
  rewrite firstn_all2, skipn_all2 by lia.
  destruct want as [|w]; [lia|].
  rewrite ReadAtLeast_loop_eq, Hl. cbn [andb Read app].
  rewrite app_nil_r, ReadAtLeast_loop_eq, andb_false_r, Hn.
  reflexivity.
Qed.

Lemma int16_small (z : Z) : - 2 ^ 15 <= z < 2 ^ 15 -> int16 z = z.
Proof. intros H. unfold int16. rewrite Z.mod_small; lia. Qed.

Lemma int16_uint16 (z : Z) : int16 (uint16 z) = int16 z.
Proof.
  unfold int16, uint16. f_equal.
  rewrite Zplus_mod_idemp_l. reflexivity.
Qed.

Lemma binary_Read_Write_int16 (z old : Z) (rest : Reader) :
  - 2 ^ 15 <= z < 2 ^ 15 ->
  binary_Read_int16 (binary_Write_int16 z ++ rest) old = (z, None, rest).
Proof.
  intros Hz. unfold binary_Read_int16, binary_Write_int16.
  rewrite ReadFull_enough
    by (rewrite length_app, length_le_split; lia).
  rewrite firstn_app, length_le_split, Nat.sub_diag, firstn_O, app_nil_r.
  rewrite firstn_all2 by (rewrite length_le_split; lia).
  rewrite skipn_app, length_le_split, Nat.sub_diag, skipn_O.
  rewrite skipn_all2 by (rewrite length_le_split; lia).
  cbn [app]. rewrite le_combine_split.
  change (2 ^ (Z.of_nat 2 * 8)) with (2 ^ 16).
  fold (uint16 (uint16 z)). rewrite !int16_uint16, int16_small by exact Hz.
  reflexivity.
Qed.

Lemma length_make_bytes (n : Z) : length (make_bytes n) = Z.to_nat n.
Proof. apply repeat_length. Qed.

End ReaderFacts.

(** ** The frame wire format *)

Section WireFormat.

Lemma dcaBuf_of_split (payload : list byte) :
  dcaBuf_of payload = binary_Write_int16 (int16 (len payload)) ++ payload.
Proof. reflexivity. Qed.

Lemma len_small_int16 (payload : list byte) :
  len payload <= 32767 ->
  - 2 ^ 15 <= int16 (len payload) < 2 ^ 15 /\
  int16 (len payload) = len payload.
Proof.
  intros H. unfold len in *.
  rewrite int16_small by lia. lia.
Qed.

(** Decoding a frame whose prefix announces [n >= 0] bytes, from what
    follows the prefix. *)
Lemma DecodeFrame_after_prefix (n : Z) (body : Reader) :
  0 <= n < 2 ^ 15 ->
  DecodeFrame (binary_Write_int16 n ++ body) =
  let '(frame, err, r') := binary_Read_bytes body (make_bytes n) in
  Returns (Some frame, err, r').
Proof.
  intros Hn. unfold DecodeFrame.
  rewrite binary_Read_Write_int16 by lia.
  destruct (Z.ltb_spec n 0); [lia|]. reflexivity.
Qed.

Lemma firstn_dcaBuf (payload : list byte) (k : nat) :
  firstn (2 + k) (dcaBuf_of payload) =
  binary_Write_int16 (int16 (len payload)) ++ firstn k payload.
Proof.
  unfold dcaBuf_of, binary_Write_int16.
  rewrite firstn_app, length_le_split.
  rewrite firstn_all2 by (rewrite length_le_split; lia).
  replace (2 + k - 2)%nat with k by lia. reflexivity.
Qed.

End WireFormat.

(** C1, as stated, fails: a frame cut right after its length prefix makes
    [DecodeFrame] return [io.EOF], the very error of a clean end of
    stream.  The payload is the single byte 0x2a. *)
Lemma DecodeFrame_short_read_not_distinguishable :
  ~ (forall (payload : list byte) (k : nat),
        len payload <= 32767 -> (k < length payload)%nat ->
        exists frame e r' e0 r0,
          DecodeFrame (firstn (2 + k) (dcaBuf_of payload))
            = Returns (frame, Some e, r') /\
          DecodeFrame [] = Returns (None, Some e0, r0) /\
          e <> e0).
Proof.
  intros H.
  destruct (H [Byte.x2a] 0%nat) as (frame & e & r' & e0 & r0 & H1 & H2 & Hne).
  - vm_compute. discriminate.
  - cbn. lia.
  - vm_compute in H1, H2. congruence.
Qed.

(** A frame cut right after its length prefix: the second read finds
    nothing at all and reports [io.EOF]. *)
Lemma DecodeFrame_cut_after_prefix (payload : list byte) :
  len payload <= 32767 -> payload <> [] ->
  DecodeFrame (firstn 2 (dcaBuf_of payload))
  = Returns (Some (make_bytes (len payload)), Some EOF, []).
Proof.
  intros HL Hne.
  destruct (len_small_int16 payload HL) as [Hr Hi].
  assert (Hn : 0 <= len payload < 2 ^ 15) by (unfold len in *; lia).
  change 2%nat with (2 + 0)%nat.
  rewrite firstn_dcaBuf, Hi. cbn [firstn].
  rewrite DecodeFrame_after_prefix by exact Hn.
  unfold binary_Read_bytes. rewrite length_make_bytes.
  rewrite ReadFull_empty; [reflexivity|].
  destruct payload; [congruence|unfold len; cbn [length]; lia].
Qed.

(** C1 (amended): for every payload of length [L <= 32767], decoding its
    wire frame gives the payload back and leaves the reader after the
    frame; a frame cut after at least one but fewer than [L] payload bytes,
    or inside its length prefix, makes [DecodeFrame] return
    [io.ErrUnexpectedEOF], which differs from the [io.EOF] of a clean end
    of stream, with a zero-filled frame and never the partial payload. *)
Theorem DecodeFrame_roundtrip_and_truncation (payload : list byte) :
  len payload <= 32767 ->
  (forall rest,
      DecodeFrame (dcaBuf_of payload ++ rest)
      = Returns (Some payload, None, rest)) /\
  (forall k, (0 < k < length payload)%nat ->
      DecodeFrame (firstn (2 + k) (dcaBuf_of payload))
      = Returns (Some (make_bytes (len payload)), Some ErrUnexpectedEOF, [])) /\
  DecodeFrame (firstn 1 (dcaBuf_of payload))
  = Returns (None, Some ErrUnexpectedEOF, []) /\
  DecodeFrame [] = Returns (None, Some EOF, []) /\
  ErrUnexpectedEOF <> EOF.
Proof.
  intros HL.
  destruct (len_small_int16 payload HL) as [Hr Hi].
  assert (Hn : 0 <= len payload < 2 ^ 15) by (unfold len in *; lia).
  assert (Hm : length (make_bytes (len payload)) = length payload)
    by (rewrite length_make_bytes; unfold len; lia).
  split; [|split; [|split; [|split]]].
  - intros rest. unfold dcaBuf_of. rewrite Hi, <- app_assoc.
    rewrite DecodeFrame_after_prefix by exact Hn.
    unfold binary_Read_bytes. rewrite Hm.
    rewrite ReadFull_enough by (rewrite length_app; lia).
    rewrite firstn_app, Nat.sub_diag, firstn_O, app_nil_r, firstn_all.
    rewrite skipn_app, Nat.sub_diag, skipn_O, skipn_all. reflexivity.
  - intros k Hk. rewrite firstn_dcaBuf, Hi.
    rewrite DecodeFrame_after_prefix by exact Hn.
    unfold binary_Read_bytes. rewrite Hm.
    rewrite ReadFull_short; [reflexivity|].
    rewrite length_firstn. lia.
  - reflexivity.
  - reflexivity.
  - discriminate.
Qed.

Lemma DecodeFrame_roundtrip_and_truncation_witness :
  len [Byte.x01; Byte.x02; Byte.x03] <= 32767 /\
  DecodeFrame (dcaBuf_of [Byte.x01; Byte.x02; Byte.x03] ++ [Byte.xff])
  = Returns (Some [Byte.x01; Byte.x02; Byte.x03], None, [Byte.xff]).
Proof.
  assert (H : len [Byte.x01; Byte.x02; Byte.x03] <= 32767)
    by (vm_compute; discriminate).
  split; [exact H|].
  exact (proj1 (DecodeFrame_roundtrip_and_truncation
                  [Byte.x01; Byte.x02; Byte.x03] H) [Byte.xff]).
Defined.

Lemma le_combine_2 (b0 b1 : byte) :
  le_combine [b0; b1] = byte.unsigned b0 + 256 * byte.unsigned b1.
Proof.
  change (le_combine [b0; b1])
    with (Z.lor (byte.unsigned b0)
            (Z.shiftl (Z.lor (byte.unsigned b1) (Z.shiftl 0 8)) 8)).
  rewrite Z.shiftl_0_l, Z.lor_0_r.
  rewrite Z.or_to_plus.
  - rewrite Z.shiftl_mul_pow2 by lia. change (2 ^ 8) with 256. lia.
  - rewrite <- (byte.wrap_unsigned b0). unfold byte.wrap.
    Z.bitblast. subst l.
    rewrite (Z.testbit_neg_r _ (i - 8)) by lia. apply andb_false_r.
Qed.

(** C10: a length prefix that decodes to a negative [int16] makes
    [DecodeFrame] panic in [make]; the stream 0xff 0xff announces -1. *)
Theorem DecodeFrame_negative_size_panics :
  DecodeFrame [Byte.xff; Byte.xff] = Panics "makeslice: len out of range" /\
  forall (b0 b1 : byte) (rest : Reader),
    128 <= byte.unsigned b1 ->
    DecodeFrame (b0 :: b1 :: rest) = Panics "makeslice: len out of range".
Proof.
  split; [reflexivity|].
  intros b0 b1 rest Hb.
  unfold DecodeFrame, binary_Read_int16.
  rewrite ReadFull_enough by (cbn [length]; lia).
  change (firstn 2 (b0 :: b1 :: rest)) with [b0; b1].
  change (skipn 2 (b0 :: b1 :: rest)) with rest.
  pose proof (byte.unsigned_range b0) as H0.
  pose proof (byte.unsigned_range b1) as H1.
  rewrite le_combine_2.
  assert (Hs : int16 (byte.unsigned b0 + 256 * byte.unsigned b1) < 0).
  { unfold int16.
    change (2 ^ 8) with 256 in *. change (2 ^ 15) with 32768.
    change (2 ^ 16) with 65536.
    replace (byte.unsigned b0 + 256 * byte.unsigned b1 + 32768)
      with ((byte.unsigned b0 + 256 * byte.unsigned b1 - 32768) + 1 * 65536)
      by lia.
    rewrite Z.mod_add by lia. rewrite Z.mod_small; lia. }
  destruct (Z.ltb_spec (int16 (byte.unsigned b0 + 256 * byte.unsigned b1)) 0);
    [reflexivity|lia].
Qed.

(** ** Option validation *)

(** C5: [Validate] accepts exactly the options whose volume is in 0..512,
    whose frame duration is 20, 40 or 60 and whose packet loss is in
    0..100; a volume out of range is reported by the volume error, and,
    the earlier fields being in range, a bad frame duration and a bad
    packet loss are each reported by the error naming that field. *)
Theorem Validate_spec (opts : Encode.EncodeOptions) :
  let vol_ok := 0 <= Encode.Volume opts <= 512 in
  let dur_ok := Encode.FrameDuration opts = 20 \/
                Encode.FrameDuration opts = 40 \/
                Encode.FrameDuration opts = 60 in
  let loss_ok := 0 <= Encode.PacketLoss opts <= 100 in
  (Encode.Validate opts = None <-> vol_ok /\ dur_ok /\ loss_ok) /\
  (~ vol_ok ->
   Encode.Validate opts = Some (ErrorsNew "Out of bounds volume (0-512)")) /\
  (vol_ok -> ~ dur_ok ->
   Encode.Validate opts = Some (ErrorsNew "Invalid FrameDuration")) /\
  (vol_ok -> dur_ok -> ~ loss_ok ->
   Encode.Validate opts = Some (ErrorsNew "Invalid packet loss percentage")).
Proof.
  unfold Encode.Validate. cbv zeta.
  destruct (Z.ltb_spec (Encode.Volume opts) 0);
    [cbn [orb]; intuition (try reflexivity; try discriminate; lia)|].
  destruct (Z.ltb_spec 512 (Encode.Volume opts));
    [cbn [orb]; intuition (try reflexivity; try discriminate; lia)|].
  cbn [orb].
  destruct (Z.eqb_spec (Encode.FrameDuration opts) 20);
    destruct (Z.eqb_spec (Encode.FrameDuration opts) 40);
    destruct (Z.eqb_spec (Encode.FrameDuration opts) 60);
    cbn [andb negb]; try lia;
    try solve [intuition (try reflexivity; try discriminate; lia)];
    (destruct (Z.ltb_spec (Encode.PacketLoss opts) 0);
     [cbn [orb]; intuition (try reflexivity; try discriminate; lia)|];
     destruct (Z.ltb_spec 100 (Encode.PacketLoss opts)); cbn [orb];
     intuition (try reflexivity; try discriminate; lia)).
Qed.

Lemma Validate_spec_witness :
  Encode.Validate Encode.StdEncodeOptions = None /\
  0 <= Encode.Volume Encode.StdEncodeOptions <= 512.
Proof.
  pose proof (proj1 (Validate_spec Encode.StdEncodeOptions)) as H.
  cbv zeta in H.
  assert (Hv : 0 <= Encode.Volume Encode.StdEncodeOptions <= 512)
    by (cbn; lia).
  split; [|exact Hv].
  apply (proj2 H). split; [exact Hv|]. split; [left; reflexivity|cbn; lia].
Defined.

(** ** The metadata prologue decoder *)

Lemma int32_small (z : Z) : - 2 ^ 31 <= z < 2 ^ 31 -> int32 z = z.
Proof. intros H. unfold int32. rewrite Z.mod_small; lia. Qed.

Lemma int32_uint32 (z : Z) : int32 (uint32 z) = int32 z.
Proof.
  unfold int32, uint32. f_equal.
  rewrite Zplus_mod_idemp_l. reflexivity.
Qed.

Lemma binary_Read_Write_int32 (z old : Z) (rest : Reader) :
  - 2 ^ 31 <= z < 2 ^ 31 ->
  binary_Read_int32 (binary_Write_int32 z ++ rest) old = (z, None, rest).
Proof.
  intros Hz. unfold binary_Read_int32, binary_Write_int32.
  rewrite ReadFull_enough
    by (rewrite length_app, length_le_split; lia).
  rewrite firstn_app, length_le_split, Nat.sub_diag, firstn_O, app_nil_r.
  rewrite firstn_all2 by (rewrite length_le_split; lia).
  rewrite skipn_app, length_le_split, Nat.sub_diag, skipn_O.
  rewrite skipn_all2 by (rewrite length_le_split; lia).
  cbn [app]. rewrite le_combine_split.
  change (2 ^ (Z.of_nat 4 * 8)) with (2 ^ 32).
  fold (uint32 (uint32 z)). rewrite !int32_uint32, int32_small by exact Hz.
  reflexivity.
Qed.

Lemma binary_Read_bytes_exact (body rest : Reader) (n : Z) :
  n = len body ->
  binary_Read_bytes (body ++ rest) (make_bytes n) = (body, None, rest).
Proof.
  intros ->. unfold binary_Read_bytes.
  rewrite length_make_bytes. unfold len. rewrite Nat2Z.id.
  rewrite ReadFull_enough by (rewrite length_app; lia).
  rewrite firstn_app, Nat.sub_diag, firstn_O, app_nil_r, firstn_all.
  rewrite skipn_app, Nat.sub_diag, skipn_O, skipn_all. reflexivity.
Qed.

(** [ParseInt] of a one-byte string succeeds exactly on a digit. *)
Lemma ParseInt10_one_byte (func : string) (v : byte) :
  ParseInt10 func [v] 32 =
  match digit_of v with
  | Some n => (n, None)
  | None => (0, Some (NumError func [v] ErrSyntax))
  end.
Proof.
  unfold ParseInt10, digit_of.
  pose proof (byte.unsigned_range v) as Hv.
  destruct (Z.eqb_spec (byte.unsigned v) 43) as [E|N43].
  { rewrite E. reflexivity. }
  destruct (Z.eqb_spec (byte.unsigned v) 45) as [E|N45].
  { rewrite E. reflexivity. }
  cbn [parse_digits]. unfold digit_of.
  destruct (Z.leb_spec 48 (byte.unsigned v));
    destruct (Z.leb_spec (byte.unsigned v) 57); cbn [andb]; try reflexivity.
  change (2 ^ (32 - 1)) with 2147483648.
  destruct (Z.leb_spec 2147483648 (10 * 0 + (byte.unsigned v - 48))); [lia|].
  cbn [negb andb]. f_equal; lia.
Qed.

Section DecodeFacts.

Variable MetadataDoc : Type.
Variable json_Unmarshal : list byte -> option MetadataDoc * option string.


(** The fingerprint of a stream that does not start with the magic does
    not start with it either, however few bytes the stream holds. *)
Lemma fingerprint_not_magic (s : Reader) :
  s <> [] -> firstn 3 s <> Decode.magic ->
  exists fp,
    Decode.read_fingerprint s = (fp, None, skipn 4 s) /\
    firstn 3 fp <> Decode.magic.
Proof.
  intros Hne Hm. unfold Decode.read_fingerprint, Read.
  destruct s as [|a [|b [|c [|x s']]]]; [congruence| | | |];
    eexists; (split; [reflexivity|]); try exact Hm;
    cbv; intros E; discriminate E.
Qed.

(** C9: a stream whose first three bytes are not "DCA" makes
    [ReadMetadata] return [ErrNotDCA], whatever follows; when the magic
    matches, a version byte that is not a digit makes it return the
    [strconv] syntax error, and a JSON body that fails to parse makes it
    return the error of the JSON decoder; both differ from
    [ErrNotDCA]. *)
Theorem ReadMetadata_errors (d : Decode.Decoder MetadataDoc) :
  (Decode.r _ d <> [] -> firstn 3 (Decode.r _ d) <> Decode.magic ->
   Decode.ReadMetadata _ json_Unmarshal d =
   Returns ({| Decode.Metadata := Decode.Metadata _ d;
               Decode.FormatVersion := Decode.FormatVersion _ d;
               Decode.r := skipn 4 (Decode.r _ d) |}, Some ErrNotDCA)) /\
  (forall v rest,
      Decode.r _ d = Decode.magic ++ v :: rest -> digit_of v = None ->
      Decode.ReadMetadata _ json_Unmarshal d =
      Returns ({| Decode.Metadata := Decode.Metadata _ d;
                  Decode.FormatVersion := Decode.FormatVersion _ d;
                  Decode.r := rest |},
               Some (NumError "ParseInt" [v] ErrSyntax)) /\
      NumError "ParseInt" [v] ErrSyntax <> ErrNotDCA) /\
  (forall v n body rest m msg,
      Decode.r _ d
      = Decode.magic ++ v :: binary_Write_int32 (len body) ++ body ++ rest ->
      digit_of v = Some n -> len body < 2 ^ 31 ->
      json_Unmarshal body = (m, Some msg) ->
      Decode.ReadMetadata _ json_Unmarshal d =
      Returns ({| Decode.Metadata := m; Decode.FormatVersion := n;
                  Decode.r := rest |}, Some (JSONError msg)) /\
      JSONError msg <> ErrNotDCA).
Proof.
  split; [|split].
  - intros Hne Hm.
    destruct (fingerprint_not_magic _ Hne Hm) as (fp & Hfp & Hfm).
    unfold Decode.ReadMetadata. rewrite Hfp.
    destruct (list_eq_dec Byte.byte_eq_dec (firstn 3 fp) Decode.magic);
      [contradiction|reflexivity].
  - intros v rest Hr Hv. split; [|discriminate].
    unfold Decode.ReadMetadata. rewrite Hr.
    change (Decode.read_fingerprint (Decode.magic ++ v :: rest))
      with (Decode.magic ++ [v], @None error, rest).
    change (firstn 3 (Decode.magic ++ [v])) with Decode.magic.
    destruct (list_eq_dec Byte.byte_eq_dec Decode.magic Decode.magic);
      [|congruence].
    change (skipn 3 (Decode.magic ++ [v])) with [v].
    rewrite ParseInt10_one_byte, Hv. reflexivity.
  - intros v n body rest m msg Hr Hv Hlen Hj. split; [|discriminate].
    unfold Decode.ReadMetadata. rewrite Hr.
    change (Decode.read_fingerprint
              (Decode.magic ++ v :: binary_Write_int32 (len body)
                 ++ body ++ rest))
      with (Decode.magic ++ [v], @None error,
            binary_Write_int32 (len body) ++ body ++ rest).
    change (firstn 3 (Decode.magic ++ [v])) with Decode.magic.
    destruct (list_eq_dec Byte.byte_eq_dec Decode.magic Decode.magic);
      [|congruence].
    change (skipn 3 (Decode.magic ++ [v])) with [v].
    rewrite ParseInt10_one_byte, Hv. cbn [negb].
    rewrite binary_Read_Write_int32 by (unfold len in *; lia).
    destruct (Z.ltb_spec (len body) 0); [unfold len in *; lia|].
    rewrite binary_Read_bytes_exact by reflexivity.
    rewrite Hj. reflexivity.
Qed.

End DecodeFacts.

(** ** The producer: page and segment walking *)

Section Producer.

Import Encode PacketSpec.

Lemma trace_emit ev e : trace (emit ev e) = trace e ++ [ev].
Proof. reflexivity. Qed.

Lemma writeOpusFrame_trace p e :
  trace (fst (writeOpusFrame p e)) = trace e ++ [EvSend (dcaBuf_of p)].
Proof. reflexivity. Qed.

Lemma writeOpusFrame_ok p e : snd (writeOpusFrame p e) = None.
Proof. reflexivity. Qed.

Lemma send_all_trace ps : forall e,
  trace (send_all ps e) = trace e ++ map (fun p => EvSend (dcaBuf_of p)) ps.
Proof.
  induction ps as [|p ps IH]; intros e; cbn [send_all map].
  - now rewrite app_nil_r.
  - rewrite IH, writeOpusFrame_trace, <- app_assoc. reflexivity.
Qed.

Lemma send_all_app ps qs e :
  send_all (ps ++ qs) e = send_all qs (send_all ps e).
Proof.
  revert e. induction ps as [|p ps IH]; intros e; cbn [send_all app].
  - reflexivity.
  - apply IH.
Qed.

Lemma walk_guarded_app s1 : forall s2 packet,
  walk_guarded (s1 ++ s2) packet =
  let '(f1, p1) := walk_guarded s1 packet in
  let '(f2, p2) := walk_guarded s2 p1 in
  (f1 ++ f2, p2).
Proof.
  induction s1 as [|seg s1 IH]; intros s2 packet;
    cbn [walk_guarded app].
  - destruct (walk_guarded s2 packet); reflexivity.
  - destruct ((len seg <? max_segment) && (0 <? len (packet ++ seg))).
    + rewrite IH. destruct (walk_guarded s1 []) as [f1 p1].
      destruct (walk_guarded s2 p1) as [f2 p2]. reflexivity.
    + apply IH.
Qed.

(** Dropping the empty packets of the walk of the specification gives
    the packets of the guarded walk, and the packet it leaves open when
    that one holds a byte. *)
Lemma filter_walk segs : forall packet,
  filter nonempty (walk segs packet) =
  fst (walk_guarded segs packet) ++
  (if nonempty (snd (walk_guarded segs packet))
   then [snd (walk_guarded segs packet)] else []).
Proof.
  induction segs as [|seg segs IH]; intros packet;
    cbn [walk walk_guarded fst snd app].
  - unfold nonempty. destruct (0 <? len packet) eqn:E; cbn [filter].
    + unfold nonempty. rewrite E. reflexivity.
    + reflexivity.
  - destruct (len seg <? max_segment) eqn:Es; cbn [andb].
    + destruct (0 <? len (packet ++ seg)) eqn:Ep; cbn [filter].
      * unfold nonempty at 1. rewrite Ep, IH.
        destruct (walk_guarded segs []) as [f p]. reflexivity.
      * unfold nonempty at 1. rewrite Ep.
        assert (Hnil : packet ++ seg = []).
        { destruct (packet ++ seg); [reflexivity|].
          unfold len in Ep. cbn [length] in Ep.
          apply Z.ltb_ge in Ep. lia. }
        rewrite Hnil. apply IH.
    + apply IH.
Qed.

Lemma slice_of_segment (packet : list byte) (curPos n : Z) :
  0 <= curPos -> 0 <= n -> curPos + n <= len packet ->
  slice_of packet curPos (curPos + n)
  = Some (firstn (Z.to_nat n) (skipn (Z.to_nat curPos) packet)).
Proof.
  intros Hc Hn Hl. unfold slice_of.
  destruct (Z.leb_spec 0 curPos); [|lia].
  destruct (Z.leb_spec curPos (curPos + n)); [|lia].
  destruct (Z.leb_spec (curPos + n) (len packet)); [|lia].
  cbn [andb]. do 3 f_equal. lia.
Qed.

Lemma table_total_nonneg tbl : 0 <= table_total tbl.
Proof.
  induction tbl as [|seg tbl IH]; cbn [table_total fold_right]; [lia|].
  pose proof (byte.unsigned_range seg). unfold table_total in IH. lia.
Qed.

(** The segment loop of [readStdout] is the guarded walk over the
    segments of the page that start at [curPos]. *)
Lemma read_segments_walk segs : forall packet curPos packetBuf e,
  0 <= curPos -> curPos + table_total segs <= len packet ->
  read_segments segs packet curPos packetBuf e =
  let '(flushed, open) :=
    walk_guarded (segments_of segs (skipn (Z.to_nat curPos) packet))
                 packetBuf in
  (open, send_all flushed e, Normal).
Proof.
  induction segs as [|seg segs IH]; intros packet curPos packetBuf e Hc Hl.
  - reflexivity.
  - pose proof (byte.unsigned_range seg) as Hs.
    pose proof (table_total_nonneg segs) as Ht.
    cbn [table_total fold_right] in Hl. fold (table_total segs) in Hl.
    cbn [read_segments segments_of walk_guarded].
    rewrite slice_of_segment by lia.
    set (part := firstn (Z.to_nat (byte.unsigned seg))
                        (skipn (Z.to_nat curPos) packet)).
    assert (Hlen : len part = byte.unsigned seg).
    { unfold part, len. rewrite length_firstn, length_skipn.
      unfold len in Hl. lia. }
    rewrite Hlen. unfold max_segment.
    rewrite skipn_skipn.
    replace (Z.to_nat (byte.unsigned seg) + Z.to_nat curPos)%nat
      with (Z.to_nat (curPos + byte.unsigned seg)) by lia.
    destruct ((byte.unsigned seg <? 255) && (0 <? len (packetBuf ++ part))).
    + cbn [writeOpusFrame].
      rewrite IH by lia.
      destruct (walk_guarded _ []) as [flushed open]. reflexivity.
    + apply IH; lia.
Qed.

Lemma read_pages_walk pages : forall packetBuf e,
  Forall page_ok pages ->
  read_pages pages packetBuf e =
  let '(flushed, open) := walk_guarded (page_segments pages) packetBuf in
  (open, send_all flushed e, Normal).
Proof.
  induction pages as [|p pages IH]; intros packetBuf e Hok.
  - reflexivity.
  - inversion Hok as [|p' ps' Hp Hps]; subst.
    cbn [read_pages]. unfold page_segments. cbn [map concat].
    fold (page_segments pages).
    rewrite read_segments_walk by (unfold page_ok in Hp; lia).
    change (Z.to_nat 0) with 0%nat. rewrite skipn_O.
    rewrite walk_guarded_app.
    destruct (walk_guarded (segments_of (SegTbl p) (Packet p)) packetBuf)
      as [f1 p1].
    rewrite IH by exact Hps.
    destruct (walk_guarded (page_segments pages) p1) as [f2 p2].
    rewrite send_all_app. reflexivity.
Qed.

End Producer.

Section TraceFacts.

Import Encode PacketSpec.

Lemma chanops_app (t1 t2 : list event) :
  Queue.chanops (t1 ++ t2) = Queue.chanops t1 ++ Queue.chanops t2.
Proof.
  induction t1 as [|ev t1 IH]; [reflexivity|].
  destruct ev; cbn [Queue.chanops app]; rewrite ?IH; reflexivity.
Qed.

Lemma chanops_sends (ps : list (list byte)) :
  Queue.chanops (map (fun p => EvSend (dcaBuf_of p)) ps)
  = map Queue.Send (map dcaBuf_of ps).
Proof.
  induction ps as [|p ps IH]; [reflexivity|].
  cbn [map Queue.chanops]. now rewrite IH.
Qed.

Lemma sent_frames_app (t1 t2 : list event) :
  sent_frames (t1 ++ t2) = sent_frames t1 ++ sent_frames t2.
Proof.
  induction t1 as [|ev t1 IH]; [reflexivity|].
  destruct ev; cbn [sent_frames app]; rewrite ?IH; reflexivity.
Qed.

End TraceFacts.

(** C3, as stated, fails: a zero-length segment met while the packet
    buffer is empty ends an empty packet, which the walk of the
    specification flushes as the frame 0x00 0x00 and [readStdout] does
    not emit. *)
Lemma readStdout_drops_empty_packet :
  ~ (forall (w : Encode.World) (e : Encode.encodeSession),
        Forall PacketSpec.page_ok (Encode.Pages w) ->
        Encode.sent_frames (Encode.trace (fst (Encode.readStdout w e)))
        = Encode.sent_frames (Encode.trace e)
          ++ map dcaBuf_of (PacketSpec.packets (Encode.Pages w))).
Proof.
  intros H.
  specialize (H (Samples.world_of_pages [Samples.empty_segment_page])
                (Samples.file_session Encode.StdEncodeOptions)).
  assert (Hok : Forall PacketSpec.page_ok [Samples.empty_segment_page]).
  { constructor; [|constructor]. vm_compute. discriminate. }
  specialize (H Hok). vm_compute in H. discriminate H.
Qed.

(** C3 (amended): for every sequence of well-formed pages, [readStdout]
    puts on the queue exactly the non-empty packets obtained by walking
    each page's segment table in order, concatenating consecutive segments
    and ending a packet at every segment shorter than 255, each as one
    wire frame, a non-empty partial packet left at the end being the last
    frame; then it closes the queue. *)
Theorem readStdout_emits_nonempty_packets
        (w : Encode.World) (e : Encode.encodeSession) :
  Forall PacketSpec.page_ok (Encode.Pages w) ->
  exists e',
    Encode.readStdout w e = (e', Encode.Normal) /\
    Queue.chanops (Encode.trace e')
    = Queue.chanops (Encode.trace e)
      ++ Queue.produces
           (map dcaBuf_of
                (filter PacketSpec.nonempty
                        (PacketSpec.packets (Encode.Pages w)))) /\
    Encode.sent_frames (Encode.trace e')
    = Encode.sent_frames (Encode.trace e)
      ++ map dcaBuf_of
           (filter PacketSpec.nonempty (PacketSpec.packets (Encode.Pages w))).
Proof.
  intros Hok. unfold Encode.readStdout.
  rewrite read_pages_walk by exact Hok.
  unfold PacketSpec.packets. rewrite filter_walk.
  destruct (PacketSpec.walk_guarded
              (PacketSpec.page_segments (Encode.Pages w)) [])
    as [flushed open].
  cbn [fst snd]. unfold PacketSpec.nonempty.
  set (e1 := match Encode.Decode_err w with
             | EOF => PacketSpec.send_all flushed e
             | _ => Encode.emit (Encode.EvLog "Error reading fmmpeg stdout:")
                      (PacketSpec.send_all flushed e)
             end).
  assert (H1 : Queue.chanops (Encode.trace e1)
               = Queue.chanops (Encode.trace e)
                 ++ map Queue.Send (map dcaBuf_of flushed)).
  { unfold e1. destruct (Encode.Decode_err w);
      rewrite ?trace_emit, ?chanops_app, send_all_trace, chanops_app,
        chanops_sends; cbn [Queue.chanops]; rewrite ?app_nil_r; reflexivity. }
  assert (H2 : Encode.sent_frames (Encode.trace e1)
               = Encode.sent_frames (Encode.trace e) ++ map dcaBuf_of flushed).
  { unfold e1. destruct (Encode.Decode_err w);
      rewrite ?trace_emit, ?sent_frames_app, send_all_trace, sent_frames_app;
      cbn [Encode.sent_frames]; rewrite ?app_nil_r; f_equal;
      clear; induction flushed as [|p ps IH]; cbn [map Encode.sent_frames];
      rewrite ?IH; reflexivity. }
  eexists. split; [reflexivity|].
  fold e1. unfold Queue.produces.
  destruct (0 <? len open).
  - cbn [Encode.writeOpusFrame]. fold (dcaBuf_of open).
    rewrite !trace_emit. cbn [Encode.incr_lastFrame Encode.trace].
    rewrite !trace_emit, !chanops_app, !sent_frames_app, H1, H2.
    cbn [Queue.chanops Encode.sent_frames].
    rewrite !map_app, <- !app_assoc, app_nil_r. cbn [map app].
    split; reflexivity.
  - rewrite !trace_emit, !chanops_app, !sent_frames_app, H1, H2.
    cbn [Queue.chanops Encode.sent_frames].
    rewrite !app_nil_r, <- !app_assoc. split; reflexivity.
Qed.

Lemma readStdout_emits_nonempty_packets_witness :
  Forall PacketSpec.page_ok [Samples.small_page; Samples.empty_segment_page] /\
  exists e',
    Encode.readStdout
      (Samples.world_of_pages [Samples.small_page; Samples.empty_segment_page])
      (Samples.file_session Encode.StdEncodeOptions) = (e', Encode.Normal) /\
    Encode.sent_frames (Encode.trace e')
    = [[Byte.x03; Byte.x00; Byte.x0a; Byte.x0b; Byte.x0c]].
Proof.
  assert (Hok : Forall PacketSpec.page_ok
                       [Samples.small_page; Samples.empty_segment_page]).
  { repeat constructor; vm_compute; discriminate. }
  split; [exact Hok|].
  destruct (readStdout_emits_nonempty_packets
              (Samples.world_of_pages
                 [Samples.small_page; Samples.empty_segment_page])
              (Samples.file_session Encode.StdEncodeOptions) Hok)
    as (e' & Hrun & _ & Hsent).
  exists e'. split; [exact Hrun|]. rewrite Hsent. reflexivity.
Defined.

(** ** The frame queue *)

Section QueueFacts.

Import Queue QueueSpec.

Lemma sends_produces fs : sends (produces fs) = fs.
Proof.
  unfold produces. induction fs as [|f fs IH]; [reflexivity|].
  cbn [map app sends]. now rewrite IH.
Qed.

Lemma wf_init fs capacity : wf (init (produces fs) capacity).
Proof. left. split; [reflexivity|]. now exists fs. Qed.

Lemma producer_step_wf s s' :
  wf s -> producer_step s = Some s' -> wf s' /\ future s' = future s.
Proof.
  unfold producer_step, future.
  intros [[Hc [fs Hp]]|[Hc Hp]] Hstep; rewrite Hp in Hstep.
  - destruct fs as [|f fs]; cbn [produces map app] in Hstep.
    + injection Hstep as <-. cbn [pending buf closed].
      split; [right; split; reflexivity|]. now rewrite Hp.
    + destruct (len (buf s) <? cap s); [|discriminate].
      injection Hstep as <-. cbn [pending buf closed].
      split; [left; split; [exact Hc|now exists fs]|].
      rewrite Hp. cbn [produces map app sends].
      now rewrite <- app_assoc.
  - discriminate.
Qed.

Lemma ReadFrame_wf s frame e s' :
  wf s -> ReadFrame s = Some (frame, e, s') ->
  wf s' /\
  ((exists f, (frame, e) = ok f /\ future s = f :: future s') \/
   ((frame, e) = eof /\ future s = [] /\ s' = s /\ closed s = true)).
Proof.
  unfold ReadFrame, recv, future. intros Hwf Hread.
  destruct (buf s) as [|f b] eqn:Hb.
  - destruct (closed s) eqn:Hc.
    + injection Hread as <- <- <-. split; [exact Hwf|]. right.
      destruct Hwf as [[Hc' _]|[_ Hp]]; [congruence|].
      rewrite Hp. repeat split; reflexivity.
    + destruct Hwf as [[_ [fs Hp]]|[Hc' _]]; [|congruence].
      rewrite Hp in Hread.
      destruct fs as [|f fs]; cbn [produces map app] in Hread;
        [discriminate|].
      injection Hread as <- <- <-. cbn [pending buf closed].
      split; [left; split; [reflexivity|now exists fs]|].
      left. exists f. rewrite Hp. split; reflexivity.
  - injection Hread as <- <- <-. cbn [pending buf closed].
    split.
    + destruct Hwf as [[Hc Hp]|[Hc Hp]]; [left|right]; split; assumption.
    + left. exists f. split; reflexivity.
Qed.

(** Whatever the schedule, the calls that return see the frames in
    order and then the end of stream. *)
Lemma exec_ideal sched : forall s,
  wf s ->
  wf (snd (exec sched s)) /\
  fst (exec sched s) = ideal (future s) (length (fst (exec sched s))).
Proof.
  induction sched as [|t sched IH]; intros s Hwf.
  - split; [exact Hwf|reflexivity].
  - destruct t; cbn [exec].
    + destruct (producer_step s) as [s'|] eqn:Hstep.
      * destruct (producer_step_wf _ _ Hwf Hstep) as [Hwf' Hfut].
        rewrite <- Hfut. apply IH, Hwf'.
      * apply IH, Hwf.
    + destruct (ReadFrame s) as [[[frame e] s']|] eqn:Hread.
      * destruct (ReadFrame_wf _ _ _ _ Hwf Hread) as [Hwf' Hcase].
        destruct (IH s' Hwf') as [IHwf IHrs].
        destruct (exec sched s') as [rs s''].
        cbn [fst snd length] in *. split; [exact IHwf|].
        destruct Hcase as [[f [Hok Hfut]]|[Heof [Hfut [Hs _]]]].
        -- rewrite Hok, Hfut. cbn [ideal]. now rewrite <- IHrs.
        -- rewrite Heof, Hfut. cbn [ideal]. rewrite Hs, Hfut in IHrs.
           now rewrite <- IHrs.
      * apply IH, Hwf.
Qed.

Lemma ideal_nth frames : forall n i r,
  nth_error (ideal frames n) i = Some r ->
  r = match nth_error frames i with
      | Some f => ok f
      | None => eof
      end.
Proof.
  induction frames as [|f fs IH]; intros n.
  - induction n as [|n IHn]; intros i r H.
    + destruct i; discriminate.
    + destruct i as [|i]; cbn [ideal nth_error] in *.
      * now injection H as <-.
      * rewrite (IHn i r H). now destruct i.
  - intros i r H. destruct n as [|n]; [destruct i; discriminate|].
    destruct i as [|i]; cbn [ideal nth_error] in *.
    + now injection H as <-.
    + apply (IH n i r H).
Qed.

(** A blocked reader is one step of the producer away from an answer. *)
Lemma blocked_reader_progress s :
  wf s -> ReadFrame s = None ->
  exists s', producer_step s = Some s' /\ ReadFrame s' = Some (None, Some EOF, s').
Proof.
  unfold ReadFrame, recv, producer_step. intros Hwf Hread.
  destruct (buf s) as [|f b] eqn:Hb; [|discriminate].
  destruct (closed s) eqn:Hc; [discriminate|].
  destruct Hwf as [[_ [fs Hp]]|[Hc' _]]; [|congruence].
  rewrite Hp in *.
  destruct fs as [|f fs]; cbn [produces map app] in *; [|discriminate].
  eexists. split; reflexivity.
Qed.

Lemma exec_future sched : forall s,
  wf s ->
  future s = delivered (fst (exec sched s)) ++ future (snd (exec sched s)).
Proof.
  induction sched as [|t sched IH]; intros s Hwf.
  - reflexivity.
  - destruct t; cbn [exec].
    + destruct (producer_step s) as [s'|] eqn:Hstep.
      * destruct (producer_step_wf _ _ Hwf Hstep) as [Hwf' Hfut].
        rewrite <- Hfut. apply IH, Hwf'.
      * apply IH, Hwf.
    + destruct (ReadFrame s) as [[[frame e] s']|] eqn:Hread.
      * destruct (ReadFrame_wf _ _ _ _ Hwf Hread) as [Hwf' Hcase].
        specialize (IH s' Hwf').
        destruct (exec sched s') as [rs s''].
        cbn [fst snd] in *.
        destruct Hcase as [[f [Hok Hfut]]|[Heof [Hfut [Hs _]]]].
        -- injection Hok as -> ->. cbn [delivered app].
           rewrite Hfut. now f_equal.
        -- injection Heof as -> ->. cbn [delivered].
           now rewrite <- Hs.
      * apply IH, Hwf.
Qed.

Lemma length_delivered rs : (length (delivered rs) <= length rs)%nat.
Proof.
  induction rs as [|[[f|] e] rs IH]; cbn [delivered length]; lia.
Qed.

End QueueFacts.

(** C2: a producer emits [frames] and closes the queue.  Under every
    schedule, the [i]-th call of [ReadFrame] that returns gives the
    [i]-th frame with a nil error while there is one, and [io.EOF] from
    then on; a call returns [io.EOF] only when the queue is closed and
    drained, and then leaves it as it is; a call that blocks is answered
    once the producer has taken its next step. *)
Theorem ReadFrame_exhaustion
        (frames : list (list byte)) (capacity : Z) (sched : list Queue.turn) :
  let '(results, s) :=
    Queue.exec sched (Queue.init (Queue.produces frames) capacity) in
  (forall i r,
      nth_error results i = Some r ->
      r = match nth_error frames i with
          | Some frame => (Some frame, None)
          | None => (None, Some EOF)
          end) /\
  (forall frame e s',
      Queue.ReadFrame s = Some (frame, Some e, s') ->
      frame = None /\ e = EOF /\ s' = s /\
      Queue.closed s = true /\ Queue.buf s = [] /\
      (length frames <= length results)%nat) /\
  (Queue.ReadFrame s = None ->
   exists s', Queue.producer_step s = Some s' /\
              Queue.ReadFrame s' = Some (None, Some EOF, s')).
Proof.
  pose proof (exec_ideal sched _ (wf_init frames capacity)) as [Hwf Hrs].
  pose proof (exec_future sched _ (wf_init frames capacity)) as Hfr.
  destruct (Queue.exec sched (Queue.init (Queue.produces frames) capacity))
    as [results s].
  cbn [fst snd] in *.
  unfold QueueSpec.future in Hrs, Hfr at 1.
  cbn [Queue.init Queue.buf Queue.pending app] in Hrs, Hfr.
  rewrite sends_produces in Hrs, Hfr.
  split; [|split].
  - intros i r Hi. rewrite Hrs in Hi. apply (ideal_nth _ _ _ _ Hi).
  - intros frame e s' Hread.
    destruct (ReadFrame_wf _ _ _ _ Hwf Hread)
      as [_ [[f [Hok _]]|[Heof [Hfut [Hs Hc]]]]].
    + discriminate Hok.
    + injection Heof as -> ->.
      rewrite Hfut, app_nil_r in Hfr.
      unfold QueueSpec.future in Hfut.
      apply app_eq_nil in Hfut. destruct Hfut as [Hb _].
      repeat split; try assumption; try reflexivity.
      rewrite Hfr. apply length_delivered.
  - intros Hread. apply blocked_reader_progress; assumption.
Qed.

(** ** The streaming session *)

Section StreamFacts.

Import Stream.

Variable env : Env.

Lemma int64_small (z : Z) : - 2 ^ 63 <= z < 2 ^ 63 -> int64 z = z.
Proof. intros H. unfold int64. rewrite Z.mod_small; lia. Qed.

Lemma session_goto i p y : session (goto i p y) = session y.
Proof. reflexivity. Qed.

Lemma task_step_framesSent i y :
  framesSent (session (task_step env i y)) = framesSent (session y) \/
  framesSent (session (task_step env i y))
  = int64 (framesSent (session y) + 1).
Proof.
  unfold task_step.
  destruct (nth_error (tasks y) i) as [[| | | | | | |]|];
    try (left; reflexivity).
  - destruct (running (session y)); left; reflexivity.
  - destruct (paused (session y)); left; reflexivity.
  - destruct (OpusFrame env (pulls y)) as [opus [e|]]; left; reflexivity.
  - destruct (select_send (OpusSend env (handoffs y))) as [[|] t];
      left; reflexivity.
  - right; reflexivity.
Qed.

(** [SetPaused] never touches the counter. *)
Lemma SetPaused_framesSent p y :
  framesSent (session (SetPaused p y)) = framesSent (session y).
Proof.
  unfold SetPaused.
  destruct (finished (session y)); [reflexivity|].
  destruct (negb p && running (session y)).
  { destruct (paused (session y)); reflexivity. }
  destruct (p && negb (running (session y))).
  { destruct (negb (paused (session y))); reflexivity. }
  reflexivity.
Qed.

Lemma step_framesSent a y :
  framesSent (session (step env a y)) = framesSent (session y) \/
  framesSent (session (step env a y)) = int64 (framesSent (session y) + 1).
Proof.
  unfold step. destruct (panicked y); [left; reflexivity|].
  destruct a as [p|i].
  - left. apply SetPaused_framesSent.
  - apply task_step_framesSent.
Qed.

Lemma exec_app acts1 acts2 y :
  exec env (acts1 ++ acts2) y = exec env acts2 (exec env acts1 y).
Proof. unfold exec. apply fold_left_app. Qed.

(** The counter grows by at most one per step, and never shrinks before
    it has reached the end of the [int] range. *)
Lemma exec_framesSent acts : forall y n,
  0 <= framesSent (session y) <= n ->
  n + Z.of_nat (length acts) < 2 ^ 63 ->
  framesSent (session y) <= framesSent (session (exec env acts y))
  <= n + Z.of_nat (length acts).
Proof.
  induction acts as [|a acts IH]; intros y n Hy Hn.
  - cbn [exec fold_left length] in *. lia.
  - cbn [length] in Hn. rewrite Nat2Z.inj_succ in Hn.
    change (exec env (a :: acts) y) with (exec env acts (step env a y)).
    assert (Hs : framesSent (session y)
                 <= framesSent (session (step env a y)) <= n + 1).
    { destruct (step_framesSent a y) as [E|E]; rewrite E.
      - lia.
      - rewrite int64_small by lia. lia. }
    specialize (IH (step env a y) (n + 1)).
    cbn [length]. rewrite Nat2Z.inj_succ. lia.
Qed.

End StreamFacts.

(** C8, as stated, fails: the position is an [int64] product.  A source
    whose frames last 2^62 ns puts the position at 2^62 ns after one
    frame and at -2^63 ns after two. *)
Lemma PlaybackPosition_can_decrease :
  ~ (forall (env : Stream.Env) (acts1 acts2 : list Stream.action),
        Stream.PlaybackPosition env (Stream.exec env acts1 Stream.NewStream)
        <= Stream.PlaybackPosition env
             (Stream.exec env acts2 (Stream.exec env acts1 Stream.NewStream))).
Proof.
  intros H.
  specialize (H {| Stream.OpusFrame := fun _ => (Some [Byte.x01], None);
                   Stream.FrameDuration := 2 ^ 62;
                   Stream.OpusSend := fun _ => Some 0;
                   Stream.has_done := false |}
                (repeat (Stream.Task 0) 5) (repeat (Stream.Task 0) 4)).
  vm_compute in H. apply H. reflexivity.
Qed.

(** A source that reports a negative frame duration makes the position
    fall with every frame forwarded. *)
Lemma PlaybackPosition_negative_duration :
  let env := {| Stream.OpusFrame := fun _ => (Some [Byte.x01], None);
                Stream.FrameDuration := - 20000000;
                Stream.OpusSend := fun _ => Some 0;
                Stream.has_done := false |} in
  Stream.PlaybackPosition env Stream.NewStream = 0 /\
  Stream.PlaybackPosition env
    (Stream.exec env (repeat (Stream.Task 0) 5) Stream.NewStream)
  = - 20000000.
Proof. split; reflexivity. Qed.

(** C8 (amended): along every run of a streaming session, of fewer than
    2^63 steps, [PlaybackPosition] is the [int64] product of the
    frames-forwarded counter and the source's frame duration; the counter
    never decreases and no call of [SetPaused] changes it, so playback
    resumes from the same counter value; and [PlaybackPosition] does not
    decrease as long as that product lies in the range 0 .. 2^63 - 1. *)
Theorem PlaybackPosition_monotone
        (env : Stream.Env) (acts1 acts2 : list Stream.action) :
  let y1 := Stream.exec env acts1 Stream.NewStream in
  let y2 := Stream.exec env acts2 y1 in
  let sent y := Stream.framesSent (Stream.session y) in
  Z.of_nat (length (acts1 ++ acts2)) < 2 ^ 63 ->
  Stream.PlaybackPosition env y2
  = int64 (sent y2 * Stream.FrameDuration env) /\
  0 <= sent y1 <= sent y2 /\
  (forall p, sent (Stream.step env (Stream.CallSetPaused p) y2) = sent y2) /\
  (0 <= sent y2 * Stream.FrameDuration env < 2 ^ 63 ->
   Stream.PlaybackPosition env y1 <= Stream.PlaybackPosition env y2).
Proof.
  intros y1 y2 sent Hlen.
  rewrite length_app, Nat2Z.inj_add in Hlen.
  assert (H1 : 0 <= sent y1 <= 0 + Z.of_nat (length acts1)).
  { pose proof (exec_framesSent env acts1 Stream.NewStream 0) as H.
    cbn [Stream.NewStream Stream.session Stream.framesSent] in H.
    unfold sent, y1. lia. }
  assert (H2 : sent y1 <= sent y2
               <= Z.of_nat (length acts1) + Z.of_nat (length acts2)).
  { apply (exec_framesSent env acts2 y1); unfold sent in H1; lia. }
  split; [reflexivity|]. split; [lia|]. split.
  - intros p. unfold sent, Stream.step.
    destruct (Stream.panicked y2); [reflexivity|].
    apply SetPaused_framesSent.
  - intros Hrange. unfold Stream.PlaybackPosition. fold (sent y1) (sent y2).
    destruct (Z.le_gt_cases 0 (Stream.FrameDuration env)) as [Hd|Hd].
    + rewrite !int64_small by nia. nia.
    + assert (sent y2 = 0) by nia. assert (sent y1 = 0) by lia.
      replace (sent y2) with 0. replace (sent y1) with 0. lia.
Qed.

Lemma PlaybackPosition_monotone_witness :
  let env := {| Stream.OpusFrame := fun _ => (Some [Byte.x01], None);
                Stream.FrameDuration := 20000000;
                Stream.OpusSend := fun _ => Some 0;
                Stream.has_done := false |} in
  let acts1 := repeat (Stream.Task 0) 5 ++ [Stream.CallSetPaused true] in
  let acts2 := Stream.Task 0 :: Stream.Task 0 :: Stream.CallSetPaused false
               :: repeat (Stream.Task 1) 5 in
  Z.of_nat (length (acts1 ++ acts2)) < 2 ^ 63 /\
  Stream.PlaybackPosition env (Stream.exec env acts1 Stream.NewStream)
  <= Stream.PlaybackPosition env
       (Stream.exec env acts2 (Stream.exec env acts1 Stream.NewStream)).
Proof.
  intros env acts1 acts2.
  assert (Hlen : Z.of_nat (length (acts1 ++ acts2)) < 2 ^ 63)
    by (vm_compute; reflexivity).
  split; [exact Hlen|].
  apply (PlaybackPosition_monotone env acts1 acts2 Hlen).
  vm_compute. split; [discriminate|reflexivity].
Defined.

(** ** [run]: the prologue and the launch of the transcoder *)

Section RunFacts.

Import Encode.

Lemma launches_app (t1 t2 : list event) :
  launches (t1 ++ t2) = launches t1 ++ launches t2.
Proof.
  induction t1 as [|ev t1 IH]; [reflexivity|].
  destruct ev; cbn [launches app]; rewrite ?IH; reflexivity.
Qed.

Lemma launches_plain (more : list event) :
  forallb plain more = true -> launches more = [].
Proof.
  induction more as [|ev more IH]; [reflexivity|].
  cbn [forallb]. intros H. apply andb_prop in H. destruct H as [Hev Hm].
  destruct ev; try discriminate Hev; cbn [launches]; auto.
Qed.

Lemma chanops_plain (more : list event) :
  forallb plain more = true ->
  Queue.chanops more = map Queue.Send (sent_frames more).
Proof.
  induction more as [|ev more IH]; [reflexivity|].
  cbn [forallb]. intros H. apply andb_prop in H. destruct H as [Hev Hm].
  destruct ev; try discriminate Hev;
    cbn [Queue.chanops sent_frames map]; rewrite ?IH; auto.
Qed.

Lemma steady_refl e : steady e e.
Proof. exists []. split; [now rewrite app_nil_r|reflexivity]. Qed.

Lemma steady_trans e1 e2 e3 : steady e1 e2 -> steady e2 e3 -> steady e1 e3.
Proof.
  intros (m1 & H1 & P1) (m2 & H2 & P2). exists (m1 ++ m2). split.
  - now rewrite H2, H1, app_assoc.
  - rewrite forallb_app, P1, P2. reflexivity.
Qed.

Lemma steady_emit ev e x :
  plain ev = true -> steady e x -> steady e (emit ev x).
Proof.
  intros Hev H. eapply steady_trans; [exact H|].
  exists [ev]. split; [reflexivity|]. cbn [forallb]. now rewrite Hev.
Qed.

Lemma steady_writeOpusFrame p e x :
  steady e x -> steady e (fst (writeOpusFrame p x)).
Proof.
  intros H. eapply steady_trans; [exact H|].
  exists [EvSend (dcaBuf_of p)]. split; [reflexivity|reflexivity].
Qed.

Lemma steady_read_segments segs : forall packet curPos packetBuf e,
  steady e (snd (fst (read_segments segs packet curPos packetBuf e))).
Proof.
  induction segs as [|seg segs IH]; intros packet curPos packetBuf e;
    cbn [read_segments].
  - apply steady_refl.
  - destruct (slice_of packet curPos (curPos + byte.unsigned seg))
      as [part|]; [|apply steady_refl].
    destruct ((byte.unsigned seg <? 255) && (0 <? len (packetBuf ++ part))).
    + cbn [writeOpusFrame].
      eapply steady_trans; [|apply IH].
      apply (steady_writeOpusFrame (packetBuf ++ part) e e), steady_refl.
    + apply IH.
Qed.

Lemma steady_read_pages pages : forall packetBuf e,
  steady e (snd (fst (read_pages pages packetBuf e))).
Proof.
  induction pages as [|p pages IH]; intros packetBuf e; cbn [read_pages].
  - apply steady_refl.
  - pose proof (steady_read_segments (SegTbl p) (Packet p) 0 packetBuf e)
      as Hq.
    destruct (read_segments (SegTbl p) (Packet p) 0 packetBuf e)
      as [[pb e1] [|msg]]; cbn [fst snd] in *.
    + eapply steady_trans; [exact Hq|apply IH].
    + exact Hq.
Qed.

(** Whatever [readStdout] meets, it adds sends and log lines and then,
    last, the one [close]. *)
Lemma readStdout_trace w e :
  exists during,
    trace (fst (readStdout w e)) = trace e ++ during ++ [EvClose] /\
    forallb plain during = true.
Proof.
  unfold readStdout.
  pose proof (steady_read_pages (Pages w) [] e) as Hq.
  destruct (read_pages (Pages w) [] e) as [[pb e1] [|msg]];
    cbn [fst snd] in *.
  - assert (H1 : steady e match Decode_err w with
                          | EOF => e1
                          | _ => emit (EvLog "Error reading fmmpeg stdout:")
                                   e1
                          end).
    { destruct (Decode_err w); try exact Hq;
        (apply steady_emit; [reflexivity|exact Hq]). }
    assert (H2 : steady e
                   (if 0 <? len pb
                    then
                      let '(e2, err) :=
                        writeOpusFrame pb
                          match Decode_err w with
                          | EOF => e1
                          | _ => emit (EvLog "Error reading fmmpeg stdout:")
                                   e1
                          end in
                      match err with
                      | Some _ => emit (EvLog "Error writing opus frame:") e2
                      | None => e2
                      end
                    else
                      match Decode_err w with
                      | EOF => e1
                      | _ => emit (EvLog "Error reading fmmpeg stdout:") e1
                      end)).
    { destruct (0 <? len pb); [|exact H1].
      cbn [writeOpusFrame]. apply (steady_writeOpusFrame pb), H1. }
    destruct H2 as (during & Hd & Pd). exists during.
    rewrite trace_emit, Hd, app_assoc. split; [reflexivity|exact Pd].
  - destruct Hq as (during & Hd & Pd). exists during.
    rewrite trace_emit, Hd, app_assoc. split; [reflexivity|exact Pd].
Qed.

Lemma steady_write_prologue w m e x :
  steady e x -> steady e (write_prologue w m x).
Proof.
  intros H. unfold write_prologue.
  destruct (json_Marshal w m) as [jsonData [err|]];
    apply steady_emit; auto.
Qed.

Ltac steady_steps :=
  repeat first
    [ apply steady_refl
    | apply steady_write_prologue
    | apply steady_emit; [reflexivity|] ].

Lemma steady_writeMetadataFrame w o e :
  steady e (fst (writeMetadataFrame w o e)).
Proof.
  unfold writeMetadataFrame.
  destruct (pipeReader e); cbn [fst]; [steady_steps|].
  destruct (ffprobe_Start_err w); cbn [fst]; [steady_steps|].
  destruct (ffprobe_Wait_err w); cbn [fst]; [steady_steps|].
  destruct (ffprobe_Unmarshal w) as [err| |format]; cbn [fst];
    [steady_steps|steady_steps|].
  destruct (Atoi _) as [bitrateInt [err|]]; cbn [fst]; [steady_steps|].
  destruct (cover_Start_err w); cbn [fst]; steady_steps.
Qed.

(** [writeMetadataFrame] panics only on a null prober document. *)
Lemma writeMetadataFrame_exit w o e :
  ffprobe_Unmarshal w <> ProbeNil ->
  snd (writeMetadataFrame w o e) = Normal.
Proof.
  intros Hnil. unfold writeMetadataFrame.
  destruct (pipeReader e); [reflexivity|].
  destruct (ffprobe_Start_err w); [reflexivity|].
  destruct (ffprobe_Wait_err w); [reflexivity|].
  destruct (ffprobe_Unmarshal w) as [err| |format];
    [reflexivity|congruence|].
  destruct (Atoi _) as [bitrateInt [err|]]; [reflexivity|].
  destruct (cover_Start_err w); reflexivity.
Qed.

(** The step of [run] between the pipes and the start of the process. *)
Lemma steady_prologue_step w o e :
  steady e (fst (if RawOutput o then (e, Normal)
                 else writeMetadataFrame w o e)).
Proof.
  destruct (RawOutput o); [apply steady_refl|apply steady_writeMetadataFrame].
Qed.

(** The trace of the tail of [run], from the start of the process on. *)
Lemma run_tail_trace w e2 :
  exists during after,
    trace (fst (let '(e, ex) := readStdout w e2 in
                match ex with
                | Panicked msg => (e, Panicked msg)
                | Normal =>
                    match Wait_err w with
                    | None => (e, Normal)
                    | Some msg =>
                        if negb (String.eqb msg "signal: killed")
                        then (emit (EvLog "Error waiting for ffmpeg:") e,
                              Normal)
                        else (e, Normal)
                    end
                end))
    = trace e2 ++ during ++ [EvClose] ++ after /\
    forallb plain during = true /\ forallb plain after = true /\
    sent_frames after = [].
Proof.
  destruct (readStdout_trace w e2) as (during & Hd & Pd).
  destruct (readStdout w e2) as [e3 [|msg]]; cbn [fst] in Hd.
  - destruct (Wait_err w) as [msg|];
      [destruct (negb (String.eqb msg "signal: killed"))|]; cbn [fst].
    + exists during, [EvLog "Error waiting for ffmpeg:"].
      rewrite trace_emit, Hd, <- !app_assoc. repeat split; auto.
    + exists during, []. rewrite Hd, app_nil_r. repeat split; auto.
    + exists during, []. rewrite Hd, app_nil_r. repeat split; auto.
  - cbn [fst]. exists during, []. rewrite Hd, app_nil_r. repeat split; auto.
Qed.

End RunFacts.

(** C6, as stated, fails: neither [EncodeFile] nor [run] consults
    [Validate].  Options with a volume of 1000 are rejected by [Validate]
    and still reach the transcoder as "-vol 1000". *)
Lemma invalid_options_reach_the_transcoder :
  ~ (forall (w : Encode.World) (path : string) (o : Encode.EncodeOptions)
            (e : Encode.encodeSession),
        Encode.EncodeFile path (Some o) = Returns e ->
        Encode.Validate o <> None ->
        Encode.launches (Encode.trace (fst (Encode.run w e))) = []).
Proof.
  intros H.
  specialize (H (Samples.world_of_pages []) "song.ogg"%string
                Samples.loud_options
                (Samples.file_session Samples.loud_options)
                eq_refl).
  assert (Hv : Encode.Validate Samples.loud_options <> None)
    by (vm_compute; discriminate).
  specialize (H Hv). vm_compute in H. discriminate H.
Qed.

(** The trace of a session whose process could be started: what came
    before, the launch, the frames and log lines of [readStdout], the
    [close], and at most a log line after it. *)
Lemma run_trace_started
      (w : Encode.World) (r : option Reader) (path : string)
      (o : Encode.EncodeOptions) (e : Encode.encodeSession) :
  Encode.new_session r path (Some o) = Returns e ->
  Encode.StdoutPipe_err w = None ->
  Encode.StderrPipe_err w = None ->
  Encode.Start_err w = None ->
  Encode.ffprobe_Unmarshal w <> Encode.ProbeNil ->
  exists before during after,
    Encode.trace (fst (Encode.run w e))
    = before
      ++ [Encode.EvStart
            (Encode.ffmpeg_args
               (if String.eqb path "" then "pipe:0"%string else path) o)]
      ++ during ++ [Encode.EvClose] ++ after /\
    forallb Encode.plain before = true /\
    forallb Encode.plain during = true /\
    forallb Encode.plain after = true.
Proof.
  intros Hnew Hout Herr Hstart Hprobe.
  unfold Encode.new_session in Hnew.
  destruct (Encode.BufferedFrames o <? 0); [discriminate|].
  injection Hnew as <-.
  unfold Encode.run, Encode.run_body.
  cbn [Encode.set_running Encode.options Encode.filePath].
  rewrite Hout, Herr, Hstart.
  set (e0 := Encode.set_running true _).
  set (args := Encode.ffmpeg_args _ o).
  pose proof (steady_prologue_step w o e0) as Hq.
  assert (Hx : snd (if Encode.RawOutput o then (e0, Encode.Normal)
                    else Encode.writeMetadataFrame w o e0) = Encode.Normal).
  { destruct (Encode.RawOutput o);
      [reflexivity|apply writeMetadataFrame_exit, Hprobe]. }
  destruct (if Encode.RawOutput o then (e0, Encode.Normal)
            else Encode.writeMetadataFrame w o e0) as [e1 ex].
  cbn [fst snd] in Hq, Hx. subst ex.
  destruct Hq as (before & Hb & Pb). cbn [app] in Hb.
  set (e2 := Encode.set_process (Encode.emit (Encode.EvStart args) e1)).
  destruct (run_tail_trace w e2) as (during & after & Ht & Pd & Pa & _).
  exists before, during, after.
  match goal with
  | |- context [fst (let '(e, ex) := ?t in _)] =>
      destruct t as [e4 ex4] eqn:Et
  end.
  cbn [fst Encode.set_running Encode.trace].
  unfold e0 in Hb. cbn [Encode.set_running Encode.trace app] in Hb.
  cbn [fst] in Ht. rewrite Ht. unfold e2.
  cbn [Encode.set_process Encode.trace]. rewrite trace_emit, Hb.
  rewrite <- !app_assoc. repeat split; auto.
Qed.

(** C6 (amended): a session built by [EncodeFile] or [EncodeMem] never
    has its options validated: whenever the pipes can be set up and the
    process can be started, [run] launches the transcoder exactly once,
    with the arguments derived from the options it was given, whether
    [Validate] accepts them or not. *)
Theorem run_launches_with_unvalidated_options
        (w : Encode.World) (r : option Reader) (path : string)
        (o : Encode.EncodeOptions) (e : Encode.encodeSession) :
  Encode.new_session r path (Some o) = Returns e ->
  Encode.StdoutPipe_err w = None ->
  Encode.StderrPipe_err w = None ->
  Encode.Start_err w = None ->
  Encode.ffprobe_Unmarshal w <> Encode.ProbeNil ->
  Encode.launches (Encode.trace (fst (Encode.run w e)))
  = [Encode.ffmpeg_args
       (if String.eqb path "" then "pipe:0"%string else path) o].
Proof.
  intros Hnew Hout Herr Hstart Hprobe.
  destruct (run_trace_started w r path o e Hnew Hout Herr Hstart Hprobe)
    as (before & during & after & -> & Pb & Pd & Pa).
  rewrite !launches_app, (launches_plain _ Pb), (launches_plain _ Pd),
    (launches_plain _ Pa).
  reflexivity.
Qed.

Lemma run_launches_with_unvalidated_options_witness :
  Encode.Validate Samples.loud_options <> None /\
  Encode.launches
    (Encode.trace
       (fst (Encode.run (Samples.world_of_pages [Samples.small_page])
                        (Samples.file_session Samples.loud_options))))
  = [Encode.ffmpeg_args "song.ogg" Samples.loud_options].
Proof.
  split; [vm_compute; discriminate|].
  apply (run_launches_with_unvalidated_options
           (Samples.world_of_pages [Samples.small_page]) None
           "song.ogg" Samples.loud_options
           (Samples.file_session Samples.loud_options));
    try reflexivity.
  vm_compute. discriminate.
Defined.

(** When the prologue is written, it is on the queue before the
    transcoder is started: so it is for every pipe source whose metadata
    can be marshalled. *)
Lemma prologue_precedes_launch_for_pipe_sources
      (w : Encode.World) (r : Reader) (o : Encode.EncodeOptions)
      (e : Encode.encodeSession) (jsonData : list byte) :
  Encode.EncodeMem r (Some o) = Returns e ->
  Encode.RawOutput o = false ->
  Encode.StdoutPipe_err w = None ->
  Encode.StderrPipe_err w = None ->
  Encode.Start_err w = None ->
  (forall m, Encode.json_Marshal w m = (jsonData, None)) ->
  exists rest,
    Encode.trace (fst (Encode.run w e))
    = Encode.EvSend (list_byte_of_string "DCA1"
                       ++ binary_Write_int32 (int32 (len jsonData))
                       ++ jsonData)
      :: Encode.EvStart (Encode.ffmpeg_args "pipe:0" o) :: rest.
Proof.
  intros Hnew Hraw Hout Herr Hstart Hjson.
  unfold Encode.EncodeMem, Encode.new_session in Hnew.
  destruct (Encode.BufferedFrames o <? 0); [discriminate|].
  injection Hnew as <-.
  unfold Encode.run, Encode.run_body.
  cbn [Encode.set_running Encode.options Encode.filePath String.eqb].
  rewrite Hout, Herr, Hstart, Hraw.
  unfold Encode.writeMetadataFrame.
  cbn [Encode.pipeReader Encode.set_running].
  unfold Encode.write_prologue. rewrite Hjson.
  set (e2 := Encode.set_process _).
  destruct (run_tail_trace w e2) as (during & after & Ht & _ & _).
  match goal with
  | |- context [fst (let '(e, ex) := ?t in _)] =>
      destruct t as [e4 ex4] eqn:Et
  end.
  cbn [fst Encode.set_running Encode.trace].
  cbn [fst] in Ht. rewrite Ht. unfold e2.
  cbn [Encode.set_process Encode.emit Encode.trace app].
  rewrite <- app_assoc. cbn [app]. eexists. reflexivity.
Qed.

(** A session that does not panic sends its frames and then closes the
    queue, once: it is a producer in the sense of the queue. *)
Lemma run_produces
      (w : Encode.World) (r : option Reader) (path : string)
      (o : Encode.EncodeOptions) (e : Encode.encodeSession) :
  Encode.new_session r path (Some o) = Returns e ->
  snd (Encode.run w e) = Encode.Normal ->
  Queue.chanops (Encode.trace (fst (Encode.run w e)))
  = Queue.produces (Encode.sent_frames (Encode.trace (fst (Encode.run w e)))).
Proof.
  intros Hnew.
  unfold Encode.new_session in Hnew.
  destruct (Encode.BufferedFrames o <? 0); [discriminate|].
  injection Hnew as <-.
  unfold Encode.run, Encode.run_body, Queue.produces.
  cbn [Encode.set_running Encode.options Encode.filePath].
  destruct (Encode.StdoutPipe_err w); [reflexivity|].
  destruct (Encode.StderrPipe_err w); [reflexivity|].
  set (e0 := Encode.set_running true _).
  set (args := Encode.ffmpeg_args _ o).
  pose proof (steady_prologue_step w o e0) as Hq.
  destruct (if Encode.RawOutput o then (e0, Encode.Normal)
            else Encode.writeMetadataFrame w o e0) as [e1 [|msg]];
    [|discriminate].
  cbn [fst] in Hq. destruct Hq as (before & Hb & Pb).
  unfold e0 in Hb. cbn [Encode.set_running Encode.trace app] in Hb.
  destruct (Encode.Start_err w).
  { intros _. cbn [fst Encode.set_running Encode.trace].
    rewrite !trace_emit, Hb, <- !app_assoc. cbn [app].
    rewrite chanops_app, sent_frames_app, (chanops_plain _ Pb).
    cbn [Queue.chanops Encode.sent_frames]. now rewrite app_nil_r. }
  set (e2 := Encode.set_process (Encode.emit (Encode.EvStart args) e1)).
  destruct (run_tail_trace w e2) as (during & after & Ht & Pd & Pa & Ha).
  match goal with
  | |- context [snd (let '(e, ex) := ?t in _)] =>
      destruct t as [e4 ex4] eqn:Et
  end.
  cbn [fst snd Encode.set_running Encode.trace]. intros _.
  cbn [fst] in Ht. rewrite Ht. unfold e2.
  cbn [Encode.set_process Encode.trace]. rewrite trace_emit, Hb.
  rewrite !chanops_app, !sent_frames_app.
  rewrite (chanops_plain _ Pb), (chanops_plain _ Pd), (chanops_plain _ Pa).
  cbn [Queue.chanops Encode.sent_frames app].
  rewrite Ha. cbn [map]. rewrite !app_nil_r, !map_app, <- !app_assoc.
  reflexivity.
Qed.

(** C4: the prober cannot be started ([ffprobe] is not installed);
    [writeMetadataFrame] logs that and returns, [run] starts the
    transcoder all the same, and the first frame on the queue, the one the
    first [ReadFrame] returns, is an audio frame. *)
Theorem run_skips_prologue_when_probe_fails :
  let w := Samples.world_without_prober [Samples.small_page] in
  let e := Samples.file_session Encode.StdEncodeOptions in
  let tr := Encode.trace (fst (Encode.run w e)) in
  let audio := dcaBuf_of [Byte.x0a; Byte.x0b; Byte.x0c] in
  Encode.EncodeFile "song.ogg" (Some Encode.StdEncodeOptions) = Returns e /\
  Encode.RawOutput Encode.StdEncodeOptions = false /\
  tr = [ Encode.EvLog "RunStart Error:";
         Encode.EvStart (Encode.ffmpeg_args "song.ogg" Encode.StdEncodeOptions);
         Encode.EvSend audio;
         Encode.EvClose ] /\
  fst (Queue.exec [Queue.Producer; Queue.Consumer]
                  (Queue.init (Queue.chanops tr) 100))
  = [(Some audio, None)].
Proof. repeat split. Qed.

(** ** The sink timeout *)

Section SinkTimeout.

Import Stream StreamSpec.

Variable env : Env.

Lemma nth_error_set_nth_same {A} (l : list A) : forall i x y,
  nth_error l i = Some y -> nth_error (set_nth i x l) i = Some x.
Proof.
  induction l as [|a l IH]; intros [|i] x y H; cbn in *;
    try discriminate; [reflexivity|eauto].
Qed.

Lemma nth_error_set_nth_other {A} (l : list A) : forall i j x,
  j <> i -> nth_error (set_nth i x l) j = nth_error l j.
Proof.
  induction l as [|a l IH]; intros [|i] [|j] x H; cbn; try reflexivity;
    try congruence.
  apply IH. congruence.
Qed.



Variables (i : nat) (opus : slice) (y0 : System).

Hypothesis stalled : OpusSend env (handoffs y0) = None.






Lemma aborting_done n y :
  (3 <= n)%nat -> aborting i opus y0 n y -> aborting i opus y0 (S n) y.
Proof.
  intros Hn (Hp & Hf & Ht & Ha & Hr & H0 & H1 & H2).
  destruct n as [|[|[|n]]]; try lia.
  unfold aborting.
  repeat split; auto; intros; try lia; try apply H1; try apply H2; lia.
Qed.


End SinkTimeout.


(** The run of that session, step by step: the panic comes before any
    timeout has run out, and nothing is sent on [done]. *)
Lemma sink_stall_behind_second_goroutine :
  let env := {| Stream.OpusFrame := fun _ => (Some [Byte.x01], None);
                Stream.FrameDuration := 20000000;
                Stream.OpusSend := fun _ => None;
                Stream.has_done := true |} in
  let y := Stream.exec env
             [Stream.CallSetPaused true; Stream.CallSetPaused false;
              Stream.Task 0; Stream.Task 0; Stream.Task 0]
             Stream.NewStream in
  let y' := Stream.exec env
              [Stream.Task 1; Stream.Task 0; Stream.Task 0; Stream.Task 0]
              y in
  Stream.tasks y = [Stream.HandOff (Some [Byte.x01]); Stream.Entry] /\
  Stream.running (Stream.session y) = true /\
  Stream.panicked y = false /\
  Stream.panicked y' = true /\
  Stream.Finished y' = (false, None) /\
  Stream.waited y' = [] /\
  Stream.done y' = [].
Proof. vm_compute. tauto. Qed.



Lemma ReadMetadata_errors_witness :
  let json_Unmarshal :=
    fun _ : list byte =>
      (@None unit, Some "unexpected end of JSON input"%string) in
  let d := Decode.NewDecoder unit (list_byte_of_string "OggS") in
  Decode.r unit d <> [] /\
  firstn 3 (Decode.r unit d) <> Decode.magic /\
  Decode.ReadMetadata unit json_Unmarshal d
  = Returns ({| Decode.Metadata := None; Decode.FormatVersion := 0;
                Decode.r := [] |}, Some ErrNotDCA).
Proof.
  intros json_Unmarshal d.
  assert (H1 : Decode.r unit d <> []) by (vm_compute; discriminate).
  assert (H2 : firstn 3 (Decode.r unit d) <> Decode.magic)
    by (vm_compute; discriminate).
  split; [exact H1|]. split; [exact H2|].
  exact (proj1 (ReadMetadata_errors unit json_Unmarshal d) H1 H2).
Defined.

Lemma ReadFrame_exhaustion_witness :
  let frames := [[Byte.x01]; [Byte.x02; Byte.x03]] in
  let sched := [Queue.Consumer; Queue.Producer; Queue.Consumer;
                Queue.Consumer; Queue.Producer; Queue.Consumer;
                Queue.Consumer] in
  fst (Queue.exec sched (Queue.init (Queue.produces frames) 0))
  = [(Some [Byte.x01], None); (Some [Byte.x02; Byte.x03], None);
     (None, Some EOF); (None, Some EOF)] /\
  nth_error (fst (Queue.exec sched (Queue.init (Queue.produces frames) 0))) 2
  = Some (None, Some EOF).
Proof.
  intros frames sched.
  pose proof (ReadFrame_exhaustion frames 0 sched) as H.
  assert (E : fst (Queue.exec sched (Queue.init (Queue.produces frames) 0))
              = [(Some [Byte.x01], None); (Some [Byte.x02; Byte.x03], None);
                 (None, Some EOF); (None, Some EOF)]) by reflexivity.
  split; [exact E|].
  destruct (Queue.exec sched (Queue.init (Queue.produces frames) 0))
    as [results s].
  destruct H as [H _]. cbn [fst] in *. subst results.
  rewrite (H 2%nat (None, Some EOF) eq_refl). reflexivity.
Defined.

(** ** Round trips of the wire format *)

Section StreamRoundTrip.

Variable MetadataDoc : Type.
Variable json_Unmarshal : list byte -> option MetadataDoc * option string.

(** X1: the prologue that [writeMetadataFrame] puts together for a JSON
    document of fewer than 2^31 bytes is read back by [ReadMetadata]: the
    format version is 1, the metadata is what [json.Unmarshal] makes of
    the very same bytes, and the reader is left at the first frame. *)
Theorem prologue_roundtrip
        (w : Encode.World) (m : Encode.Metadata) (e : Encode.encodeSession)
        (jsonData rest : list byte) (d : Decode.Decoder MetadataDoc) :
  Encode.json_Marshal w m = (jsonData, None) ->
  len jsonData < 2 ^ 31 ->
  exists prologue,
    Encode.trace (Encode.write_prologue w m e)
    = Encode.trace e ++ [Encode.EvSend prologue] /\
    (Decode.r _ d = prologue ++ rest ->
     Decode.ReadMetadata _ json_Unmarshal d
     = Returns ({| Decode.Metadata := fst (json_Unmarshal jsonData);
                   Decode.FormatVersion := 1;
                   Decode.r := rest |},
                option_map JSONError (snd (json_Unmarshal jsonData)))).
Proof.
  intros Hm Hlen. unfold Encode.write_prologue. rewrite Hm.
  eexists. split; [reflexivity|].
  intros Hr. unfold Decode.ReadMetadata. rewrite Hr.
  assert (Hi : int32 (len jsonData) = len jsonData)
    by (apply int32_small; unfold len in *; lia).
  rewrite Hi.
  change (list_byte_of_string ("DCA" ++ Itoa Encode.FormatVersion))
    with (Decode.magic ++ [Byte.x31]).
  rewrite <- !app_assoc.
  change ((Decode.magic ++ [Byte.x31]
           ++ binary_Write_int32 (len jsonData) ++ jsonData ++ rest))
    with (Decode.magic ++ Byte.x31
            :: binary_Write_int32 (len jsonData) ++ jsonData ++ rest).
  change (Decode.read_fingerprint
            (Decode.magic ++ Byte.x31
               :: binary_Write_int32 (len jsonData) ++ jsonData ++ rest))
    with (Decode.magic ++ [Byte.x31], @None error,
          binary_Write_int32 (len jsonData) ++ jsonData ++ rest).
  change (firstn 3 (Decode.magic ++ [Byte.x31])) with Decode.magic.
  destruct (list_eq_dec Byte.byte_eq_dec Decode.magic Decode.magic);
    [|congruence].
  change (skipn 3 (Decode.magic ++ [Byte.x31])) with [Byte.x31].
  rewrite ParseInt10_one_byte.
  change (digit_of Byte.x31) with (Some 1). cbn [negb].
  rewrite binary_Read_Write_int32 by (unfold len in *; lia).
  destruct (Z.ltb_spec (len jsonData) 0); [unfold len in *; lia|].
  rewrite binary_Read_bytes_exact by reflexivity.
  destruct (json_Unmarshal jsonData) as [md jerr]. reflexivity.
Qed.

End StreamRoundTrip.

(** A wire frame at the head of a stream decodes to its payload. *)
Lemma DecodeFrame_wire (payload rest : list byte) :
  len payload <= 32767 ->
  DecodeFrame (dcaBuf_of payload ++ rest) = Returns (Some payload, None, rest).
Proof.
  intros HL.
  destruct (len_small_int16 payload HL) as [_ Hi].
  unfold dcaBuf_of. rewrite Hi, <- app_assoc.
  rewrite DecodeFrame_after_prefix by (unfold len in *; lia).
  now rewrite binary_Read_bytes_exact.
Qed.

Section FrameStream.

Variable MetadataDoc : Type.

(** The loop of [OpusFrame] over a stream of wire frames. *)
Lemma OpusFrames_roundtrip_aux (n : nat) :
  forall (packets : list (list byte)) (d : Decode.Decoder MetadataDoc),
    Forall (fun p => len p <= 32767) packets ->
    Decode.r _ d = concat (map dcaBuf_of packets) ->
    DecoderLoop.OpusFrames MetadataDoc n d
    = Returns (QueueSpec.ideal packets n,
               {| Decode.Metadata := Decode.Metadata _ d;
                  Decode.FormatVersion := Decode.FormatVersion _ d;
                  Decode.r := concat (map dcaBuf_of (skipn n packets)) |}).
Proof.
  induction n as [|n IH]; intros packets d Hlen Hr.
  - cbn [DecoderLoop.OpusFrames QueueSpec.ideal skipn]. rewrite <- Hr.
    destruct d; reflexivity.
  - cbn [DecoderLoop.OpusFrames]. unfold Decode.OpusFrame. rewrite Hr.
    destruct packets as [|p ps].
    + cbn [map concat]. change (DecodeFrame []) with
        (@Returns (slice * option error * Reader) (None, Some EOF, [])).
      cbv beta iota.
      rewrite (IH []) by (try exact Hlen; reflexivity).
      cbn [QueueSpec.ideal skipn Decode.Metadata Decode.FormatVersion].
      destruct n; reflexivity.
    + inversion Hlen as [|p' ps' Hp Hps]; subst.
      cbn [map concat]. rewrite (DecodeFrame_wire _ _ Hp).
      cbv beta iota.
      rewrite (IH ps) by (try exact Hps; reflexivity). reflexivity.
Qed.


(** X2: a stream made of the wire frames of [packets], none longer than
    32767 bytes, is read back by [n] calls of the decoder's [OpusFrame]
    as the packets in order, each with a nil error, and then [io.EOF]
    with a nil frame on every further call; the decoder is left in front
    of the frames not yet read. *)
Theorem OpusFrames_roundtrip (n : nat) :
  forall (packets : list (list byte)) (d : Decode.Decoder MetadataDoc),
    Forall (fun p => len p <= 32767) packets ->
    Decode.r _ d = concat (map dcaBuf_of packets) ->
    DecoderLoop.OpusFrames MetadataDoc n d
    = Returns (QueueSpec.ideal packets n,
               {| Decode.Metadata := Decode.Metadata _ d;
                  Decode.FormatVersion := Decode.FormatVersion _ d;
                  Decode.r := concat (map dcaBuf_of (skipn n packets)) |}).
Proof. apply OpusFrames_roundtrip_aux. Qed.

End FrameStream.

Lemma OpusFrames_roundtrip_witness :
  let packets := [[Byte.x01; Byte.x02]; []; [Byte.x03]] in
  Forall (fun p => len p <= 32767) packets /\
  DecoderLoop.OpusFrames unit 5
    (Decode.NewDecoder unit (concat (map dcaBuf_of packets)))
  = Returns ([(Some [Byte.x01; Byte.x02], None); (Some [], None);
              (Some [Byte.x03], None); (None, Some EOF); (None, Some EOF)],
             Decode.NewDecoder unit []).
Proof.
  intros packets.
  assert (H : Forall (fun p => len p <= 32767) packets)
    by (repeat constructor; vm_compute; discriminate).
  split; [exact H|].
  exact (OpusFrames_roundtrip unit 5 packets
           (Decode.NewDecoder unit (concat (map dcaBuf_of packets)))
           H eq_refl).
Defined.

Lemma prologue_roundtrip_witness :
  let w := Samples.world_of_pages [] in
  let json_Unmarshal :=
    fun b : list byte => (Some (length b), @None string) in
  let m := Encode.file_metadata Encode.StdEncodeOptions in
  let e := Samples.file_session Encode.StdEncodeOptions in
  Encode.json_Marshal w m = (list_byte_of_string "{}", None) /\
  len (list_byte_of_string "{}") < 2 ^ 31 /\
  exists prologue,
    Encode.trace (Encode.write_prologue w m e) = [Encode.EvSend prologue] /\
    Decode.ReadMetadata nat json_Unmarshal
      (Decode.NewDecoder nat (prologue ++ [Byte.xff]))
    = Returns ({| Decode.Metadata := Some 2%nat; Decode.FormatVersion := 1;
                  Decode.r := [Byte.xff] |}, None).
Proof.
  intros w json_Unmarshal m e.
  assert (H1 : Encode.json_Marshal w m = (list_byte_of_string "{}", None))
    by reflexivity.
  assert (H2 : len (list_byte_of_string "{}") < 2 ^ 31)
    by (vm_compute; reflexivity).
  split; [exact H1|]. split; [exact H2|].
  destruct (prologue_roundtrip nat json_Unmarshal w m e
              (list_byte_of_string "{}") [Byte.xff]
              (Decode.NewDecoder nat
                 (list_byte_of_string "DCA1"
                    ++ binary_Write_int32 2 ++ list_byte_of_string "{}"
                    ++ [Byte.xff])) H1 H2)
    as (prologue & Htr & Hread).
  exists prologue. split; [exact Htr|].
  assert (Hp : prologue = list_byte_of_string "DCA1"
                            ++ binary_Write_int32 2
                            ++ list_byte_of_string "{}").
  { vm_compute in Htr. injection Htr as <-. reflexivity. }
  subst prologue. apply Hread. reflexivity.
Defined.

(** ** Packets too long for the length prefix *)

Lemma binary_Read_Write_int16_any (z old : Z) (rest : Reader) :
  binary_Read_int16 (binary_Write_int16 z ++ rest) old
  = (int16 z, None, rest).
Proof.
  unfold binary_Read_int16, binary_Write_int16.
  rewrite ReadFull_enough
    by (rewrite length_app, length_le_split; lia).
  rewrite firstn_app, length_le_split, Nat.sub_diag, firstn_O, app_nil_r.
  rewrite firstn_all2 by (rewrite length_le_split; lia).
  rewrite skipn_app, length_le_split, Nat.sub_diag, skipn_O.
  rewrite skipn_all2 by (rewrite length_le_split; lia).
  cbn [app]. rewrite le_combine_split.
  change (2 ^ (Z.of_nat 2 * 8)) with (2 ^ 16).
  fold (uint16 (uint16 z)). now rewrite !int16_uint16.
Qed.

Lemma int16_idem (z : Z) : int16 (int16 z) = int16 z.
Proof.
  apply int16_small. unfold int16.
  pose proof (Z.mod_pos_bound (z + 2 ^ 15) (2 ^ 16) ltac:(lia)). lia.
Qed.

Lemma int16_shift (z k : Z) : int16 (z + k * 2 ^ 16) = int16 z.
Proof.
  unfold int16. f_equal.
  replace (z + k * 2 ^ 16 + 2 ^ 15) with (z + 2 ^ 15 + k * 2 ^ 16) by lia.
  apply Z.mod_add. lia.
Qed.

(** X3: [writeOpusFrame] cuts the packet length down to an [int16].  The
    frame it writes for a packet of 32768 to 65535 bytes carries a
    negative length and makes [DecodeFrame] panic; the frame it writes for
    a packet of 65536 to 98303 bytes decodes, without an error, to the
    first [L - 65536] bytes of the packet, and the reader is left inside
    the packet. *)
Theorem oversize_packet_frames (payload rest : list byte) :
  (32768 <= len payload <= 65535 ->
   DecodeFrame (dcaBuf_of payload ++ rest)
   = Panics "makeslice: len out of range") /\
  (65536 <= len payload <= 98303 ->
   DecodeFrame (dcaBuf_of payload ++ rest)
   = Returns (Some (firstn (Z.to_nat (len payload - 65536)) payload), None,
              skipn (Z.to_nat (len payload - 65536)) payload ++ rest)).
Proof.
  split; intros HL.
  - assert (Hs : int16 (len payload) = len payload - 65536).
    { replace (len payload) with (len payload - 65536 + 1 * 2 ^ 16) at 1
        by lia.
      rewrite int16_shift. apply int16_small. lia. }
    unfold DecodeFrame, dcaBuf_of. rewrite <- app_assoc.
    rewrite binary_Read_Write_int16_any, int16_idem, Hs.
    destruct (Z.ltb_spec (len payload - 65536) 0); [reflexivity|lia].
  - assert (Hs : int16 (len payload) = len payload - 65536).
    { replace (len payload) with (len payload - 65536 + 1 * 2 ^ 16) at 1
        by lia.
      rewrite int16_shift. apply int16_small. lia. }
    unfold DecodeFrame, dcaBuf_of. rewrite <- app_assoc.
    rewrite binary_Read_Write_int16_any, int16_idem, Hs.
    destruct (Z.ltb_spec (len payload - 65536) 0); [lia|].
    rewrite <- (firstn_skipn (Z.to_nat (len payload - 65536)) payload)
      at 1.
    rewrite <- app_assoc.
    rewrite binary_Read_bytes_exact; [reflexivity|].
    unfold len in *. rewrite length_firstn. lia.
Qed.

Lemma oversize_packet_frames_witness :
  32768 <= len (make_bytes 40000) <= 65535 /\
  DecodeFrame (dcaBuf_of (make_bytes 40000) ++ [Byte.x07])
  = Panics "makeslice: len out of range".
Proof.
  assert (H : 32768 <= len (make_bytes 40000) <= 65535).
  { unfold len. rewrite length_make_bytes. lia. }
  split; [exact H|].
  exact (proj1 (oversize_packet_frames (make_bytes 40000) [Byte.x07]) H).
Defined.

(** ** From the session to the decoder *)

(** The frames [readStdout] sends for well-formed pages. *)
Lemma readStdout_sent_frames (w : Encode.World) (e : Encode.encodeSession) :
  Forall PacketSpec.page_ok (Encode.Pages w) ->
  snd (Encode.readStdout w e) = Encode.Normal /\
  Encode.sent_frames (Encode.trace (fst (Encode.readStdout w e)))
  = Encode.sent_frames (Encode.trace e)
    ++ map dcaBuf_of
         (filter PacketSpec.nonempty (PacketSpec.packets (Encode.Pages w))).
Proof.
  intros Hok. unfold Encode.readStdout.
  rewrite read_pages_walk by exact Hok.
  unfold PacketSpec.packets. rewrite filter_walk.
  destruct (PacketSpec.walk_guarded
              (PacketSpec.page_segments (Encode.Pages w)) [])
    as [flushed open].
  cbn [fst snd]. split; [reflexivity|]. unfold PacketSpec.nonempty.
  assert (Hs : forall ps,
             Encode.sent_frames (map (fun p => Encode.EvSend (dcaBuf_of p)) ps)
             = map dcaBuf_of ps).
  { induction ps as [|p ps IH]; cbn [map Encode.sent_frames];
      rewrite ?IH; reflexivity. }
  assert (H1 : Encode.sent_frames
                 (Encode.trace
                    match Encode.Decode_err w with
                    | EOF => PacketSpec.send_all flushed e
                    | _ => Encode.emit
                             (Encode.EvLog "Error reading fmmpeg stdout:")
                             (PacketSpec.send_all flushed e)
                    end)
               = Encode.sent_frames (Encode.trace e) ++ map dcaBuf_of flushed).
  { destruct (Encode.Decode_err w);
      rewrite ?trace_emit, ?sent_frames_app, send_all_trace, sent_frames_app,
        Hs; cbn [Encode.sent_frames]; rewrite ?app_nil_r; reflexivity. }
  destruct (0 <? len open).
  - cbn [Encode.writeOpusFrame]. rewrite trace_emit.
    cbn [Encode.incr_lastFrame Encode.trace].
    rewrite trace_emit, !sent_frames_app, H1.
    cbn [Encode.sent_frames]. rewrite map_app, <- !app_assoc, app_nil_r.
    reflexivity.
  - rewrite trace_emit, sent_frames_app, H1.
    cbn [Encode.sent_frames]. now rewrite !app_nil_r.
Qed.

Section EndToEnd.

Variable MetadataDoc : Type.
Variable json_Unmarshal : list byte -> option MetadataDoc * option string.

(** X4: what a session on a pipe source with metadata puts on its queue
    is a stream a decoder reads back.  When the pipes and the process can
    be set up, the metadata of a pipe source marshals to [jsonData],
    the pages are well formed and no packet is longer than 32767 bytes, the concatenation of the frames sent is the prologue
    followed by the wire frames of the non-empty packets of the pages:
    [ReadMetadata] gives format version 1 and the metadata unmarshalled
    from the JSON that was marshalled, and [OpusFrame] then gives the
    packets in order and [io.EOF] after the last. *)
Theorem session_stream_decodes
        (w : Encode.World) (r : Reader) (o : Encode.EncodeOptions)
        (e : Encode.encodeSession) (jsonData : list byte) (n : nat) :
  let audio :=
    filter PacketSpec.nonempty (PacketSpec.packets (Encode.Pages w)) in
  let stream :=
    concat (Encode.sent_frames (Encode.trace (fst (Encode.run w e)))) in
  Encode.EncodeMem r (Some o) = Returns e ->
  Encode.RawOutput o = false ->
  Encode.StdoutPipe_err w = None ->
  Encode.StderrPipe_err w = None ->
  Encode.Start_err w = None ->
  Encode.json_Marshal w
    (Encode.with_Origin
       {| Encode.Source := "pipe"; Encode.Origin_Bitrate := 0;
          Encode.Origin_Channels := Encode.Channels o;
          Encode.Encoding := "pcm16/s16le" |} (Encode.file_metadata o))
  = (jsonData, None) ->
  len jsonData < 2 ^ 31 ->
  Forall PacketSpec.page_ok (Encode.Pages w) ->
  Forall (fun p => len p <= 32767) audio ->
  exists d,
    Decode.ReadMetadata _ json_Unmarshal (Decode.NewDecoder _ stream)
    = Returns (d, option_map JSONError (snd (json_Unmarshal jsonData))) /\
    Decode.Metadata _ d = fst (json_Unmarshal jsonData) /\
    Decode.FormatVersion _ d = 1 /\
    exists d',
      DecoderLoop.OpusFrames _ n d = Returns (QueueSpec.ideal audio n, d').
Proof.
  intros audio stream Hnew Hraw Hout Herr Hstart Hjson Hlen Hok Haudio.
  assert (Hsent : Encode.sent_frames (Encode.trace (fst (Encode.run w e)))
                  = (list_byte_of_string "DCA1"
                       ++ binary_Write_int32 (int32 (len jsonData))
                       ++ jsonData)
                    :: map dcaBuf_of audio).
  { unfold Encode.EncodeMem, Encode.new_session in Hnew.
    destruct (Encode.BufferedFrames o <? 0); [discriminate|].
    injection Hnew as <-.
    unfold Encode.run, Encode.run_body.
    cbn [Encode.set_running Encode.options Encode.filePath String.eqb].
    rewrite Hout, Herr, Hstart, Hraw.
    unfold Encode.writeMetadataFrame.
    cbn [Encode.pipeReader Encode.set_running].
    unfold Encode.write_prologue. rewrite Hjson.
    set (e2 := Encode.set_process _).
    destruct (readStdout_sent_frames w e2 Hok) as [Hx Hs].
    destruct (Encode.readStdout w e2) as [e3 ex]. cbn [fst snd] in Hx, Hs.
    subst ex.
    assert (H3 : Encode.sent_frames (Encode.trace e3)
                 = (list_byte_of_string "DCA1"
                      ++ binary_Write_int32 (int32 (len jsonData))
                      ++ jsonData) :: map dcaBuf_of audio).
    { rewrite Hs. unfold e2.
      cbn [Encode.set_process Encode.emit Encode.trace app
             Encode.sent_frames].
      rewrite <- app_assoc. reflexivity. }
    destruct (Encode.Wait_err w) as [msg|];
      [destruct (negb (String.eqb msg "signal: killed"))|];
      cbn [fst Encode.set_running Encode.trace];
      rewrite ?trace_emit, ?sent_frames_app, H3;
      cbn [Encode.sent_frames]; rewrite ?app_nil_r; reflexivity. }
  unfold stream. rewrite Hsent. cbn [concat].
  assert (Hi : int32 (len jsonData) = len jsonData)
    by (apply int32_small; unfold len in *; lia).
  rewrite Hi.
  set (frames := concat (map dcaBuf_of audio)).
  assert (Hread :
            Decode.ReadMetadata _ json_Unmarshal
              (Decode.NewDecoder _
                 ((list_byte_of_string "DCA1"
                     ++ binary_Write_int32 (len jsonData) ++ jsonData)
                    ++ frames))
            = Returns ({| Decode.Metadata := fst (json_Unmarshal jsonData);
                          Decode.FormatVersion := 1;
                          Decode.r := frames |},
                       option_map JSONError (snd (json_Unmarshal jsonData)))).
  { unfold Decode.ReadMetadata, Decode.NewDecoder. cbn [Decode.r].
    rewrite <- !app_assoc.
    change (list_byte_of_string "DCA1"
              ++ binary_Write_int32 (len jsonData) ++ jsonData ++ frames)
      with (Decode.magic ++ Byte.x31
              :: binary_Write_int32 (len jsonData) ++ jsonData ++ frames).
    change (Decode.read_fingerprint
              (Decode.magic ++ Byte.x31
                 :: binary_Write_int32 (len jsonData) ++ jsonData ++ frames))
      with (Decode.magic ++ [Byte.x31], @None error,
            binary_Write_int32 (len jsonData) ++ jsonData ++ frames).
    change (firstn 3 (Decode.magic ++ [Byte.x31])) with Decode.magic.
    destruct (list_eq_dec Byte.byte_eq_dec Decode.magic Decode.magic);
      [|congruence].
    change (skipn 3 (Decode.magic ++ [Byte.x31])) with [Byte.x31].
    rewrite ParseInt10_one_byte.
    change (digit_of Byte.x31) with (Some 1). cbn [negb].
    rewrite binary_Read_Write_int32 by (unfold len in *; lia).
    destruct (Z.ltb_spec (len jsonData) 0); [unfold len in *; lia|].
    rewrite binary_Read_bytes_exact by reflexivity.
    destruct (json_Unmarshal jsonData) as [md jerr]. reflexivity. }
  eexists. split; [exact Hread|]. split; [reflexivity|].
  split; [reflexivity|].
  eexists. apply (OpusFrames_roundtrip_aux MetadataDoc n audio);
    [exact Haudio|reflexivity].
Qed.

End EndToEnd.

Lemma session_stream_decodes_witness :
  let w := Samples.world_of_pages
             [Samples.small_page; Samples.empty_segment_page] in
  exists e d,
    Encode.EncodeMem [] (Some Encode.StdEncodeOptions) = Returns e /\
    Decode.ReadMetadata unit (fun _ => (None, None))
      (Decode.NewDecoder unit
         (concat (Encode.sent_frames (Encode.trace (fst (Encode.run w e))))))
    = Returns (d, None) /\
    Decode.FormatVersion unit d = 1 /\
    exists d',
      DecoderLoop.OpusFrames unit 2 d
      = Returns ([(Some [Byte.x0a; Byte.x0b; Byte.x0c], None);
                  (None, Some EOF)], d').
Proof.
  intros w.
  assert (Hok : Forall PacketSpec.page_ok
                  [Samples.small_page; Samples.empty_segment_page])
    by (repeat constructor; vm_compute; discriminate).
  assert (Ha : Forall (fun p => len p <= 32767)
                 [[Byte.x0a; Byte.x0b; Byte.x0c]])
    by (repeat constructor; vm_compute; discriminate).
  destruct (session_stream_decodes unit (fun _ => (None, None)) w []
              Encode.StdEncodeOptions _ (list_byte_of_string "{}") 2
              eq_refl eq_refl eq_refl eq_refl eq_refl eq_refl eq_refl Hok Ha)
    as [d [H1 [_ [H3 H4]]]].
  eexists. exists d. split; [reflexivity|].
  split; [exact H1|]. split; [exact H3|exact H4].
Defined.

(** ** The bookkeeping of the streaming session *)

Section StreamBookkeeping.

Import Stream StreamInv.

Variable env : Env.

Lemma count_app f t1 t2 : count f (t1 ++ t2) = count f t1 + count f t2.
Proof.
  unfold count, len. rewrite filter_app, length_app. lia.
Qed.

Lemma count_nonneg f t : 0 <= count f t.
Proof. unfold count, len. lia. Qed.

Lemma count_set_nth f t : forall i old p,
  nth_error t i = Some old ->
  count f (set_nth i p t)
  = count f t - (if f old then 1 else 0) + (if f p then 1 else 0).
Proof.
  induction t as [|x t IH]; intros [|i] old p H; cbn in H; try discriminate.
  - injection H as ->. unfold count, len. cbn [set_nth filter].
    destruct (f old), (f p); cbn [length]; lia.
  - specialize (IH i old p H). unfold count, len in *.
    cbn [set_nth filter]. destruct (f x); cbn [length]; lia.
Qed.

Lemma count_goto f i old p y :
  nth_error (tasks y) i = Some old ->
  count f (tasks (goto i p y))
  = count f (tasks y) - (if f old then 1 else 0) + (if f p then 1 else 0).
Proof. intros H. unfold goto. cbn [with_tasks tasks]. now apply count_set_nth. Qed.

Lemma count_member f t i p :
  nth_error t i = Some p -> f p = true -> 1 <= count f t.
Proof.
  revert i. induction t as [|x t IH]; intros [|i] H Hp; cbn in H;
    try discriminate.
  - injection H as ->. unfold count, len. cbn [filter]. rewrite Hp.
    cbn [length]. lia.
  - specialize (IH i H Hp). unfold count, len in *. cbn [filter].
    destruct (f x); cbn [length]; lia.
Qed.

Lemma int64_succ (z : Z) : int64 (int64 z + 1) = int64 (z + 1).
Proof.
  unfold int64.
  replace ((z + 2 ^ 63) mod 2 ^ 64 - 2 ^ 63 + 1 + 2 ^ 63)
    with ((z + 2 ^ 63) mod 2 ^ 64 + 1) by lia.
  rewrite Zplus_mod_idemp_l. f_equal. f_equal. lia.
Qed.

Lemma int64_mul_l (a b : Z) : int64 (int64 a * b) = int64 (a * b).
Proof.
  unfold int64.
  replace (((a + 2 ^ 63) mod 2 ^ 64 - 2 ^ 63) * b + 2 ^ 63)
    with ((a + 2 ^ 63) mod 2 ^ 64 * b + (2 ^ 63 - 2 ^ 63 * b)) by lia.
  rewrite <- Zplus_mod_idemp_l, Zmult_mod_idemp_l, Zplus_mod_idemp_l.
  f_equal. f_equal. lia.
Qed.

Lemma SetPaused_tasks p y :
  tasks (SetPaused p y) = tasks y \/ tasks (SetPaused p y) = tasks y ++ [Entry].
Proof.
  unfold SetPaused.
  destruct (finished (session y)); [now left|].
  destruct (negb p && running (session y)).
  { destruct (paused (session y)); now left. }
  destruct (p && negb (running (session y))).
  { destruct (negb (paused (session y))); now left. }
  destruct (negb (running (session y)) && paused (session y) && negb p);
    [now right|now left].
Qed.

Lemma SetPaused_counters p y :
  running (session (SetPaused p y)) = running (session y) /\
  framesSent (session (SetPaused p y)) = framesSent (session y) /\
  handoffs (SetPaused p y) = handoffs y /\
  pulls (SetPaused p y) = pulls y.
Proof.
  unfold SetPaused.
  destruct (finished (session y)); [now repeat split|].
  destruct (negb p && running (session y)).
  { destruct (paused (session y)); now repeat split. }
  destruct (p && negb (running (session y))).
  { destruct (negb (paused (session y))); now repeat split. }
  destruct (negb (running (session y)) && paused (session y) && negb p);
    now repeat split.
Qed.

Lemma exclusive_step a y : exclusive y -> exclusive (step env a y).
Proof.
  unfold exclusive, step. intros H.
  destruct (panicked y); [exact H|].
  destruct a as [p|i].
  - destruct (SetPaused_counters p y) as (-> & _).
    destruct (SetPaused_tasks p y) as [->| ->]; [exact H|].
    rewrite count_app, H. unfold count, len. cbn. lia.
  - unfold task_step.
    destruct (nth_error (tasks y) i) as [q|] eqn:Hi; [|exact H].
    destruct q.
    + destruct (running (session y)) eqn:Hr.
      * cbn [tasks session]. now rewrite Hr.
      * rewrite (count_goto _ _ Entry) by exact Hi.
        cbn [goto with_session with_tasks session tasks running active].
        lia.
    + destruct (paused (session y));
        rewrite (count_goto _ _ LoopHead) by exact Hi;
        cbn [goto with_session with_tasks session tasks running active]; lia.
    + destruct (OpusFrame env (pulls y)) as [opus [e|]];
        rewrite (count_goto _ _ Pull) by exact Hi;
        cbn [goto with_session with_tasks session tasks running active]; lia.
    + destruct (select_send (OpusSend env (handoffs y))) as [[|] t];
        rewrite (count_goto _ _ (HandOff opus)) by exact Hi;
        cbn [goto with_session with_tasks session tasks running active]; lia.
    + rewrite (count_goto _ _ Count) by exact Hi.
      cbn [goto with_session with_tasks session tasks running active]. lia.
    + rewrite (count_goto _ _ (Failed e)) by exact Hi.
      cbn [goto with_session with_tasks session tasks running active]. lia.
    + rewrite (count_goto _ _ Deferred) by exact Hi.
      cbn [goto with_session with_tasks session tasks running active].
      pose proof (count_member active _ _ _ Hi eq_refl).
      destruct (running (session y)); lia.
    + exact H.
Qed.

Lemma balanced_step a y : balanced env y -> balanced env (step env a y).
Proof.
  unfold balanced, step. intros [H1 H2].
  destruct (panicked y); [now split|].
  destruct a as [p|i].
  - destruct (SetPaused_counters p y) as (_ & -> & -> & ->).
    destruct (SetPaused_tasks p y) as [->| ->]; [now split|].
    rewrite !count_app. unfold count at 2 4, len. cbn [filter counting holding length].
    rewrite !Z.add_0_r. now split.
  - unfold task_step.
    destruct (nth_error (tasks y) i) as [q|] eqn:Hi; [|now split].
    destruct q.
    + destruct (running (session y)) eqn:Hr; [now split|].
      rewrite !(count_goto _ _ Entry) by exact Hi.
      cbn [goto with_session with_tasks session tasks framesSent handoffs
             pulls counting holding].
      rewrite !Z.sub_0_r, !Z.add_0_r. now split.
    + destruct (paused (session y));
        rewrite !(count_goto _ _ LoopHead) by exact Hi;
        cbn [goto with_tasks session handoffs pulls counting holding];
        rewrite !Z.sub_0_r, !Z.add_0_r; now split.
    + destruct (OpusFrame env (pulls y)) as [opus [e|]] eqn:Ho;
        rewrite !(count_goto _ _ Pull) by exact Hi;
        cbn [goto with_tasks session tasks handoffs pulls counting holding
               refused framesSent];
        rewrite Ho; cbn [snd]; (split; [rewrite H1; f_equal; lia|lia]).
    + destruct (select_send (OpusSend env (handoffs y))) as [[|] t] eqn:Hs;
        rewrite !(count_goto _ _ (HandOff opus)) by exact Hi;
        cbn [goto with_tasks session tasks handoffs pulls counting holding
               accepted framesSent];
        rewrite Hs; cbn [fst]; (split; [rewrite H1; f_equal; lia|lia]).
    + rewrite !(count_goto _ _ Count) by exact Hi.
      cbn [goto with_session with_tasks session tasks handoffs pulls
             counting holding framesSent].
      split; [|lia]. rewrite H1, int64_succ. f_equal. lia.
    + rewrite !(count_goto _ _ (Failed e)) by exact Hi.
      cbn [goto with_tasks session tasks handoffs pulls counting holding
             framesSent].
      split; [rewrite H1; f_equal; lia|lia].
    + rewrite !(count_goto _ _ Deferred) by exact Hi.
      cbn [goto with_session with_tasks session tasks handoffs pulls
             counting holding framesSent].
      split; [rewrite H1; f_equal; lia|lia].
    + now split.
Qed.

Lemma exec_invariant (P : System -> Prop) :
  (forall a y, P y -> P (step env a y)) ->
  forall acts y, P y -> P (exec env acts y).
Proof.
  intros Hstep acts. induction acts as [|a acts IH]; intros y Hy.
  - exact Hy.
  - change (exec env (a :: acts) y) with (exec env acts (step env a y)).
    apply IH, Hstep, Hy.
Qed.

End StreamBookkeeping.

(** X5: mutual exclusion of the [stream] goroutines.  In every state a
    session reaches from [NewStream], whatever the callers of [SetPaused]
    and the scheduler do, the number of goroutines between the entry check
    and the deferred reset is one when [running] is set and none when it
    is not: no two goroutines are ever in the forwarding loop together. *)
Theorem stream_goroutines_exclusive
        (env : Stream.Env) (acts : list Stream.action) :
  let y := Stream.exec env acts Stream.NewStream in
  StreamInv.count StreamInv.active (Stream.tasks y)
  = if Stream.running (Stream.session y) then 1 else 0.
Proof.
  intros y. unfold y.
  apply (exec_invariant env StreamInv.exclusive).
  - intros a y0. apply exclusive_step.
  - reflexivity.
Qed.

(** X6: the counters of a streaming session add up, in every state it
    reaches from [NewStream].  [framesSent] (as an [int]) is the number of
    hand-offs the sink took within the second, less the one a goroutine
    has not counted yet, so [PlaybackPosition] is that number times the
    frame duration: a frame the sink did not take is never counted.  And
    every call of [OpusFrame] either returned an error, or its frame was
    offered to the sink, or is about to be. *)
Theorem stream_counters_balance
        (env : Stream.Env) (acts : list Stream.action) :
  let y := Stream.exec env acts Stream.NewStream in
  let taken :=
    StreamInv.accepted env (Stream.handoffs y)
    - StreamInv.count StreamInv.counting (Stream.tasks y) in
  Stream.framesSent (Stream.session y) = int64 taken /\
  Stream.PlaybackPosition env y = int64 (taken * Stream.FrameDuration env) /\
  Z.of_nat (Stream.pulls y)
  = Z.of_nat (Stream.handoffs y) + StreamInv.refused env (Stream.pulls y)
    + StreamInv.count StreamInv.holding (Stream.tasks y).
Proof.
  intros y taken.
  assert (H : StreamInv.balanced env y).
  { unfold y. apply (exec_invariant env (StreamInv.balanced env)).
    - intros a y0. apply balanced_step.
    - split; reflexivity. }
  destruct H as [H1 H2]. fold taken in H1.
  split; [exact H1|]. split; [|exact H2].
  unfold Stream.PlaybackPosition. rewrite H1. apply int64_mul_l.
Qed.

(** ** A stream left to itself *)

Section StreamCompletion.

Import Stream StreamInv.

Variable env : Env.

Lemma step_Pull s j h wt dn :
  step env (Task 0)
    {| session := s; tasks := [Pull]; pulls := j; handoffs := h;
       waited := wt; done := dn; panicked := false |}
  = {| session := s;
       tasks := [match snd (OpusFrame env j) with
                 | Some e => Failed e
                 | None => HandOff (fst (OpusFrame env j))
                 end];
       pulls := S j; handoffs := h; waited := wt; done := dn;
       panicked := false |}.
Proof.
  unfold step, task_step.
  cbn [panicked tasks nth_error session pulls handoffs waited done].
  destruct (OpusFrame env j) as [opus [e|]]; reflexivity.
Qed.

Lemma step_HandOff s opus j h wt dn :
  step env (Task 0)
    {| session := s; tasks := [HandOff opus]; pulls := j; handoffs := h;
       waited := wt; done := dn; panicked := false |}
  = {| session := s;
       tasks := [if fst (select_send (OpusSend env h)) then Count
                 else Failed ErrVoiceConnClosed];
       pulls := j; handoffs := S h;
       waited := wt ++ [snd (select_send (OpusSend env h))]; done := dn;
       panicked := false |}.
Proof.
  unfold step, task_step.
  cbn [panicked tasks nth_error session pulls handoffs waited done].
  destruct (select_send (OpusSend env h)) as [[|] t]; reflexivity.
Qed.

Lemma forwarding_next (n : nat) :
  snd (OpusFrame env n) = None ->
  fst (select_send (OpusSend env n)) = true ->
  exec env (repeat (Task 0) 4) (forwarding env n) = forwarding env (S n).
Proof.
  intros Ho Hs. unfold exec. cbn [repeat fold_left].
  change (step env (Task 0) (forwarding env n))
    with {| session := session (forwarding env n); tasks := [Pull];
            pulls := n; handoffs := n; waited := waited (forwarding env n);
            done := []; panicked := false |}.
  rewrite step_Pull, Ho, step_HandOff, Hs.
  unfold step, task_step, forwarding.
  cbn [panicked tasks nth_error session pulls handoffs waited done goto
         with_tasks with_session set_nth paused framesSent finished running
         err].
  rewrite int64_succ, seq_S, map_app. cbn [map Nat.add].
  rewrite Nat2Z.inj_succ. reflexivity.
Qed.

Lemma forwarding_reached (n : nat) :
  (forall i, (i < n)%nat -> snd (OpusFrame env i) = None) ->
  (forall i, (i < n)%nat -> fst (select_send (OpusSend env i)) = true) ->
  exec env (repeat (Task 0) (1 + 4 * n)) NewStream = forwarding env n.
Proof.
  induction n as [|n IH]; intros Ho Hs.
  - reflexivity.
  - replace (1 + 4 * S n)%nat with ((1 + 4 * n) + 4)%nat by lia.
    rewrite repeat_app, exec_app, IH by (intros i Hi; auto with arith).
    apply forwarding_next; auto.
Qed.

End StreamCompletion.

(** The run of the first goroutine up to the first error of the source. *)
Lemma stream_completion
        (env : Stream.Env) (k : nat) (opus : slice) (e : error) :
  (forall i, (i < k)%nat -> snd (Stream.OpusFrame env i) = None) ->
  (forall i, (i < k)%nat ->
     fst (Stream.select_send (Stream.OpusSend env i)) = true) ->
  Stream.OpusFrame env k = (opus, Some e) ->
  let y := Stream.exec env (repeat (Stream.Task 0) (4 * k + 5))
             Stream.NewStream in
  Stream.Finished y
  = (true, match e with EOF => None | _ => Some e end) /\
  Stream.framesSent (Stream.session y) = int64 (Z.of_nat k) /\
  Stream.running (Stream.session y) = false /\
  Stream.Paused y = false /\
  Stream.tasks y = [Stream.Done] /\
  Stream.pulls y = S k /\
  Stream.handoffs y = k /\
  Stream.done y = (if Stream.has_done env then [e] else []) /\
  Stream.panicked y = false.
Proof.
  intros Ho Hs He y. unfold y.
  replace (4 * k + 5)%nat with ((1 + 4 * k) + 4)%nat by lia.
  rewrite repeat_app, exec_app, forwarding_reached by assumption.
  unfold Stream.exec. cbn [repeat fold_left].
  change (Stream.step env (Stream.Task 0) (StreamInv.forwarding env k))
    with {| Stream.session := Stream.session (StreamInv.forwarding env k);
            Stream.tasks := [Stream.Pull];
            Stream.pulls := k; Stream.handoffs := k;
            Stream.waited := Stream.waited (StreamInv.forwarding env k);
            Stream.done := []; Stream.panicked := false |}.
  rewrite step_Pull, He. cbn [snd].
  unfold Stream.step, Stream.task_step, Stream.Finished, Stream.Paused,
    StreamInv.forwarding.
  cbn [Stream.panicked Stream.goto Stream.with_tasks Stream.with_session
         Stream.tasks Stream.set_nth nth_error Stream.session Stream.pulls
         Stream.handoffs Stream.waited Stream.done Stream.paused
         Stream.framesSent Stream.finished Stream.running Stream.err app].
  destruct (Stream.has_done env); repeat split; reflexivity.
Qed.

(** X7: a stream left to itself forwards what its source has and then
    finishes.  When the first [k] calls of [OpusFrame] return frames, the
    sink takes each of them within the second and the next call returns
    the error [e], the goroutine that [NewStream] started ends after
    [4 * k + 5] steps: [framesSent] is [k], [running] is reset, [Finished]
    returns [true] with no error for [io.EOF] and with [e] otherwise, no
    further frame was pulled, and what is sent on [done] (when the caller
    gave such a channel) is [e] itself, [io.EOF] included. *)
Theorem stream_forwards_then_finishes
        (env : Stream.Env) (k : nat) (opus : slice) (e : error) :
  (forall i, (i < k)%nat -> snd (Stream.OpusFrame env i) = None) ->
  (forall i, (i < k)%nat ->
     fst (Stream.select_send (Stream.OpusSend env i)) = true) ->
  Stream.OpusFrame env k = (opus, Some e) ->
  let y := Stream.exec env (repeat (Stream.Task 0) (4 * k + 5))
             Stream.NewStream in
  Stream.Finished y
  = (true, match e with EOF => None | _ => Some e end) /\
  Stream.framesSent (Stream.session y) = int64 (Z.of_nat k) /\
  Stream.running (Stream.session y) = false /\
  Stream.Paused y = false /\
  Stream.tasks y = [Stream.Done] /\
  Stream.pulls y = S k /\
  Stream.handoffs y = k /\
  Stream.done y = (if Stream.has_done env then [e] else []) /\
  Stream.panicked y = false.
Proof. apply stream_completion. Qed.

Lemma stream_forwards_then_finishes_witness :
  let env := {| Stream.OpusFrame :=
                  fun i => if (i <? 3)%nat then (Some [Byte.x01], None)
                           else (None, Some EOF);
                Stream.FrameDuration := 20000000;
                Stream.OpusSend := fun _ => Some 0;
                Stream.has_done := true |} in
  let y := Stream.exec env (repeat (Stream.Task 0) 17) Stream.NewStream in
  Stream.Finished y = (true, None) /\
  Stream.framesSent (Stream.session y) = 3 /\
  Stream.done y = [EOF].
Proof.
  intros env y.
  assert (Ho : forall i, (i < 3)%nat -> snd (Stream.OpusFrame env i) = None).
  { intros i Hi. cbn [env Stream.OpusFrame].
    destruct (Nat.ltb_spec i 3); [reflexivity|lia]. }
  assert (Hs : forall i, (i < 3)%nat ->
                 fst (Stream.select_send (Stream.OpusSend env i)) = true)
    by (intros i _; reflexivity).
  destruct (stream_forwards_then_finishes env 3 None EOF Ho Hs eq_refl)
    as (H1 & H2 & _ & _ & _ & _ & _ & H8 & _).
  split; [exact H1|]. split; [exact H2|exact H8].
Defined.

(** ** Pausing *)

Section Pausing.

Import Stream StreamInv.

Variable env : Env.

Lemma count_le f g t :
  (forall p, f p = true -> g p = true) -> count f t <= count g t.
Proof.
  intros H. unfold count, len.
  induction t as [|x t IH]; cbn [filter]; [lia|].
  destruct (f x) eqn:Hf.
  - rewrite (H x Hf). cbn [length]. lia.
  - destruct (g x); cbn [length]; lia.
Qed.

Lemma count_or f g t :
  (forall p, f p && g p = false) ->
  count f t + count g t = count (fun p => f p || g p) t.
Proof.
  intros H. unfold count, len.
  induction t as [|x t IH]; cbn [filter]; [reflexivity|].
  specialize (H x).
  destruct (f x), (g x); cbn [orb length] in *; try discriminate; lia.
Qed.

Lemma paused_task_step i y :
  paused (session y) = true ->
  paused (session (task_step env i y)) = true /\
  fst (pause_budget (task_step env i y)) = fst (pause_budget y) /\
  snd (pause_budget (task_step env i y)) <= snd (pause_budget y).
Proof.
  intros Hp. unfold pause_budget, task_step. cbn [fst snd].
  destruct (nth_error (tasks y) i) as [q|] eqn:Hi;
    [|split; [exact Hp|lia]].
  destruct q.
  - destruct (running (session y)); [split; [exact Hp|cbn [tasks handoffs pulls]; lia]|].
    rewrite !(count_goto _ _ Entry) by exact Hi.
    cbn [goto with_session with_tasks session tasks paused pulls handoffs
           pulling holding].
    split; [exact Hp|lia].
  - rewrite Hp. rewrite !(count_goto _ _ LoopHead) by exact Hi.
    cbn [goto with_tasks session tasks paused pulls handoffs pulling
           holding].
    split; [exact Hp|lia].
  - destruct (OpusFrame env (pulls y)) as [opus [e|]];
      rewrite !(count_goto _ _ Pull) by exact Hi;
      cbn [goto with_tasks session tasks paused pulls handoffs pulling
             holding];
      (split; [exact Hp|lia]).
  - destruct (select_send (OpusSend env (handoffs y))) as [[|] t];
      rewrite !(count_goto _ _ (HandOff opus)) by exact Hi;
      cbn [goto with_tasks session tasks paused pulls handoffs pulling
             holding];
      (split; [exact Hp|lia]).
  - rewrite !(count_goto _ _ Count) by exact Hi.
    cbn [goto with_session with_tasks session tasks paused pulls handoffs
           pulling holding].
    split; [exact Hp|lia].
  - rewrite !(count_goto _ _ (Failed e)) by exact Hi.
    cbn [goto with_tasks session tasks paused pulls handoffs pulling
           holding].
    split; [exact Hp|lia].
  - rewrite !(count_goto _ _ Deferred) by exact Hi.
    cbn [goto with_session with_tasks session tasks paused pulls handoffs
           pulling holding].
    split; [exact Hp|lia].
  - split; [exact Hp|lia].
Qed.

Lemma paused_exec acts : forall y,
  forallb is_task acts = true ->
  paused (session y) = true ->
  paused (session (exec env acts y)) = true /\
  fst (pause_budget (exec env acts y)) = fst (pause_budget y) /\
  snd (pause_budget (exec env acts y)) <= snd (pause_budget y).
Proof.
  induction acts as [|a acts IH]; intros y Ha Hp;
    [split; [exact Hp|split; [reflexivity|apply Z.le_refl]]|].
  cbn [forallb] in Ha. apply andb_prop in Ha as [Ha Hacts].
  change (exec env (a :: acts) y) with (exec env acts (step env a y)).
  assert (Hs : paused (session (step env a y)) = true /\
               fst (pause_budget (step env a y)) = fst (pause_budget y) /\
               snd (pause_budget (step env a y)) <= snd (pause_budget y)).
  { unfold step. destruct (panicked y);
      [split; [exact Hp|split; [reflexivity|apply Z.le_refl]]|].
    destruct a as [p|i]; [discriminate|]. now apply paused_task_step. }
  destruct Hs as (Hs1 & Hs2 & Hs3).
  destruct (IH _ Hacts Hs1) as (H1 & H2 & H3).
  split; [exact H1|]. split; [congruence|lia].
Qed.

End Pausing.

(** X8: a pause is honoured after at most one more frame.  From any
    state the session reaches in which [paused] is set, and for as long
    as nobody calls [SetPaused] again, the goroutines together call
    [OpusFrame] at most once more and offer at most one more frame to the
    sink, and [Paused] stays [true]. *)
Theorem pause_stops_after_one_frame
        (env : Stream.Env) (before after : list Stream.action) :
  let y := Stream.exec env before Stream.NewStream in
  let y' := Stream.exec env after y in
  Stream.Paused y = true ->
  forallb StreamInv.is_task after = true ->
  Stream.Paused y' = true /\
  (Stream.pulls y <= Stream.pulls y' <= Stream.pulls y + 1)%nat /\
  (Stream.handoffs y <= Stream.handoffs y' <= Stream.handoffs y + 1)%nat.
Proof.
  intros y y' Hp Ha.
  destruct (paused_exec env after y Ha Hp) as (Hp' & Hb1 & Hb2).
  fold y' in Hp', Hb1, Hb2.
  assert (Hx : forall z, z = y \/ z = y' ->
                 StreamInv.count
                   (fun p => StreamInv.pulling p || StreamInv.holding p)
                   (Stream.tasks z)
                 <= 1).
  { intros z Hz.
    assert (He : StreamInv.exclusive z).
    { destruct Hz as [-> | ->].
      - unfold y. apply (exec_invariant env StreamInv.exclusive);
          [intros a y0; apply exclusive_step|reflexivity].
      - unfold y', y. rewrite <- exec_app.
        apply (exec_invariant env StreamInv.exclusive);
          [intros a y0; apply exclusive_step|reflexivity]. }
    unfold StreamInv.exclusive in He.
    pose proof (count_le (fun p => StreamInv.pulling p || StreamInv.holding p)
                  StreamInv.active (Stream.tasks z)) as Hle.
    assert (Hi : forall p, StreamInv.pulling p || StreamInv.holding p = true
                           -> StreamInv.active p = true)
      by (intros []; cbn; congruence).
    specialize (Hle Hi).
    destruct (Stream.running (Stream.session z)); lia. }
  assert (Hd : forall p, StreamInv.pulling p && StreamInv.holding p = false)
    by (intros []; reflexivity).
  pose proof (Hx y (or_introl eq_refl)) as Hy.
  pose proof (Hx y' (or_intror eq_refl)) as Hy'.
  rewrite <- (count_or _ _ (Stream.tasks y) Hd) in Hy.
  rewrite <- (count_or _ _ (Stream.tasks y') Hd) in Hy'.
  unfold StreamInv.pause_budget in Hb1, Hb2. cbn [fst snd] in Hb1, Hb2.
  pose proof (count_nonneg StreamInv.pulling (Stream.tasks y)).
  pose proof (count_nonneg StreamInv.pulling (Stream.tasks y')).
  pose proof (count_nonneg StreamInv.holding (Stream.tasks y)).
  pose proof (count_nonneg StreamInv.holding (Stream.tasks y')).
  split; [exact Hp'|].
  assert (Hm : forall acts z, (Stream.pulls z <= Stream.pulls
                                 (Stream.exec env acts z))%nat /\
                              (Stream.handoffs z <= Stream.handoffs
                                 (Stream.exec env acts z))%nat).
  { induction acts as [|a acts IH]; intros z; [split; reflexivity|].
    change (Stream.exec env (a :: acts) z)
      with (Stream.exec env acts (Stream.step env a z)).
    destruct (IH (Stream.step env a z)) as [I1 I2].
    assert (Hs : (Stream.pulls z <= Stream.pulls (Stream.step env a z))%nat
                 /\ (Stream.handoffs z
                     <= Stream.handoffs (Stream.step env a z))%nat).
    { unfold Stream.step. destruct (Stream.panicked z); [split; lia|].
      destruct a as [p|i].
      - destruct (SetPaused_counters p z) as (_ & _ & -> & ->). split; lia.
      - unfold Stream.task_step.
        destruct (nth_error (Stream.tasks z) i) as [[| | | | | | |]|];
          try (split; reflexivity).
        + destruct (Stream.running (Stream.session z)); split; reflexivity.
        + destruct (Stream.paused (Stream.session z)); split; reflexivity.
        + destruct (Stream.OpusFrame env (Stream.pulls z)) as [o [e|]];
            cbn [Stream.goto Stream.with_tasks Stream.pulls Stream.handoffs];
            split; lia.
        + destruct (Stream.select_send
                      (Stream.OpusSend env (Stream.handoffs z)))
            as [[|] t];
            cbn [Stream.goto Stream.with_tasks Stream.pulls Stream.handoffs];
            split; lia. }
    split; lia. }
  destruct (Hm after y) as [M1 M2]. fold y' in M1, M2.
  split; lia.
Qed.

Lemma pause_stops_after_one_frame_witness :
  let env := {| Stream.OpusFrame := fun _ => (Some [Byte.x01], None);
                Stream.FrameDuration := 20000000;
                Stream.OpusSend := fun _ => Some 0;
                Stream.has_done := false |} in
  let before := repeat (Stream.Task 0) 6 ++ [Stream.CallSetPaused true] in
  let after := repeat (Stream.Task 0) 10 in
  let y := Stream.exec env before Stream.NewStream in
  let y' := Stream.exec env after y in
  Stream.Paused y' = true /\
  (Stream.pulls y <= Stream.pulls y' <= Stream.pulls y + 1)%nat /\
  (Stream.handoffs y <= Stream.handoffs y' <= Stream.handoffs y + 1)%nat.
Proof.
  intros env before after y y'.
  exact (pause_stops_after_one_frame env before after eq_refl eq_refl).
Defined.

(** ** A session as a reader *)

Section ReaderSimulation.

(** A reader [r] that behaves like the in-memory reader on [abs r]
    whenever at least one byte is asked for. *)
Variable R : Type.
Variable Read : R -> nat -> option (list byte * option error * R).
Variable abs : R -> list byte.
Variable good : R -> Prop.

Hypothesis Read_sim : forall r n,
  good r -> (0 < n)%nat ->
  exists r',
    Read r n = Some (fst (fst (Go.Read (abs r) n)),
                     snd (fst (Go.Read (abs r) n)), r') /\
    abs r' = snd (Go.Read (abs r) n) /\ good r'.

Lemma IO_ReadAtLeast_loop_eq fuel r want got err :
  IO.ReadAtLeast_loop R Read fuel r want got err =
  if (length got <? want)%nat && match err with None => true | _ => false end
  then
    match fuel with
    | O => None
    | S fuel' =>
        match Read r (want - length got) with
        | None => None
        | Some (bs, err', r') =>
            IO.ReadAtLeast_loop R Read fuel' r' want (got ++ bs) err'
        end
    end
  else Some (got, err, r).
Proof. destruct fuel; reflexivity. Qed.

Lemma ReadAtLeast_loop_sim want : forall fuel r got err,
  good r -> (want - length got < fuel)%nat ->
  exists r',
    IO.ReadAtLeast_loop R Read fuel r want got err
    = Some (fst (fst (Go.ReadAtLeast_loop fuel (abs r) want got err)),
            snd (fst (Go.ReadAtLeast_loop fuel (abs r) want got err)), r') /\
    abs r' = snd (Go.ReadAtLeast_loop fuel (abs r) want got err) /\
    good r'.
Proof.
  induction fuel as [|fuel IH]; intros r got err Hg Hf; [lia|].
  rewrite IO_ReadAtLeast_loop_eq, ReadAtLeast_loop_eq.
  destruct ((length got <? want)%nat
            && match err with None => true | _ => false end) eqn:Hc;
    [|exists r; repeat split; assumption].
  apply andb_prop in Hc as [Hlt _]. apply Nat.ltb_lt in Hlt.
  destruct (Read_sim r (want - length got) Hg) as (r1 & Hr & Ha & Hg1);
    [lia|].
  rewrite Hr. unfold Go.Read in *.
  destruct (abs r) as [|b l] eqn:Habs; cbn [fst snd] in *.
  - rewrite IO_ReadAtLeast_loop_eq, ReadAtLeast_loop_eq, andb_false_r.
    exists r1. cbn [fst snd]. repeat split; assumption.
  - rewrite <- Ha. apply IH; [exact Hg1|].
    rewrite length_app, length_firstn. cbn [length]. lia.
Qed.

Lemma ReadFull_sim r want :
  good r ->
  exists r',
    IO.ReadFull R Read r want
    = Some (fst (fst (Go.ReadFull (abs r) want)),
            snd (fst (Go.ReadFull (abs r) want)), r') /\
    abs r' = snd (Go.ReadFull (abs r) want) /\ good r'.
Proof.
  intros Hg. unfold IO.ReadFull, Go.ReadFull.
  destruct (ReadAtLeast_loop_sim want (S want) r [] None Hg)
    as (r' & Hl & Ha & Hg'); [cbn [length]; lia|].
  rewrite Hl.
  destruct (Go.ReadAtLeast_loop (S want) (abs r) want [] None)
    as [[got err] rest].
  cbn [fst snd] in *. exists r'.
  destruct (want <=? length got)%nat; [now repeat split|].
  destruct got as [|b got]; [now repeat split|].
  destruct err as [[]|]; now repeat split.
Qed.

Lemma DecodeFrame_sim r :
  good r ->
  match DecodeFrame (abs r) with
  | Panics msg => IO.DecodeFrame R Read r = Some (Panics msg)
  | Returns (frame, err, rest) =>
      exists r',
        IO.DecodeFrame R Read r = Some (Returns (frame, err, r')) /\
        abs r' = rest /\ good r'
  end.
Proof.
  intros Hg.
  unfold DecodeFrame, IO.DecodeFrame, IO.binary_Read_int16,
    Go.binary_Read_int16, IO.binary_Read_bytes, Go.binary_Read_bytes.
  destruct (ReadFull_sim r 2 Hg) as (r1 & H1 & A1 & G1). rewrite H1.
  destruct (Go.ReadFull (abs r) 2) as [[bs err] rest1].
  cbn [fst snd] in *. subst rest1.
  destruct err as [e|]; [exists r1; now repeat split|].
  destruct (int16 (le_combine bs) <? 0); [reflexivity|].
  destruct (ReadFull_sim r1 (length (make_bytes (int16 (le_combine bs)))) G1)
    as (r2 & H2 & A2 & G2).
  rewrite H2.
  destruct (Go.ReadFull (abs r1) _) as [[bs2 err2] rest2].
  cbn [fst snd] in *. subst rest2.
  destruct err2 as [e|]; exists r2; now repeat split.
Qed.

End ReaderSimulation.

Section SessionReader.

Import Queue QueueSpec Session.

Lemma receive_wf q :
  wf q ->
  exists fr q',
    receive q = Some (fr, q') /\ wf q' /\
    match fr with
    | Some f => future q = f :: future q' /\ (backlog q' < backlog q)%nat
    | None => future q = [] /\ future q' = [] /\ closed q' = true /\
              buf q' = [] /\ pending q' = []
    end.
Proof.
  unfold receive, recv, producer_step, future, backlog. intros Hwf.
  destruct (buf q) as [|f b] eqn:Hb.
  - destruct (closed q) eqn:Hc.
    + destruct Hwf as [[Hc' _]|[_ Hp]]; [congruence|].
      exists None, q. rewrite Hb, Hp.
      repeat split; try reflexivity; try assumption.
      right. now split.
    + destruct Hwf as [[_ [fs Hp]]|[Hc' _]]; [|congruence].
      rewrite Hp. destruct fs as [|f fs]; cbn [produces map app].
      * eexists None, _. cbn [buf closed pending].
        split; [reflexivity|]. split; [right; now split|].
        now repeat split.
      * eexists (Some f), _. split; [reflexivity|].
        cbn [buf closed pending sends app length].
        split; [left; split; [reflexivity|now exists fs]|].
        split; [reflexivity|]. unfold produces. lia.
  - eexists (Some f), _. split; [reflexivity|].
    cbn [buf closed pending app length].
    split; [|split; [reflexivity|lia]].
    destruct Hwf as [[Hc Hp]|[Hc Hp]]; [left|right]; now split.
Qed.

Lemma fill_spec n : forall fuel s,
  wf (frames s) -> (backlog (frames s) < fuel)%nat ->
  exists s',
    fill fuel n s = Some s' /\ wf (frames s') /\ stream s' = stream s /\
    ((n <= length (unread s'))%nat \/ future (frames s') = []).
Proof.
  induction fuel as [|fuel IH]; intros s Hwf Hf; [lia|].
  cbn [fill].
  destruct (Nat.ltb_spec (length (unread s)) n) as [Hlt|Hge];
    [|exists s; repeat split; [exact Hwf|now left]].
  unfold Session.ReadFrame.
  destruct (receive_wf _ Hwf) as (fr & q' & Hr & Hwf' & Hcase).
  rewrite Hr. destruct fr as [f|].
  - destruct Hcase as [Hfut Hb].
    destruct (IH {| unread := unread s ++ f; frames := q' |})
      as (s' & Hs & Hw & Hst & Hor); [exact Hwf'|cbn [frames]; lia|].
    exists s'. split; [exact Hs|]. split; [exact Hw|].
    split; [|exact Hor].
    rewrite Hst. unfold stream. cbn [unread frames].
    rewrite Hfut. cbn [concat]. now rewrite <- app_assoc.
  - destruct Hcase as (Hfut & Hfut' & _).
    eexists. split; [reflexivity|]. cbn [frames unread].
    split; [exact Hwf'|]. split; [|now right].
    unfold stream. cbn [unread frames]. now rewrite Hfut, Hfut'.
Qed.

Lemma session_Read_sim s n :
  wf (frames s) -> (0 < n)%nat ->
  exists s',
    Session.Read s n
    = Some (fst (fst (Go.Read (stream s) n)),
            snd (fst (Go.Read (stream s) n)), s') /\
    stream s' = snd (Go.Read (stream s) n) /\ wf (frames s').
Proof.
  intros Hwf Hn. unfold Session.Read.
  assert (Hfill : exists s',
             (if (n <=? length (unread s))%nat then Some s
              else fill (S (backlog (frames s))) n s) = Some s' /\
             wf (frames s') /\ stream s' = stream s /\
             ((n <= length (unread s'))%nat \/ future (frames s') = [])).
  { destruct (Nat.leb_spec n (length (unread s))) as [Hle|Hgt].
    - exists s. repeat split; [exact Hwf|now left].
    - apply fill_spec; [exact Hwf|lia]. }
  destruct Hfill as (s1 & -> & Hwf1 & Hst & Hor).
  rewrite <- Hst. unfold stream, Buffer_Read, Go.Read.
  destruct (unread s1) as [|b u] eqn:Hu.
  - destruct Hor as [Hle|Hfut]; [cbn [length] in Hle; lia|].
    rewrite Hfut. cbn [concat app].
    destruct (Nat.eqb_spec n 0) as [->|_]; [lia|].
    exists {| unread := []; frames := frames s1 |}.
    cbn [fst snd unread frames]. rewrite Hfut.
    split; [reflexivity|]. split; [reflexivity|exact Hwf1].
  - exists {| unread := skipn n (b :: u); frames := frames s1 |}.
    cbn [fst snd unread frames].
    change ((b :: u) ++ concat (future (frames s1)))
      with (b :: u ++ concat (future (frames s1))).
    cbv beta iota.
    change (b :: u ++ concat (future (frames s1)))
      with ((b :: u) ++ concat (future (frames s1))).
    destruct Hor as [Hle|Hfut].
    + rewrite firstn_app, skipn_app.
      replace (n - length (b :: u))%nat with 0%nat by lia.
      rewrite firstn_O, skipn_O, app_nil_r.
      split; [reflexivity|]. split; [reflexivity|exact Hwf1].
    + rewrite Hfut. cbn [concat]. rewrite !app_nil_r.
      split; [reflexivity|]. split; [reflexivity|exact Hwf1].
Qed.

End SessionReader.

(** X9: a session is a reader of its own stream.  As long as the
    producer ends by closing the queue, [Read] with room for [n >= 1]
    bytes returns, and what it delivers are the next bytes of the frames
    in the order they were queued, the bytes left over from earlier calls
    first: as many as asked for, or all there are if those are fewer; it
    reports [io.EOF] exactly when nothing is left, and no byte is lost or
    repeated between calls. *)
Theorem session_Read_delivers_stream (s : Session.reader) (n : nat) :
  QueueSpec.wf (Session.frames s) ->
  (0 < n)%nat ->
  exists s',
    Session.Read s n
    = Some (firstn n (Session.stream s),
            match Session.stream s with [] => Some EOF | _ => None end,
            s') /\
    Session.stream s' = skipn n (Session.stream s) /\
    QueueSpec.wf (Session.frames s').
Proof.
  intros Hwf Hn.
  destruct (session_Read_sim s n Hwf Hn) as (s' & Hr & Hs & Hw).
  exists s'. rewrite Hr, Hs. unfold Go.Read.
  destruct (Session.stream s) as [|b l]; cbn [fst snd].
  - rewrite firstn_nil, skipn_nil. now repeat split.
  - now repeat split.
Qed.

Lemma session_Read_delivers_stream_witness :
  let s := Session.open
             (Queue.produces [[Byte.x01; Byte.x02]; [Byte.x03]]) 1 in
  exists s1 s2 s3,
    Session.Read s 2 = Some ([Byte.x01; Byte.x02], None, s1) /\
    Session.Read s1 2 = Some ([Byte.x03], None, s2) /\
    Session.Read s2 2 = Some ([], Some EOF, s3).
Proof.
  intros s.
  assert (Hwf : QueueSpec.wf (Session.frames s)) by apply wf_init.
  destruct (session_Read_delivers_stream s 2 Hwf) as (s1 & H1 & E1 & W1);
    [lia|].
  destruct (session_Read_delivers_stream s1 2 W1) as (s2 & H2 & E2 & W2);
    [lia|].
  destruct (session_Read_delivers_stream s2 2 W2) as (s3 & H3 & _);
    [lia|].
  rewrite E2, E1 in H3. rewrite E1 in H2.
  exists s1, s2, s3. split; [exact H1|]. split; [exact H2|exact H3].
Defined.

Lemma session_OpusFrame_sim (s : Session.reader) :
  QueueSpec.wf (Session.frames s) ->
  match DecodeFrame (Session.stream s) with
  | Panics msg => Session.OpusFrame s = Some (Panics msg)
  | Returns (frame, err, rest) =>
      exists s',
        Session.OpusFrame s = Some (Returns (frame, err, s')) /\
        Session.stream s' = rest /\
        QueueSpec.wf (Session.frames s')
  end.
Proof.
  intros Hwf.
  exact (DecodeFrame_sim Session.reader Session.Read Session.stream
           (fun r => QueueSpec.wf (Session.frames r))
           (fun r n H Hn => session_Read_sim r n H Hn) s Hwf).
Qed.

(** X10: [OpusFrame] of a session is [DecodeFrame] on the session's
    stream.  As long as the producer ends by closing the queue, the call
    returns what [DecodeFrame] returns on an in-memory reader holding the
    bytes the session has before it, panics where that panics, and leaves
    the session on the bytes that reader is left on. *)
Theorem session_OpusFrame_decodes_stream (s : Session.reader) :
  QueueSpec.wf (Session.frames s) ->
  match DecodeFrame (Session.stream s) with
  | Panics msg => Session.OpusFrame s = Some (Panics msg)
  | Returns (frame, err, rest) =>
      exists s',
        Session.OpusFrame s = Some (Returns (frame, err, s')) /\
        Session.stream s' = rest /\
        QueueSpec.wf (Session.frames s')
  end.
Proof. apply session_OpusFrame_sim. Qed.

Lemma session_OpusFrame_decodes_stream_witness :
  let s := Session.open
             (Queue.produces [dcaBuf_of [Byte.x0a; Byte.x0b]]) 0 in
  exists s',
    Session.OpusFrame s = Some (Returns (Some [Byte.x0a; Byte.x0b], None, s'))
    /\ Session.stream s' = [].
Proof.
  intros s.
  pose proof (session_OpusFrame_decodes_stream s (wf_init _ _)) as H.
  change (DecodeFrame (Session.stream s))
    with (Returns (Some [Byte.x0a; Byte.x0b], @None error, @nil byte)) in H.
  destruct H as (s' & H1 & H2 & _). exists s'. split; assumption.
Defined.

Section SessionFrames.

Import Queue QueueSpec Session.

Lemma DecodeFrame_nil : DecodeFrame [] = Returns (None, Some EOF, []).
Proof. reflexivity. Qed.

Lemma OpusFrames_session (n : nat) :
  forall (packets : list (list byte)) (s : reader),
    wf (frames s) ->
    Forall (fun p => len p <= 32767) packets ->
    stream s = concat (map dcaBuf_of packets) ->
    exists s',
      OpusFrames n s = Some (Returns (ideal packets n, s')) /\
      stream s' = concat (map dcaBuf_of (skipn n packets)) /\
      wf (frames s').
Proof.
  induction n as [|n IH]; intros packets s Hwf Hall Hst.
  - exists s. now repeat split.
  - cbn [OpusFrames].
    pose proof (session_OpusFrame_sim s Hwf) as Hd.
    rewrite Hst in Hd. destruct packets as [|p packets].
    + cbn [map concat] in Hd. rewrite DecodeFrame_nil in Hd.
      destruct Hd as (s1 & H1 & E1 & W1). rewrite H1.
      destruct (IH [] s1 W1 Hall E1) as (s2 & H2 & E2 & W2).
      rewrite H2. exists s2. rewrite skipn_nil in *.
      now repeat split.
    + cbn [map concat] in Hd. inversion Hall as [|? ? Hp Hall']; subst.
      rewrite DecodeFrame_wire in Hd by exact Hp.
      destruct Hd as (s1 & H1 & E1 & W1). rewrite H1.
      destruct (IH packets s1 W1 Hall' E1) as (s2 & H2 & E2 & W2).
      rewrite H2. exists s2. now repeat split.
Qed.

Lemma stream_open fs capacity :
  stream (Session.open (produces fs) capacity) = concat fs.
Proof.
  unfold stream, Session.open, future, init. cbn [unread frames buf pending app].
  now rewrite sends_produces.
Qed.

End SessionFrames.

Section RunAndRead.

Import Encode.

(** What a session without a prologue sends. *)
Lemma raw_run_sent_frames
      (w : World) (r : option Reader) (path : string) (o : EncodeOptions)
      (e : encodeSession) :
  new_session r path (Some o) = Returns e ->
  RawOutput o = true ->
  StdoutPipe_err w = None ->
  StderrPipe_err w = None ->
  Start_err w = None ->
  Forall PacketSpec.page_ok (Pages w) ->
  snd (run w e) = Normal /\
  sent_frames (trace (fst (run w e)))
  = map dcaBuf_of
      (filter PacketSpec.nonempty (PacketSpec.packets (Pages w))).
Proof.
  intros Hnew Hraw Hout Herr Hstart Hok.
  unfold new_session in Hnew.
  destruct (BufferedFrames o <? 0); [discriminate|].
  injection Hnew as <-.
  unfold run, run_body.
  cbn [set_running options filePath].
  rewrite Hout, Herr, Hstart, Hraw.
  set (e2 := set_process _).
  destruct (readStdout_sent_frames w e2 Hok) as [Hx Hs].
  destruct (readStdout w e2) as [e3 ex]. cbn [fst snd] in Hx, Hs.
  subst ex. unfold e2 in Hs.
  cbn [set_process emit trace app sent_frames] in Hs.
  destruct (Wait_err w) as [msg|];
    [destruct (negb (String.eqb msg "signal: killed"))|];
    cbn [fst snd set_running trace];
    rewrite ?trace_emit, ?sent_frames_app, Hs;
    cbn [sent_frames]; rewrite ?app_nil_r; now split.
Qed.

End RunAndRead.

(** X11: a session with raw output is an [OpusReader] of the packets of
    its transcoder.  When the pipes and the process can be set up, the
    pages are well formed and no packet is longer than 32767 bytes, [n]
    calls of [OpusFrame] on the session all return: they give the
    non-empty packets of the pages in order, each with a nil error, and
    [io.EOF] with a nil frame once the packets are used up. *)
Theorem raw_session_OpusFrames
        (w : Encode.World) (r : option Reader) (path : string)
        (o : Encode.EncodeOptions) (e : Encode.encodeSession) (n : nat) :
  let audio :=
    filter PacketSpec.nonempty (PacketSpec.packets (Encode.Pages w)) in
  Encode.new_session r path (Some o) = Returns e ->
  Encode.RawOutput o = true ->
  Encode.StdoutPipe_err w = None ->
  Encode.StderrPipe_err w = None ->
  Encode.Start_err w = None ->
  Forall PacketSpec.page_ok (Encode.Pages w) ->
  Forall (fun p => len p <= 32767) audio ->
  exists s',
    Session.OpusFrames n
      (Session.open (Queue.chanops (Encode.trace (fst (Encode.run w e))))
         (Encode.BufferedFrames o))
    = Some (Returns (QueueSpec.ideal audio n, s')).
Proof.
  intros audio Hnew Hraw Hout Herr Hstart Hok Haudio.
  destruct (raw_run_sent_frames w r path o e Hnew Hraw Hout Herr Hstart Hok)
    as [Hx Hs].
  rewrite (run_produces w r path o e Hnew Hx), Hs.
  destruct (OpusFrames_session n audio
              (Session.open (Queue.produces (map dcaBuf_of audio))
                 (Encode.BufferedFrames o)))
    as (s' & H & _); [apply wf_init|exact Haudio|apply stream_open|].
  exists s'. exact H.
Qed.

Lemma raw_session_OpusFrames_witness :
  let w := Samples.world_of_pages
             [Samples.small_page; Samples.empty_segment_page] in
  exists e s',
    Encode.EncodeFile "song.ogg" (Some Samples.loud_options) = Returns e /\
    Session.OpusFrames 3
      (Session.open (Queue.chanops (Encode.trace (fst (Encode.run w e))))
         100)
    = Some (Returns ([(Some [Byte.x0a; Byte.x0b; Byte.x0c], None);
                      (None, Some EOF); (None, Some EOF)], s')).
Proof.
  intros w.
  assert (Hok : Forall PacketSpec.page_ok
                  [Samples.small_page; Samples.empty_segment_page])
    by (repeat constructor; vm_compute; discriminate).
  assert (Ha : Forall (fun p => len p <= 32767)
                 [[Byte.x0a; Byte.x0b; Byte.x0c]])
    by (repeat constructor; vm_compute; discriminate).
  destruct (raw_session_OpusFrames w None "song.ogg" Samples.loud_options
              _ 3 eq_refl eq_refl eq_refl eq_refl eq_refl Hok Ha)
    as [s' H].
  eexists. exists s'. split; [reflexivity|exact H].
Defined.

(** X12: on a session that writes a prologue, [OpusFrame] does not
    return opus packets.  For a pipe source without raw output whose
    metadata can be marshalled and whose [run] does not panic, the
    session's stream begins with the prologue, and the first call of
    [OpusFrame] takes the letters [DC] of the magic bytes for the length
    prefix 17220: it returns the 17220 bytes that follow them as a frame,
    or, when the whole stream is shorter, a frame of 17220 zero bytes with
    [io.ErrUnexpectedEOF]. *)
Theorem prologue_read_as_frame
        (w : Encode.World) (r : Reader) (o : Encode.EncodeOptions)
        (e : Encode.encodeSession) (jsonData : list byte) :
  let s := Session.open
             (Queue.chanops (Encode.trace (fst (Encode.run w e))))
             (Encode.BufferedFrames o) in
  let body := skipn 2 (Session.stream s) in
  Encode.EncodeMem r (Some o) = Returns e ->
  Encode.RawOutput o = false ->
  Encode.StdoutPipe_err w = None ->
  Encode.StderrPipe_err w = None ->
  Encode.Start_err w = None ->
  (forall m, Encode.json_Marshal w m = (jsonData, None)) ->
  snd (Encode.run w e) = Encode.Normal ->
  firstn 4 (Session.stream s) = list_byte_of_string "DCA1" /\
  exists s',
    Session.OpusFrame s
    = Some (Returns
              (if 17220 <=? len body
               then (Some (firstn (Z.to_nat 17220) body), None, s')
               else (Some (make_bytes 17220), Some ErrUnexpectedEOF, s'))).
Proof.
  intros s body Hnew Hraw Hout Herr Hstart Hjson Hx.
  destruct (prologue_precedes_launch_for_pipe_sources
              w r o e jsonData Hnew Hraw Hout Herr Hstart Hjson)
    as [rest Ht].
  assert (Hst : Session.stream s
                = list_byte_of_string "DC"
                    ++ (list_byte_of_string "A1"
                          ++ binary_Write_int32 (int32 (len jsonData))
                          ++ jsonData
                          ++ concat (Encode.sent_frames rest))).
  { unfold s. unfold Encode.EncodeMem in Hnew.
    rewrite (run_produces w (Some r) ""%string o e Hnew Hx), stream_open.
    rewrite Ht. cbn [Encode.sent_frames concat].
    rewrite <- !app_assoc. reflexivity. }
  split; [rewrite Hst; reflexivity|].
  assert (Hwf : QueueSpec.wf (Session.frames s)).
  { unfold s. unfold Encode.EncodeMem in Hnew.
    rewrite (run_produces w (Some r) ""%string o e Hnew Hx).
    apply wf_init. }
  pose proof (session_OpusFrame_sim s Hwf) as Hd.
  unfold body. rewrite Hst in *.
  change (list_byte_of_string "DC") with (binary_Write_int16 17220) in *.
  rewrite DecodeFrame_after_prefix in Hd by lia.
  change (skipn 2 (binary_Write_int16 17220 ++ ?x)) with x.
  set (b := list_byte_of_string "A1" ++ _) in *.
  unfold binary_Read_bytes in Hd. rewrite length_make_bytes in Hd.
  destruct (Z.leb_spec 17220 (len b)) as [Hle|Hgt].
  - rewrite ReadFull_enough in Hd by (unfold len in Hle; lia).
    destruct Hd as (s' & H & _). exists s'. exact H.
  - rewrite ReadFull_short in Hd.
    + destruct Hd as (s' & H & _). exists s'. exact H.
    + assert (Hb : (2 <= length b)%nat)
        by (unfold b; rewrite length_app;
            change (length (list_byte_of_string "A1")) with 2%nat; lia).
      unfold len in Hgt. lia.
Qed.

Lemma prologue_read_as_frame_witness :
  let w := Samples.world_of_pages [Samples.small_page] in
  exists e s',
    Encode.EncodeMem [] (Some Encode.StdEncodeOptions) = Returns e /\
    Session.OpusFrame
      (Session.open (Queue.chanops (Encode.trace (fst (Encode.run w e))))
         100)
    = Some (Returns (Some (make_bytes 17220), Some ErrUnexpectedEOF, s')).
Proof.
  intros w.
  destruct (prologue_read_as_frame w [] Encode.StdEncodeOptions _
              (list_byte_of_string "{}")
              eq_refl eq_refl eq_refl eq_refl eq_refl (fun m => eq_refl)
              eq_refl)
    as [_ [s' H]].
  eexists. exists s'. split; [reflexivity|exact H].
Defined.

(** ** Throwing the rest of a session away *)

Section Truncating.

Import Queue QueueSpec Session.

Lemma drain_spec : forall fuel q,
  wf q -> (backlog q < fuel)%nat ->
  exists q',
    drain fuel q = Some q' /\
    closed q' = true /\ buf q' = [] /\ pending q' = [].
Proof.
  induction fuel as [|fuel IH]; intros q Hwf Hf; [lia|].
  cbn [drain].
  destruct (receive_wf q Hwf) as (fr & q1 & Hr & Hwf1 & Hcase).
  rewrite Hr. destruct fr as [f|].
  - destruct Hcase as [_ Hb]. apply IH; [exact Hwf1|lia].
  - destruct Hcase as (_ & _ & Hc & Hb & Hp).
    exists q1. now repeat split.
Qed.

Lemma Lock_wf m q :
  wf q ->
  (m = HeldByRun true -> len (buf q) < cap q) ->
  exists q1, Lock m q = Some q1 /\ wf q1.
Proof.
  intros Hwf Hroom. unfold Lock.
  destruct m as [|[|]]; try (exists q; now split).
  destruct (pending q) as [|[f|] ops] eqn:Hp; try (exists q; now split).
  destruct (producer_step q) as [q1|] eqn:Hs.
  - exists q1. split; [reflexivity|].
    apply (producer_step_wf q q1 Hwf Hs).
  - unfold producer_step in Hs. rewrite Hp in Hs.
    destruct (Z.ltb_spec (len (buf q)) (cap q)); [discriminate|].
    specialize (Hroom eq_refl). lia.
Qed.

End Truncating.

(** X13: [Truncate] returns and leaves nothing to read, once [Stop] can
    get the mutex.  Take any buffered frames and any producer that ends by
    closing the queue; let the mutex be free, or held by [run] with no
    prologue left to send, or held by [run] with the prologue still to be
    sent and room for it in the channel.  Then [Stop] returns, the loop of
    [Truncate] ends, the queue is closed and empty, the producer has
    nothing left to do, and [ReadFrame] returns [io.EOF] from then on.
    The transcoder is signalled exactly when the session is running and
    has a process. *)
Theorem Truncate_drains
        (Kill_err : option error) (m : Session.mutex)
        (e : Encode.encodeSession) (q : Queue.state) :
  QueueSpec.wf q ->
  (m = Session.HeldByRun true -> len (Queue.buf q) < Queue.cap q) ->
  exists q',
    Session.Truncate Kill_err m e q
    = Some (Encode.running e && Encode.process e, q') /\
    Queue.closed q' = true /\ Queue.buf q' = [] /\ Queue.pending q' = [] /\
    Queue.ReadFrame q' = Some (None, Some EOF, q') /\
    Session.ReadFrame q' = Some (None, Some EOF, q').
Proof.
  intros Hwf Hroom. unfold Session.Truncate, Session.Stop.
  destruct (Lock_wf m q Hwf Hroom) as (q1 & Hl & Hwf1). rewrite Hl.
  destruct (drain_spec (S (Session.backlog q1)) q1 Hwf1)
    as (q' & Hd & Hc & Hb & Hp); [lia|].
  exists q'.
  split.
  { destruct (Encode.running e), (Encode.process e); cbn [negb orb andb];
      rewrite Hd; reflexivity. }
  split; [exact Hc|]. split; [exact Hb|]. split; [exact Hp|].
  unfold Session.ReadFrame, Session.receive, Queue.ReadFrame, Queue.recv.
  rewrite Hb, Hc. split; reflexivity.
Qed.

Lemma Truncate_drains_witness :
  exists q',
    Session.Truncate None (Session.HeldByRun true)
      (Samples.file_session Encode.StdEncodeOptions)
      (Queue.init (Queue.produces [[Byte.x01]; [Byte.x02]; [Byte.x03]]) 2)
    = Some (false, q') /\
    Queue.ReadFrame q' = Some (None, Some EOF, q').
Proof.
  destruct (Truncate_drains None (Session.HeldByRun true)
              (Samples.file_session Encode.StdEncodeOptions)
              (Queue.init
                 (Queue.produces [[Byte.x01]; [Byte.x02]; [Byte.x03]]) 2)
              (wf_init _ _) (fun _ => eq_refl))
    as (q' & H1 & _ & _ & _ & H2 & _).
  exists q'. split; [exact H1|exact H2].
Defined.

(** ** When the transcoder cannot be set up *)

Section SetupFailure.

Import Encode.

Lemma writeMetadataFrame_sends_once w o e :
  (length (sent_frames (trace (fst (writeMetadataFrame w o e))))
   <= length (sent_frames (trace e)) + 1)%nat.
Proof.
  assert (Hp : forall m x,
             (length (sent_frames (trace x))
              <= length (sent_frames (trace e)))%nat ->
             (length (sent_frames (trace (write_prologue w m x)))
              <= length (sent_frames (trace e)) + 1)%nat).
  { intros m x Hx. unfold write_prologue.
    destruct (json_Marshal w m) as [jsonData [err|]];
      rewrite trace_emit, sent_frames_app, length_app;
      cbn [sent_frames length]; lia. }
  assert (Hl : forall msg x,
             (length (sent_frames (trace x))
              <= length (sent_frames (trace e)))%nat ->
             (length (sent_frames (trace (emit (EvLog msg) x)))
              <= length (sent_frames (trace e)) + 1)%nat).
  { intros msg x Hx.
    rewrite trace_emit, sent_frames_app, length_app;
      cbn [sent_frames length]; lia. }
  assert (He : forall ev x, plain ev = true ->
             match ev with EvSend _ => False | _ => True end ->
             (length (sent_frames (trace x))
              <= length (sent_frames (trace e)))%nat ->
             (length (sent_frames (trace (emit ev x)))
              <= length (sent_frames (trace e)))%nat).
  { intros ev x _ Hev Hx.
    rewrite trace_emit, sent_frames_app, length_app.
    destruct ev; try contradiction; cbn [sent_frames length]; lia. }
  unfold writeMetadataFrame.
  destruct (pipeReader e); cbn [fst]; [apply Hp; lia|].
  destruct (ffprobe_Start_err w); cbn [fst]; [apply Hl; lia|].
  destruct (ffprobe_Wait_err w); cbn [fst];
    [apply Hl, He; [reflexivity|exact I|lia]|].
  destruct (ffprobe_Unmarshal w) as [err| |format]; cbn [fst];
    [apply Hl, He; [reflexivity|exact I|lia]
    |transitivity (length (sent_frames (trace e)));
       [apply He; [reflexivity|exact I|lia]|lia]|].
  destruct (Atoi _) as [bitrateInt [err|]]; cbn [fst];
    [apply Hl, He; [reflexivity|exact I|lia]|].
  destruct (cover_Start_err w); cbn [fst];
    [apply Hl, He; [reflexivity|exact I|lia]|].
  apply Hp, He; [reflexivity|exact I|].
  apply He; [reflexivity|exact I|lia].
Qed.

Lemma run_setup_failure_trace w r path o e :
  new_session r path (Some o) = Returns e ->
  StdoutPipe_err w <> None \/ StderrPipe_err w <> None \/
  Start_err w <> None ->
  snd (run w e) = Normal ->
  exists more msg,
    trace (fst (run w e)) = more ++ [EvLog msg; EvClose] /\
    forallb plain more = true /\
    (length (sent_frames more)
     <= match StdoutPipe_err w, StderrPipe_err w with
        | None, None => 1
        | _, _ => 0
        end)%nat.
Proof.
  intros Hnew Hfail Hx.
  unfold new_session in Hnew.
  destruct (BufferedFrames o <? 0); [discriminate|].
  injection Hnew as <-.
  unfold run, run_body in *.
  cbn [set_running options filePath] in *.
  destruct (StdoutPipe_err w).
  { exists [], "StdoutPipe Error:"%string. now repeat split. }
  destruct (StderrPipe_err w).
  { exists [], "StderrPipe Error:"%string. now repeat split. }
  destruct (Start_err w) as [smsg|];
    [|destruct Hfail as [H|[H|H]]; congruence].
  set (e0 := set_running true _) in *.
  pose proof (steady_prologue_step w o e0) as Hq.
  assert (Hone : (length (sent_frames
                            (trace (fst (if RawOutput o then (e0, Normal)
                                         else writeMetadataFrame w o e0))))
                  <= 1)%nat).
  { destruct (RawOutput o); [cbn; lia|].
    apply (writeMetadataFrame_sends_once w o e0). }
  destruct (if RawOutput o then (e0, Normal)
            else writeMetadataFrame w o e0) as [e1 [|pmsg]];
    [|discriminate].
  cbn [fst snd set_running trace] in *.
  destruct Hq as (more & Hm & Pm).
  unfold e0 in Hm. cbn [set_running trace app] in Hm.
  exists more, "RunStart Error:"%string.
  rewrite !trace_emit, Hm, <- !app_assoc. cbn [app].
  split; [reflexivity|]. split; [exact Pm|].
  rewrite Hm in Hone. exact Hone.
Qed.

End SetupFailure.

(** X14: when the transcoder cannot be set up, [run] ends the stream
    instead of leaving its readers waiting.  If a pipe cannot be opened or
    [ffmpeg] cannot be started (and [run] does not panic), no transcoder
    is launched and the queue is closed, once: after nothing at all when
    a pipe failed, after the prologue at most when the start failed.  The
    session ends not running, and [Stop] answers [Not running] without
    signalling any process; [run] having returned, the mutex is free and
    both calls return. *)
Theorem run_setup_failure
        (w : Encode.World) (r : option Reader) (path : string)
        (o : Encode.EncodeOptions) (e : Encode.encodeSession) :
  let e' := fst (Encode.run w e) in
  Encode.new_session r path (Some o) = Returns e ->
  Encode.StdoutPipe_err w <> None \/ Encode.StderrPipe_err w <> None \/
  Encode.Start_err w <> None ->
  snd (Encode.run w e) = Encode.Normal ->
  Encode.launches (Encode.trace e') = [] /\
  (exists fs,
     Queue.chanops (Encode.trace e') = Queue.produces fs /\
     (length fs
      <= match Encode.StdoutPipe_err w, Encode.StderrPipe_err w with
         | None, None => 1
         | _, _ => 0
         end)%nat) /\
  (forall q, Session.Running Session.Free e' q = Some (false, q)) /\
  forall Kill_err q,
    Session.Stop Kill_err Session.Free e' q
    = Some (Some (ErrorsNew "Not running"), false, q).
Proof.
  intros e' Hnew Hfail Hx.
  assert (Hrun : Encode.running e' = false).
  { unfold e', Encode.run. destruct (Encode.run_body w e). reflexivity. }
  assert (Hrunning : forall q,
             Session.Running Session.Free e' q = Some (false, q)).
  { intros q. unfold Session.Running, Session.Lock. now rewrite Hrun. }
  assert (Hstop : forall Kill_err q,
             Session.Stop Kill_err Session.Free e' q
             = Some (Some (ErrorsNew "Not running"), false, q)).
  { intros k q. unfold Session.Stop, Session.Lock. now rewrite Hrun. }
  destruct (run_setup_failure_trace w r path o e Hnew Hfail Hx)
    as (more & msg & Ht & Pm & Hone).
  fold e' in Ht. rewrite Ht.
  split; [|split; [|split; [exact Hrunning|exact Hstop]]].
  - rewrite launches_app, (launches_plain _ Pm). reflexivity.
  - exists (Encode.sent_frames more). split; [|exact Hone].
    rewrite chanops_app, (chanops_plain _ Pm). reflexivity.
Qed.

Lemma run_setup_failure_witness :
  let w0 := Samples.world_of_pages [Samples.small_page] in
  let w :=
    {| Encode.StdoutPipe_err := None;
       Encode.StderrPipe_err := None;
       Encode.Start_err :=
         Some (ExecError "exec: ffmpeg: executable file not found in $PATH");
       Encode.Wait_err := None;
       Encode.Pages := Encode.Pages w0;
       Encode.Decode_err := EOF;
       Encode.ffprobe_Start_err := None;
       Encode.ffprobe_Wait_err := None;
       Encode.ffprobe_Unmarshal := Encode.ffprobe_Unmarshal w0;
       Encode.cover_Start_err := None;
       Encode.cover_Wait_err := Encode.cover_Wait_err w0;
       Encode.cover_Stdout := [];
       Encode.jpeg_to_png := Encode.jpeg_to_png w0;
       Encode.base64_EncodeToString := Encode.base64_EncodeToString w0;
       Encode.json_Marshal := Encode.json_Marshal w0 |} in
  exists e,
    Encode.EncodeFile "song.ogg" (Some Encode.StdEncodeOptions) = Returns e /\
    Encode.launches (Encode.trace (fst (Encode.run w e))) = [] /\
    forall q,
      Session.Running Session.Free (fst (Encode.run w e)) q
      = Some (false, q).
Proof.
  intros w0 w.
  assert (Hfail : Encode.StdoutPipe_err w <> None \/
                  Encode.StderrPipe_err w <> None \/
                  Encode.Start_err w <> None)
    by (right; right; discriminate).
  destruct (run_setup_failure w None "song.ogg" Encode.StdEncodeOptions _
              eq_refl Hfail eq_refl)
    as (H1 & _ & H3 & _).
  eexists. split; [reflexivity|]. split; [exact H1|exact H3].
Defined.

(** ** Damaged prologues *)

Section DamagedPrologue.

Variable MetadataDoc : Type.
Variable json_Unmarshal : list byte -> option MetadataDoc * option string.

Lemma ReadMetadata_after_version
      (d : Decode.Decoder MetadataDoc) (v : byte) (n : Z) (tail : Reader) :
  Decode.r _ d = Decode.magic ++ v :: tail ->
  digit_of v = Some n ->
  Decode.ReadMetadata _ json_Unmarshal d
  = let '(metaLen, err, r2) := binary_Read_int32 tail 0 in
    match err with
    | Some e =>
        Returns ({| Decode.Metadata := Decode.Metadata _ d;
                    Decode.FormatVersion := n; Decode.r := r2 |}, Some e)
    | None =>
        if metaLen <? 0 then Panics "makeslice: len out of range"
        else
          let '(jsonBuf, err, r3) :=
            binary_Read_bytes r2 (make_bytes metaLen) in
          match err with
          | Some e =>
              Returns ({| Decode.Metadata := Decode.Metadata _ d;
                          Decode.FormatVersion := n; Decode.r := r3 |},
                       Some e)
          | None =>
              let '(metadata, jerr) := json_Unmarshal jsonBuf in
              Returns ({| Decode.Metadata := metadata;
                          Decode.FormatVersion := n; Decode.r := r3 |},
                       option_map JSONError jerr)
          end
    end.
Proof.
  intros Hr Hv. unfold Decode.ReadMetadata. rewrite Hr.
  change (Decode.read_fingerprint (Decode.magic ++ v :: tail))
    with (Decode.magic ++ [v], @None error, tail).
  change (firstn 3 (Decode.magic ++ [v])) with Decode.magic.
  destruct (list_eq_dec Byte.byte_eq_dec Decode.magic Decode.magic);
    [|congruence].
  change (skipn 3 (Decode.magic ++ [v])) with [v].
  rewrite ParseInt10_one_byte, Hv. cbn [negb].
  destruct (binary_Read_int32 tail 0) as [[metaLen err] r2].
  destruct err as [e1|]; [reflexivity|].
  destruct (metaLen <? 0); [reflexivity|].
  destruct (binary_Read_bytes r2 (make_bytes metaLen)) as [[jsonBuf err] r3].
  destruct err as [e2|]; reflexivity.
Qed.

(** X15: a prologue that is cut off or carries a negative length.  After
    the magic bytes and a version digit [n], [ReadMetadata] has set
    [FormatVersion] to [n] (any digit is taken, not only 1) and left
    [Metadata] alone when it fails: a stream that ends inside the four
    length bytes, or before the announced [k] bytes of JSON are there,
    gives [io.EOF] when nothing of the missing field is present and
    [io.ErrUnexpectedEOF] when part of it is; a negative length makes
    [make] panic. *)
Theorem ReadMetadata_damaged_prologue
        (d : Decode.Decoder MetadataDoc) (v : byte) (n : Z) :
  digit_of v = Some n ->
  (forall hdr,
      Decode.r _ d = Decode.magic ++ v :: hdr -> (length hdr < 4)%nat ->
      Decode.ReadMetadata _ json_Unmarshal d
      = Returns ({| Decode.Metadata := Decode.Metadata _ d;
                    Decode.FormatVersion := n; Decode.r := [] |},
                 Some match hdr with
                      | [] => EOF
                      | _ => ErrUnexpectedEOF
                      end)) /\
  (forall k body,
      Decode.r _ d = Decode.magic ++ v :: binary_Write_int32 k ++ body ->
      0 <= k < 2 ^ 31 -> len body < k ->
      Decode.ReadMetadata _ json_Unmarshal d
      = Returns ({| Decode.Metadata := Decode.Metadata _ d;
                    Decode.FormatVersion := n; Decode.r := [] |},
                 Some match body with
                      | [] => EOF
                      | _ => ErrUnexpectedEOF
                      end)) /\
  (forall k rest,
      Decode.r _ d = Decode.magic ++ v :: binary_Write_int32 k ++ rest ->
      - 2 ^ 31 <= k < 0 ->
      Decode.ReadMetadata _ json_Unmarshal d
      = Panics "makeslice: len out of range").
Proof.
  intros Hv. split; [|split].
  - intros hdr Hr Hlen.
    rewrite (ReadMetadata_after_version d v n hdr Hr Hv).
    unfold binary_Read_int32.
    destruct hdr as [|b hdr].
    + rewrite ReadFull_empty by lia. reflexivity.
    + rewrite ReadFull_short by (cbn [length] in *; lia). reflexivity.
  - intros k body Hr Hk Hlen.
    rewrite (ReadMetadata_after_version d v n _ Hr Hv).
    rewrite binary_Read_Write_int32 by lia.
    destruct (Z.ltb_spec k 0); [lia|].
    unfold binary_Read_bytes. rewrite length_make_bytes.
    destruct body as [|b body].
    + rewrite ReadFull_empty by (unfold len in Hlen; cbn [length] in Hlen; lia).
      reflexivity.
    + rewrite ReadFull_short by (unfold len in Hlen; cbn [length] in *; lia).
      reflexivity.
  - intros k rest Hr Hk.
    rewrite (ReadMetadata_after_version d v n _ Hr Hv).
    rewrite binary_Read_Write_int32 by lia.
    destruct (Z.ltb_spec k 0); [reflexivity|lia].
Qed.

End DamagedPrologue.

Lemma ReadMetadata_damaged_prologue_witness :
  let unm := fun _ : list byte => (@None unit, @None string) in
  Decode.ReadMetadata unit unm
    (Decode.NewDecoder unit
       (Decode.magic ++ Byte.x37 :: [Byte.x05; Byte.x00]))
  = Returns ({| Decode.Metadata := None; Decode.FormatVersion := 7;
                Decode.r := [] |}, Some ErrUnexpectedEOF) /\
  Decode.ReadMetadata unit unm
    (Decode.NewDecoder unit
       (Decode.magic ++ Byte.x31 :: binary_Write_int32 (-1) ++ [Byte.x7b]))
  = Panics "makeslice: len out of range".
Proof.
  intros unm.
  destruct (ReadMetadata_damaged_prologue unit unm
              (Decode.NewDecoder unit
                 (Decode.magic ++ Byte.x37 :: [Byte.x05; Byte.x00]))
              Byte.x37 7 eq_refl) as (H1 & _ & _).
  destruct (ReadMetadata_damaged_prologue unit unm
              (Decode.NewDecoder unit
                 (Decode.magic ++ Byte.x31
                    :: binary_Write_int32 (-1) ++ [Byte.x7b]))
              Byte.x31 1 eq_refl) as (_ & _ & H3).
  split.
  - apply (H1 [Byte.x05; Byte.x00]); [reflexivity|cbn; lia].
  - apply (H3 (-1) [Byte.x7b]); [reflexivity|lia].
Defined.

(** ** The status lines of the transcoder *)

Section StatusLines.

Variable float32 : Type.
Variable Duration_of_float32 : float32 -> Z.
Variable string_of_rune : Z -> string.
Variable Sscanf : string -> Stderr.scanned float32 * option error.
Variable float32_zero : float32.

Lemma readStderr_loop_line (l : list Z) : forall rest outBuf st,
  forallb (fun r => negb (Stderr.terminator r)) l = true ->
  Stderr.readStderr_loop float32 Duration_of_float32 string_of_rune Sscanf
    (l ++ rest) outBuf st
  = Stderr.readStderr_loop float32 Duration_of_float32 string_of_rune Sscanf
      rest
      (fold_left (fun s r => (s ++ string_of_rune r)%string) l outBuf) st.
Proof.
  induction l as [|r l IH]; intros rest outBuf st Hl; [reflexivity|].
  cbn [forallb] in Hl. apply andb_prop in Hl as [Hr Hl].
  cbn [app Stderr.readStderr_loop fold_left].
  destruct (Stderr.terminator r); [discriminate|].
  now apply IH.
Qed.

Lemma readStderr_loop_lines (ls : list (list Z * Z)) : forall tail st,
  forallb Stderr.complete ls = true ->
  forallb (fun r => negb (Stderr.terminator r)) tail = true ->
  Stderr.readStderr_loop float32 Duration_of_float32 string_of_rune Sscanf
    (concat (map Stderr.wire ls) ++ tail) "" st
  = fold_left
      (fun st line =>
         Stderr.handleStderrLine float32 Duration_of_float32 Sscanf line st)
      (filter Stderr.nonblank
         (map (fun lt => Stderr.text string_of_rune (fst lt)) ls))
      st.
Proof.
  induction ls as [|[l t] ls IH]; intros tail st Hls Htail.
  - cbn [map concat app filter fold_left].
    rewrite <- (app_nil_r tail), readStderr_loop_line by exact Htail.
    reflexivity.
  - cbn [forallb] in Hls. apply andb_prop in Hls as [Hc Hls].
    unfold Stderr.complete in Hc. cbn [fst snd] in Hc.
    apply andb_prop in Hc as [Hl Ht].
    cbn [map concat filter fst]. unfold Stderr.wire at 1. cbn [fst snd].
    rewrite <- !app_assoc, readStderr_loop_line by exact Hl.
    cbn [app Stderr.readStderr_loop]. rewrite Ht.
    fold (Stderr.text string_of_rune l). unfold Stderr.nonblank at 1.
    destruct (0 <? String.length (Stderr.text string_of_rune l))%nat eqn:Hn.
    + cbn [fold_left]. apply IH; assumption.
    + assert (He : Stderr.text string_of_rune l = ""%string).
      { destruct (Stderr.text string_of_rune l); [reflexivity|discriminate]. }
      rewrite He. apply IH; assumption.
Qed.

Lemma find_snoc {A} (f : A -> bool) (xs : list A) (x : A) :
  find f (xs ++ [x])
  = match find f xs with
    | Some y => Some y
    | None => if f x then Some x else None
    end.
Proof.
  induction xs as [|y xs IH]; cbn [app find]; [reflexivity|].
  destruct (f y); [reflexivity|exact IH].
Qed.

Lemma Stats_fold (lines : list string) : forall st,
  Stderr.lastStats float32
    (fold_left
       (fun st line =>
          Stderr.handleStderrLine float32 Duration_of_float32 Sscanf line st)
       lines st)
  = match find Stderr.is_stats (rev lines) with
    | Some line =>
        Some (Stderr.stats_of float32 Duration_of_float32 Sscanf line)
    | None => Stderr.lastStats float32 st
    end.
Proof.
  induction lines as [|line lines IH]; intros st; [reflexivity|].
  cbn [fold_left rev]. rewrite IH.
  rewrite find_snoc.
  destruct (find Stderr.is_stats (rev lines)); [reflexivity|].
  unfold Stderr.handleStderrLine.
  destruct (Stderr.is_stats line); reflexivity.
Qed.

(** X17: [readStderr] hands [handleStderrLine] the complete lines of the
    transcoder's output and nothing else.  On a stream made of lines that
    each end in a line feed or a carriage return, followed by a [tail]
    without terminator, the reader handles the non-blank lines in order
    and never the tail; so the snapshot [Stats] returns afterwards is the
    one of the last complete line that begins with [size=], whether or
    not that line could be scanned in full, and the earlier snapshot when
    there is no such line: a status line that is still unterminated when
    the stream ends is not reported. *)
Theorem readStderr_reports_last_complete_status_line
        (ls : list (list Z * Z)) (tail : list Z) (err : error)
        (st : Stderr.state float32) :
  let after :=
    Stderr.readStderr float32 Duration_of_float32 string_of_rune Sscanf
      (concat (map Stderr.wire ls) ++ tail) err st in
  let lines :=
    filter Stderr.nonblank
      (map (fun lt => Stderr.text string_of_rune (fst lt)) ls) in
  forallb Stderr.complete ls = true ->
  forallb (fun r => negb (Stderr.terminator r)) tail = true ->
  Stderr.lastStats float32 after
  = Stderr.lastStats float32
      (fold_left
         (fun st line =>
            Stderr.handleStderrLine float32 Duration_of_float32 Sscanf
              line st)
         lines st) /\
  Stderr.Stats float32 float32_zero after
  = match find Stderr.is_stats (rev lines) with
    | Some line => Stderr.stats_of float32 Duration_of_float32 Sscanf line
    | None => Stderr.Stats float32 float32_zero st
    end.
Proof.
  intros after lines Hls Htail.
  assert (H : Stderr.lastStats float32 after
              = Stderr.lastStats float32
                  (fold_left
                     (fun st line =>
                        Stderr.handleStderrLine float32 Duration_of_float32
                          Sscanf line st)
                     lines st)).
  { unfold after, Stderr.readStderr.
    rewrite readStderr_loop_lines by assumption.
    destruct err; reflexivity. }
  split; [exact H|].
  unfold Stderr.Stats. rewrite H, Stats_fold.
  destruct (find Stderr.is_stats (rev lines)); reflexivity.
Qed.

End StatusLines.

Lemma readStderr_reports_last_complete_status_line_witness :
  let string_of_rune := fun r => String (ascii_of_nat (Z.to_nat r)) "" in
  let Sscanf := fun line : string =>
    ({| Stderr.size := Z.of_nat (String.length line); Stderr.timeH := 0;
        Stderr.timeM := 1; Stderr.timeS := 30; Stderr.bitrate := 64;
        Stderr.speed := 2 |}, @None error) in
  let ls := [([115; 105; 122; 101; 61; 49], 13); ([], 10);
             ([104; 105], 10)] in
  let tail := [115; 105; 122; 101; 61; 50; 50] in
  Stderr.Stats Z 0
    (Stderr.readStderr Z (fun s => s) string_of_rune Sscanf
       (concat (map Stderr.wire ls) ++ tail) EOF
       {| Stderr.lastStats := None; Stderr.log := [] |})
  = {| Stderr.Size := 6; Stderr.Duration := 90000000000;
       Stderr.Bitrate := 64; Stderr.Speed := 2 |}.
Proof.
  intros string_of_rune Sscanf ls tail.
  exact (proj2 (readStderr_reports_last_complete_status_line
                  Z (fun s => s) string_of_rune Sscanf 0 ls tail EOF
                  {| Stderr.lastStats := None; Stderr.log := [] |}
                  eq_refl eq_refl)).
Defined.

(** ** The size of a PCM frame *)

(** X16: for options that [Validate] accepts, [PCMFrameLen] is the number
    of samples of a frame at 48 kHz: 48 per millisecond of frame duration
    and per channel (as an [int]); the sample rate of the options plays
    no part in it. *)
Theorem PCMFrameLen_validated (o : Encode.EncodeOptions) :
  Encode.Validate o = None ->
  Encode.PCMFrameLen o
  = int64 (48 * Encode.Channels o * Encode.FrameDuration o).
Proof.
  unfold Encode.Validate, Encode.PCMFrameLen. intros Hv.
  destruct ((Encode.Volume o <? 0) || (512 <? Encode.Volume o));
    [discriminate|].
  rewrite int64_mul_l.
  destruct (Z.eqb_spec (Encode.FrameDuration o) 20) as [->|_];
    [f_equal; change (Z.quot 20 20) with 1; lia|].
  destruct (Z.eqb_spec (Encode.FrameDuration o) 40) as [->|_];
    [f_equal; change (Z.quot 40 20) with 2; lia|].
  destruct (Z.eqb_spec (Encode.FrameDuration o) 60) as [->|_];
    [f_equal; change (Z.quot 60 20) with 3; lia|].
  discriminate.
Qed.

Lemma PCMFrameLen_validated_witness :
  Encode.Validate Encode.StdEncodeOptions = None /\
  Encode.PCMFrameLen Encode.StdEncodeOptions = 1920.
Proof.
  split; [reflexivity|].
  exact (PCMFrameLen_validated Encode.StdEncodeOptions eq_refl).
Defined.

(** ** The producer that cuts raw output into chunks *)

Section ChunkedProducer.

Import Encode Chunked.

Lemma chunked_frames_aux (o : EncodeOptions) (m : nat) :
  0 < inBuf_len o <= 32767 ->
  forall data tr, (length data <= m)%nat ->
  exists chunks tail,
    data = concat chunks ++ tail /\
    Forall (fun c => len c = inBuf_len o) chunks /\
    len tail < inBuf_len o /\
    forall fuel, (length chunks < fuel)%nat ->
      readStdout_loop fuel o data tr
      = ([], tr ++ map (fun c => EvSend (dcaBuf_of c)) chunks ++ [EvClose],
         Returned).
Proof.
  intros Hn. induction m as [|m IH]; intros data tr Hm.
  - destruct data; [|cbn [length] in Hm; lia].
    exists [], []. split; [reflexivity|]. split; [constructor|].
    split; [unfold len; cbn [length]; lia|].
    intros [|fuel] Hf; [cbn [length] in Hf; lia|].
    cbn [readStdout_loop]. destruct (Z.ltb_spec (inBuf_len o) 0); [lia|].
    unfold binary_Read_bytes. rewrite length_make_bytes.
    rewrite ReadFull_empty by lia. reflexivity.
  - destruct (Z.lt_ge_cases (len data) (inBuf_len o)) as [Hlt|Hge].
    + exists [], data. split; [reflexivity|]. split; [constructor|].
      split; [exact Hlt|].
      intros [|fuel] Hf; [cbn [length] in Hf; lia|].
      cbn [readStdout_loop]. destruct (Z.ltb_spec (inBuf_len o) 0); [lia|].
      unfold binary_Read_bytes. rewrite length_make_bytes.
      destruct data as [|b data].
      * rewrite ReadFull_empty by lia. reflexivity.
      * rewrite ReadFull_short
          by (unfold len in Hlt; cbn [length] in *; lia).
        reflexivity.
    + set (n := Z.to_nat (inBuf_len o)).
      assert (Hlen : length (firstn n data) = n)
        by (rewrite length_firstn; unfold len in Hge; lia).
      destruct (IH (skipn n data)
                  (tr ++ [EvSend (dcaBuf_of (firstn n data))]))
        as (chunks & tail & Hd & Hall & Ht & Hrun).
      { rewrite length_skipn. lia. }
      exists (firstn n data :: chunks), tail.
      split; [cbn [concat]; rewrite <- app_assoc, <- Hd;
              symmetry; apply firstn_skipn|].
      split; [constructor; [unfold len; rewrite Hlen; lia|exact Hall]|].
      split; [exact Ht|].
      intros [|fuel] Hf; [cbn [length] in Hf; lia|].
      cbn [readStdout_loop]. destruct (Z.ltb_spec (inBuf_len o) 0); [lia|].
      rewrite <- (firstn_skipn n data) at 1.
      rewrite binary_Read_bytes_exact by (unfold len; rewrite Hlen; lia).
      fold (dcaBuf_of (firstn n data)).
      rewrite Hrun by (cbn [length] in Hf; lia).
      cbn [map]. rewrite <- !app_assoc. reflexivity.
Qed.

End ChunkedProducer.

(** X18: the producer that reads raw transcoder output in chunks.  With
    a chunk length [(Bitrate * FrameDuration) / 8] between 1 and 32767,
    the loop ends on every finite output, after one iteration more than
    it sends frames: the frames are the wire frames of the successive
    chunks of the output, each of exactly the chunk length, and then the
    queue is closed; what is left of the output when it ends, fewer bytes
    than a chunk, is read and dropped without a frame or a log entry. *)
Theorem chunked_readStdout_frames
        (o : Encode.EncodeOptions) (data : list byte)
        (tr : list Encode.event) :
  0 < Chunked.inBuf_len o <= 32767 ->
  exists chunks tail,
    data = concat chunks ++ tail /\
    Forall (fun c => len c = Chunked.inBuf_len o) chunks /\
    len tail < Chunked.inBuf_len o /\
    forall fuel, (length chunks < fuel)%nat ->
      Chunked.readStdout_loop fuel o data tr
      = ([], tr ++ map (fun c => Encode.EvSend (dcaBuf_of c)) chunks
               ++ [Encode.EvClose],
         Chunked.Returned).
Proof.
  intros Hn. apply (chunked_frames_aux o (length data) Hn). lia.
Qed.

Lemma chunked_readStdout_frames_witness :
  let o := {| Encode.Volume := 256; Encode.Channels := 2;
              Encode.FrameRate := 48000; Encode.FrameDuration := 2;
              Encode.Bitrate := 8; Encode.PacketLoss := 0;
              Encode.RawOutput := true; Encode.Application := "audio";
              Encode.CoverFormat := ""; Encode.CompressionLevel := 10;
              Encode.BufferedFrames := 0; Encode.VBR := false;
              Encode.Comment := "" |} in
  exists chunks tail,
    [Byte.x01; Byte.x02; Byte.x03; Byte.x04; Byte.x05]
    = concat chunks ++ tail /\
    len tail < 2 /\
    Chunked.readStdout_loop 3 o
      [Byte.x01; Byte.x02; Byte.x03; Byte.x04; Byte.x05] []
    = ([], [Encode.EvSend [Byte.x02; Byte.x00; Byte.x01; Byte.x02];
            Encode.EvSend [Byte.x02; Byte.x00; Byte.x03; Byte.x04];
            Encode.EvClose], Chunked.Returned).
Proof.
  intros o.
  assert (Hn : 0 < Chunked.inBuf_len o <= 32767) by (vm_compute; split; [reflexivity|discriminate]).
  destruct (chunked_readStdout_frames o
              [Byte.x01; Byte.x02; Byte.x03; Byte.x04; Byte.x05] [] Hn)
    as (chunks & tail & Hd & _ & Ht & _).
  exists chunks, tail. split; [exact Hd|]. split; [exact Ht|reflexivity].
Defined.

(** X19: a chunk length that is not positive.  When
    [(Bitrate * FrameDuration) / 8] is zero the loop never ends and never
    reads: however long it is followed, it has sent one empty frame (the
    two bytes of a zero length prefix) per iteration, the output of the
    transcoder is untouched and the queue is still open.  When it is
    negative, the first [make] panics and only the deferred [close] is
    done. *)
Theorem chunked_readStdout_degenerate
        (o : Encode.EncodeOptions) (data : list byte)
        (tr : list Encode.event) (fuel : nat) :
  (Chunked.inBuf_len o = 0 ->
   Chunked.readStdout_loop fuel o data tr
   = (data, tr ++ repeat (Encode.EvSend [Byte.x00; Byte.x00]) fuel,
      Chunked.Looping)) /\
  (Chunked.inBuf_len o < 0 ->
   Chunked.readStdout_loop (S fuel) o data tr
   = (data, tr ++ [Encode.EvClose],
      Chunked.Panicked "makeslice: len out of range")).
Proof.
  split.
  - intros Hz. revert tr. induction fuel as [|fuel IH]; intros tr.
    + cbn [Chunked.readStdout_loop repeat]. now rewrite app_nil_r.
    + cbn [Chunked.readStdout_loop]. rewrite Hz.
      change (0 <? 0) with false. cbv iota.
      change (binary_Read_bytes data (make_bytes 0))
        with (@nil byte, @None error, data).
      cbv beta iota.
      change (binary_Write_int16 (int16 (len (@nil byte))) ++ [])
        with [Byte.x00; Byte.x00].
      rewrite IH, <- app_assoc. reflexivity.
  - intros Hneg. cbn [Chunked.readStdout_loop].
    destruct (Z.ltb_spec (Chunked.inBuf_len o) 0); [reflexivity|lia].
Qed.

Lemma chunked_readStdout_degenerate_witness :
  let o := {| Encode.Volume := 256; Encode.Channels := 2;
              Encode.FrameRate := 48000; Encode.FrameDuration := 20;
              Encode.Bitrate := 0; Encode.PacketLoss := 0;
              Encode.RawOutput := true; Encode.Application := "audio";
              Encode.CoverFormat := ""; Encode.CompressionLevel := 10;
              Encode.BufferedFrames := 0; Encode.VBR := false;
              Encode.Comment := "" |} in
  Chunked.readStdout_loop 3 o [Byte.x01; Byte.x02] []
  = ([Byte.x01; Byte.x02],
     [Encode.EvSend [Byte.x00; Byte.x00]; Encode.EvSend [Byte.x00; Byte.x00];
      Encode.EvSend [Byte.x00; Byte.x00]], Chunked.Looping).
Proof.
  intros o.
  exact (proj1 (chunked_readStdout_degenerate o [Byte.x01; Byte.x02] [] 3)
           eq_refl).
Defined.


(** ** Races between [SetPaused] and the goroutines *)

Section PauseRaces.

Import Stream StreamSpec StreamInv.

Variable env : Env.

Lemma nth_error_snoc {A} (l : list A) (x : A) :
  nth_error (l ++ [x]) (length l) = Some x.
Proof. induction l as [|a l IH]; [reflexivity|exact IH]. Qed.

Lemma nth_error_app_left {A} (l : list A) (x : A) i a :
  nth_error l i = Some a -> nth_error (l ++ [x]) i = Some a.
Proof.
  revert i. induction l as [|b l IH]; intros [|i] H; cbn in *;
    try discriminate; [exact H|now apply IH].
Qed.

End PauseRaces.

(** X20: pausing and resuming before a goroutine has started makes the
    program panic.  In a session that is not running and not finished,
    with a goroutine that was started and has not yet taken its first
    step (as right after [NewStream], or right after a resume),
    [SetPaused(true)] followed by [SetPaused(false)] starts a second
    goroutine; when both then enter [stream], the second one finds
    [running] set and panics with [Stream is already running!]. *)
Theorem pause_resume_before_start_panics
        (env : Stream.Env) (y : Stream.System) (i : nat) :
  Stream.panicked y = false ->
  Stream.finished (Stream.session y) = false ->
  Stream.running (Stream.session y) = false ->
  nth_error (Stream.tasks y) i = Some Stream.Entry ->
  let acts := [Stream.CallSetPaused true; Stream.CallSetPaused false;
               Stream.Task i; Stream.Task (length (Stream.tasks y))] in
  Stream.panicked (Stream.exec env acts y) = true /\
  Stream.pulls (Stream.exec env acts y) = Stream.pulls y.
Proof.
  intros Hp Hf Hr Hi acts. unfold acts, Stream.exec. cbn [fold_left].
  assert (H2 : Stream.step env (Stream.CallSetPaused false)
                 (Stream.step env (Stream.CallSetPaused true) y)
               = Stream.with_session
                   {| Stream.paused := false;
                      Stream.framesSent :=
                        Stream.framesSent (Stream.session y);
                      Stream.finished := false; Stream.running := false;
                      Stream.err := Stream.err (Stream.session y) |}
                   (Stream.with_tasks (Stream.tasks y ++ [Stream.Entry]) y)).
  { destruct (Stream.paused (Stream.session y)) eqn:Hpa.
    - assert (Ea : Stream.step env (Stream.CallSetPaused true) y = y).
      { unfold Stream.step. rewrite Hp. unfold Stream.SetPaused.
        rewrite Hf, Hr, Hpa. reflexivity. }
      rewrite Ea. unfold Stream.step. rewrite Hp. unfold Stream.SetPaused.
      rewrite Hf, Hr, Hpa. reflexivity.
    - assert (Ea : Stream.step env (Stream.CallSetPaused true) y
                   = Stream.with_session
                       {| Stream.paused := true;
                          Stream.framesSent :=
                            Stream.framesSent (Stream.session y);
                          Stream.finished := false;
                          Stream.running := false;
                          Stream.err := Stream.err (Stream.session y) |} y).
      { unfold Stream.step. rewrite Hp. unfold Stream.SetPaused.
        rewrite Hf, Hr, Hpa. reflexivity. }
      rewrite Ea. unfold Stream.step.
      cbn [Stream.with_session Stream.panicked]. rewrite Hp.
      reflexivity. }
  rewrite H2. clear H2.
  set (y2 := Stream.with_session _ _).
  assert (E3 : Stream.step env (Stream.Task i) y2
               = Stream.goto i Stream.LoopHead
                   (Stream.with_session
                      {| Stream.paused := false;
                         Stream.framesSent :=
                           Stream.framesSent (Stream.session y);
                         Stream.finished := false; Stream.running := true;
                         Stream.err := Stream.err (Stream.session y) |}
                      y2)).
  { unfold Stream.step, y2.
    cbn [Stream.with_session Stream.with_tasks Stream.panicked].
    rewrite Hp. unfold Stream.task_step.
    cbn [Stream.tasks Stream.session Stream.running Stream.with_session
           Stream.with_tasks].
    rewrite (nth_error_app_left _ _ _ _ Hi). reflexivity. }
  rewrite E3. clear E3.
  assert (Hn : nth_error
                 (Stream.set_nth i Stream.LoopHead
                    (Stream.tasks y ++ [Stream.Entry]))
                 (length (Stream.tasks y)) = Some Stream.Entry).
  { rewrite nth_error_set_nth_other.
    - apply nth_error_snoc.
    - intros E. rewrite <- E in Hi.
      assert (Hlt : (length (Stream.tasks y) < length (Stream.tasks y))%nat)
        by (apply nth_error_Some; congruence).
      lia. }
  unfold Stream.step, y2.
  cbn [Stream.goto Stream.with_session Stream.with_tasks Stream.panicked
         Stream.tasks Stream.session].
  rewrite Hp. unfold Stream.task_step.
  cbn [Stream.goto Stream.with_session Stream.with_tasks Stream.tasks
         Stream.session Stream.running].
  rewrite Hn. split; reflexivity.
Qed.

Lemma pause_resume_before_start_panics_witness :
  let env := {| Stream.OpusFrame := fun _ => (Some [Byte.x01], None);
                Stream.FrameDuration := 20000000;
                Stream.OpusSend := fun _ => Some 0;
                Stream.has_done := false |} in
  Stream.panicked
    (Stream.exec env
       [Stream.CallSetPaused true; Stream.CallSetPaused false;
        Stream.Task 0; Stream.Task 1] Stream.NewStream) = true.
Proof.
  intros env.
  exact (proj1 (pause_resume_before_start_panics env Stream.NewStream 0
                  eq_refl eq_refl eq_refl eq_refl)).
Defined.

(** X21: a resume that arrives while the goroutine is leaving is lost.
    A goroutine that has seen [paused] and is about to run its deferred
    reset still has [running] set; [SetPaused(false)] at that moment only
    clears [paused] and starts nothing, and the goroutine then ends.  The
    session is left not paused, not running and not finished, with no
    goroutine: no step of a goroutine and no further [SetPaused(false)]
    changes anything, so no frame is pulled any more until somebody
    pauses and resumes again. *)
Theorem resume_lost_while_stopping
        (env : Stream.Env) (y : Stream.System) (i : nat)
        (acts : list Stream.action) :
  Stream.panicked y = false ->
  Stream.finished (Stream.session y) = false ->
  Stream.running (Stream.session y) = true ->
  Stream.paused (Stream.session y) = true ->
  nth_error (Stream.tasks y) i = Some Stream.Deferred ->
  StreamSpec.alone i y ->
  forallb StreamInv.no_pause acts = true ->
  let y1 := Stream.exec env [Stream.CallSetPaused false; Stream.Task i] y in
  Stream.Paused y1 = false /\
  Stream.running (Stream.session y1) = false /\
  Stream.Finished y1 = (false, Stream.err (Stream.session y)) /\
  StreamInv.count StreamInv.active (Stream.tasks y1) = 0 /\
  Stream.exec env acts y1 = y1.
Proof.
  intros Hp Hf Hr Hpa Hi Halone Hacts y1.
  assert (E1 : y1 = Stream.goto i Stream.Done
                      (Stream.with_session
                         {| Stream.paused := false;
                            Stream.framesSent :=
                              Stream.framesSent (Stream.session y);
                            Stream.finished := false;
                            Stream.running := false;
                            Stream.err := Stream.err (Stream.session y) |}
                         y)).
  { unfold y1, Stream.exec. cbn [fold_left].
    assert (Ea : Stream.step env (Stream.CallSetPaused false) y
                 = Stream.with_session
                     {| Stream.paused := false;
                        Stream.framesSent :=
                          Stream.framesSent (Stream.session y);
                        Stream.finished := false; Stream.running := true;
                        Stream.err := Stream.err (Stream.session y) |} y).
    { unfold Stream.step. rewrite Hp. unfold Stream.SetPaused.
      rewrite Hf, Hr, Hpa. reflexivity. }
    rewrite Ea. unfold Stream.step.
    cbn [Stream.with_session Stream.panicked]. rewrite Hp.
    unfold Stream.task_step.
    cbn [Stream.with_session Stream.tasks Stream.session]. rewrite Hi.
    reflexivity. }
  assert (Hd : forall j, nth_error (Stream.tasks y1) j = Some Stream.Done \/
                         nth_error (Stream.tasks y1) j = None).
  { intros j. rewrite E1.
    cbn [Stream.goto Stream.with_tasks Stream.with_session Stream.tasks].
    destruct (Nat.eq_dec j i) as [->|Hj].
    - left. apply (nth_error_set_nth_same _ _ _ _ Hi).
    - rewrite nth_error_set_nth_other by exact Hj. apply Halone, Hj. }
  assert (Hc : StreamInv.count StreamInv.active (Stream.tasks y1) = 0).
  { assert (Hall : forall t : list Stream.pc,
               (forall j, nth_error t j = Some Stream.Done \/
                          nth_error t j = None) ->
               StreamInv.count StreamInv.active t = 0).
    { induction t as [|p t IH]; intros H; [reflexivity|].
      destruct (H 0%nat) as [H0|H0]; cbn in H0; [|discriminate].
      injection H0 as ->.
      unfold StreamInv.count, len in *. cbn [filter StreamInv.active].
      apply IH. intros j. apply (H (S j)). }
    apply Hall, Hd. }
  assert (Hstep : forall a, StreamInv.no_pause a = true ->
                            Stream.step env a y1 = y1).
  { intros a Ha. unfold Stream.step.
    assert (Hp1 : Stream.panicked y1 = false) by (rewrite E1; exact Hp).
    rewrite Hp1. destruct a as [[|]|j]; [discriminate| |].
    - rewrite E1. reflexivity.
    - unfold Stream.task_step.
      destruct (Hd j) as [-> | ->]; reflexivity. }
  assert (Hexec : Stream.exec env acts y1 = y1).
  { clear -Hstep Hacts. induction acts as [|a acts IH]; [reflexivity|].
    cbn [forallb] in Hacts. apply andb_prop in Hacts as [Ha Hacts].
    change (Stream.exec env (a :: acts) y1)
      with (Stream.exec env acts (Stream.step env a y1)).
    rewrite (Hstep a Ha). apply IH, Hacts. }
  split; [rewrite E1; reflexivity|]. split; [rewrite E1; reflexivity|].
  split; [rewrite E1; reflexivity|]. split; [exact Hc|exact Hexec].
Qed.

Lemma resume_lost_while_stopping_witness :
  let env := {| Stream.OpusFrame := fun _ => (Some [Byte.x01], None);
                Stream.FrameDuration := 20000000;
                Stream.OpusSend := fun _ => Some 0;
                Stream.has_done := false |} in
  let y := Stream.exec env
             (repeat (Stream.Task 0) 5
                ++ [Stream.CallSetPaused true; Stream.Task 0])
             Stream.NewStream in
  let y1 := Stream.exec env [Stream.CallSetPaused false; Stream.Task 0] y in
  Stream.Paused y1 = false /\
  Stream.running (Stream.session y1) = false /\
  Stream.exec env
    (Stream.CallSetPaused false :: repeat (Stream.Task 0) 8) y1 = y1.
Proof.
  intros env y y1.
  assert (Halone : StreamSpec.alone 0 y).
  { intros [|j] Hj; [congruence|]. right. destruct j; reflexivity. }
  destruct (resume_lost_while_stopping env y 0
              (Stream.CallSetPaused false :: repeat (Stream.Task 0) 8)
              eq_refl eq_refl eq_refl eq_refl eq_refl Halone eq_refl)
    as (H1 & H2 & _ & _ & H5).
  split; [exact H1|]. split; [exact H2|exact H5].
Defined.

(** ** A session and its readers *)

(** X22: every [run] that does not panic is a well-behaved producer.
    Whatever the collaborators do, the channel operations of [run] are the
    sends of its frames followed by one [close], nothing after it and no
    second [close]; so, under every schedule of [run] and its readers,
    the calls of [ReadFrame] that return give the frames [run] sent, each
    once and in order, and [io.EOF] after the last. *)
Theorem run_feeds_its_readers
        (w : Encode.World) (r : option Reader) (path : string)
        (o : Encode.EncodeOptions) (e : Encode.encodeSession)
        (sched : list Queue.turn) :
  let tr := Encode.trace (fst (Encode.run w e)) in
  let results :=
    fst (Queue.exec sched
           (Queue.init (Queue.chanops tr) (Encode.BufferedFrames o))) in
  Encode.new_session r path (Some o) = Returns e ->
  snd (Encode.run w e) = Encode.Normal ->
  Queue.chanops tr = Queue.produces (Encode.sent_frames tr) /\
  results = QueueSpec.ideal (Encode.sent_frames tr) (length results).
Proof.
  intros tr results Hnew Hx.
  assert (Hp : Queue.chanops tr = Queue.produces (Encode.sent_frames tr))
    by (apply (run_produces w r path o e Hnew Hx)).
  split; [exact Hp|].
  unfold results. rewrite Hp.
  destruct (exec_ideal sched _
              (wf_init (Encode.sent_frames tr) (Encode.BufferedFrames o)))
    as [_ H].
  unfold QueueSpec.future in H at 1.
  cbn [Queue.init Queue.buf Queue.pending app] in H.
  rewrite sends_produces in H. exact H.
Qed.

Lemma run_feeds_its_readers_witness :
  let w := Samples.world_of_pages [Samples.small_page; Samples.small_page] in
  let sched := [Queue.Consumer; Queue.Producer; Queue.Consumer;
                Queue.Consumer; Queue.Producer; Queue.Producer;
                Queue.Consumer; Queue.Consumer] in
  exists e,
    Encode.EncodeFile "song.ogg" (Some Samples.loud_options) = Returns e /\
    fst (Queue.exec sched
           (Queue.init
              (Queue.chanops (Encode.trace (fst (Encode.run w e))))
              (Encode.BufferedFrames Samples.loud_options)))
    = [(Some [Byte.x03; Byte.x00; Byte.x0a; Byte.x0b; Byte.x0c], None);
       (Some [Byte.x03; Byte.x00; Byte.x0a; Byte.x0b; Byte.x0c], None);
       (None, Some EOF); (None, Some EOF)].
Proof.
  intros w sched.
  destruct (run_feeds_its_readers w None "song.ogg" Samples.loud_options _
              sched eq_refl eq_refl) as [_ H].
  eexists. split; [reflexivity|]. rewrite H. reflexivity.
Defined.

(** ** From the transcoder to the voice connection *)

Lemma nth_error_ideal (frames : list (list byte)) : forall i,
  nth_error (QueueSpec.ideal frames (S i)) i
  = Some match nth_error frames i with
         | Some f => QueueSpec.ok f
         | None => QueueSpec.eof
         end.
Proof.
  induction frames as [|f fs IH]; intros i.
  - induction i as [|i IHi]; [reflexivity|].
    cbn [QueueSpec.ideal nth_error] in *. rewrite IHi. now destruct i.
  - destruct i as [|i]; [reflexivity|].
    cbn [QueueSpec.ideal nth_error]. apply IH.
Qed.

(** X23: a session with raw output, streamed.  Take a session as in X11
    (pipes and process set up, well-formed pages, packets of at most
    32767 bytes), a streaming session whose source answers its calls of
    [OpusFrame] as the encode session does, and a voice connection that
    takes every frame within the second.  Then the goroutine started by
    [NewStream] counts one frame per non-empty packet of the transcoder's
    output and finishes: [Finished] returns [true] and no error, and
    [io.EOF] is what goes on [done]. *)
Theorem raw_session_streams_to_completion
        (w : Encode.World) (r : option Reader) (path : string)
        (o : Encode.EncodeOptions) (e : Encode.encodeSession)
        (env : Stream.Env) :
  let audio :=
    filter PacketSpec.nonempty (PacketSpec.packets (Encode.Pages w)) in
  let s := Session.open
             (Queue.chanops (Encode.trace (fst (Encode.run w e))))
             (Encode.BufferedFrames o) in
  let y := Stream.exec env
             (repeat (Stream.Task 0) (4 * length audio + 5))
             Stream.NewStream in
  Encode.new_session r path (Some o) = Returns e ->
  Encode.RawOutput o = true ->
  Encode.StdoutPipe_err w = None ->
  Encode.StderrPipe_err w = None ->
  Encode.Start_err w = None ->
  Forall PacketSpec.page_ok (Encode.Pages w) ->
  Forall (fun p => len p <= 32767) audio ->
  (forall i rs s',
      Session.OpusFrames (S i) s = Some (Returns (rs, s')) ->
      nth_error rs i = Some (Stream.OpusFrame env i)) ->
  (forall i, fst (Stream.select_send (Stream.OpusSend env i)) = true) ->
  Stream.Finished y = (true, None) /\
  Stream.framesSent (Stream.session y) = int64 (len audio) /\
  Stream.pulls y = S (length audio) /\
  Stream.running (Stream.session y) = false /\
  Stream.done y = (if Stream.has_done env then [EOF] else []) /\
  Stream.panicked y = false.
Proof.
  intros audio s y Hnew Hraw Hout Herr Hstart Hok Haudio Hsrc Hsink.
  destruct (raw_run_sent_frames w r path o e Hnew Hraw Hout Herr Hstart Hok)
    as [Hx Hs].
  assert (Hres : forall i,
             Stream.OpusFrame env i
             = match nth_error audio i with
               | Some f => QueueSpec.ok f
               | None => QueueSpec.eof
               end).
  { intros i.
    destruct (OpusFrames_session (S i) audio s) as (s' & H & _).
    - unfold s. rewrite (run_produces w r path o e Hnew Hx). apply wf_init.
    - exact Haudio.
    - unfold s. rewrite (run_produces w r path o e Hnew Hx), Hs.
      apply stream_open.
    - apply (ideal_nth audio (S i) i), (Hsrc i _ _ H). }
  destruct (stream_completion env (length audio) None EOF)
    as (H1 & H2 & H3 & _ & _ & H6 & _ & H8 & H9).
  - intros i Hi. rewrite Hres.
    destruct (nth_error audio i) eqn:E; [reflexivity|].
    apply nth_error_None in E. lia.
  - intros i _. apply Hsink.
  - rewrite Hres.
    replace (nth_error audio (length audio)) with (@None (list byte))
      by (symmetry; apply nth_error_None; lia).
    reflexivity.
  - fold y in H1, H2, H3, H6, H8, H9.
    split; [exact H1|]. split; [exact H2|]. split; [exact H6|].
    split; [exact H3|]. split; [exact H8|exact H9].
Qed.

Lemma raw_session_streams_to_completion_witness :
  let w := Samples.world_of_pages
             [Samples.small_page; Samples.empty_segment_page;
              Samples.small_page] in
  let audio := [[Byte.x0a; Byte.x0b; Byte.x0c]; [Byte.x0a; Byte.x0b; Byte.x0c]] in
  let env := {| Stream.OpusFrame :=
                  fun i => match nth_error audio i with
                           | Some f => (Some f, None)
                           | None => (None, Some EOF)
                           end;
                Stream.FrameDuration := 20000000;
                Stream.OpusSend := fun _ => Some 5000000;
                Stream.has_done := true |} in
  let y := Stream.exec env (repeat (Stream.Task 0) 13) Stream.NewStream in
  Stream.Finished y = (true, None) /\
  Stream.framesSent (Stream.session y) = 2 /\
  Stream.done y = [EOF].
Proof.
  intros w audio env y.
  assert (Hok : Forall PacketSpec.page_ok
                  [Samples.small_page; Samples.empty_segment_page;
                   Samples.small_page])
    by (repeat constructor; vm_compute; discriminate).
  assert (Ha : Forall (fun p => len p <= 32767) audio)
    by (repeat constructor; vm_compute; discriminate).
  pose (s := Session.open
               (Queue.produces (map dcaBuf_of audio)) 100).
  assert (Hsrc : forall i rs s',
             Session.OpusFrames (S i) s = Some (Returns (rs, s')) ->
             nth_error rs i = Some (Stream.OpusFrame env i)).
  { intros i rs s' H.
    destruct (OpusFrames_session (S i) audio s (wf_init _ _) Ha
                (stream_open _ _)) as (s1 & H1 & _).
    rewrite H1 in H. injection H as <- _. exact (nth_error_ideal audio i). }
  destruct (raw_session_streams_to_completion w None "song.ogg"
              Samples.loud_options _ env
              eq_refl eq_refl eq_refl eq_refl eq_refl Hok Ha Hsrc
              (fun _ => eq_refl))
    as (H1 & H2 & _ & _ & H5 & _).
  split; [exact H1|]. split; [exact H2|exact H5].
Defined.

(** ** The shape of a session's stream *)

Section StreamShape.

Import Encode.

Lemma writeMetadataFrame_shape w o e :
  sent_frames (trace (fst (writeMetadataFrame w o e)))
  = sent_frames (trace e) \/
  exists m jsonData,
    json_Marshal w m = (jsonData, None) /\
    sent_frames (trace (fst (writeMetadataFrame w o e)))
    = sent_frames (trace e)
      ++ [list_byte_of_string "DCA1"
            ++ binary_Write_int32 (int32 (len jsonData)) ++ jsonData].
Proof.
  assert (Hp : forall m x,
             sent_frames (trace x) = sent_frames (trace e) ->
             sent_frames (trace (write_prologue w m x))
             = sent_frames (trace e) \/
             exists m0 jsonData,
               json_Marshal w m0 = (jsonData, None) /\
               sent_frames (trace (write_prologue w m x))
               = sent_frames (trace e)
                 ++ [list_byte_of_string "DCA1"
                       ++ binary_Write_int32 (int32 (len jsonData))
                       ++ jsonData]).
  { intros m x Hx. unfold write_prologue.
    destruct (json_Marshal w m) as [jsonData [err|]] eqn:Hj.
    - left. rewrite trace_emit, sent_frames_app, Hx.
      cbn [sent_frames]. apply app_nil_r.
    - right. exists m, jsonData. split; [exact Hj|].
      rewrite trace_emit, sent_frames_app, Hx. cbn [sent_frames].
      rewrite <- app_assoc. reflexivity. }
  assert (Hl : forall msg x,
             sent_frames (trace x) = sent_frames (trace e) ->
             sent_frames (trace (emit (EvLog msg) x))
             = sent_frames (trace e)).
  { intros msg x Hx. rewrite trace_emit, sent_frames_app, Hx.
    cbn [sent_frames]. apply app_nil_r. }
  assert (Hq : forall path x,
             sent_frames (trace x) = sent_frames (trace e) ->
             sent_frames (trace (emit (EvProbe path) x))
             = sent_frames (trace e)).
  { intros path x Hx. rewrite trace_emit, sent_frames_app, Hx.
    cbn [sent_frames]. apply app_nil_r. }
  assert (Hc : forall path x,
             sent_frames (trace x) = sent_frames (trace e) ->
             sent_frames (trace (emit (EvCover path) x))
             = sent_frames (trace e)).
  { intros path x Hx. rewrite trace_emit, sent_frames_app, Hx.
    cbn [sent_frames]. apply app_nil_r. }
  unfold writeMetadataFrame.
  destruct (pipeReader e); cbn [fst]; [apply Hp; reflexivity|].
  destruct (ffprobe_Start_err w); cbn [fst]; [left; now apply Hl|].
  destruct (ffprobe_Wait_err w); cbn [fst];
    [left; apply Hl; now apply Hq|].
  destruct (ffprobe_Unmarshal w) as [err| |format]; cbn [fst];
    [left; apply Hl; now apply Hq|left; now apply Hq|].
  destruct (Atoi _) as [bitrateInt [err|]]; cbn [fst];
    [left; apply Hl; now apply Hq|].
  destruct (cover_Start_err w); cbn [fst];
    [left; apply Hl; now apply Hq|].
  apply Hp. apply Hc. now apply Hq.
Qed.

End StreamShape.

(** X24: what a session puts on its queue, for file and pipe sources
    alike.  When the pipes and the process can be set up, the pages are
    well formed and [run] does not panic, the frames sent are the wire
    frames of the non-empty packets of the transcoder's output, in order,
    preceded by at most one other frame; if there is one, it is the
    prologue: the magic bytes, the version digit and the length-prefixed
    JSON that [json.Marshal] gave for the metadata.  With raw output
    there is none. *)
Theorem run_stream_shape
        (w : Encode.World) (r : option Reader) (path : string)
        (o : Encode.EncodeOptions) (e : Encode.encodeSession) :
  let audio :=
    filter PacketSpec.nonempty (PacketSpec.packets (Encode.Pages w)) in
  let sent := Encode.sent_frames (Encode.trace (fst (Encode.run w e))) in
  Encode.new_session r path (Some o) = Returns e ->
  Encode.StdoutPipe_err w = None ->
  Encode.StderrPipe_err w = None ->
  Encode.Start_err w = None ->
  Forall PacketSpec.page_ok (Encode.Pages w) ->
  snd (Encode.run w e) = Encode.Normal ->
  sent = map dcaBuf_of audio \/
  Encode.RawOutput o = false /\
  exists m jsonData,
    Encode.json_Marshal w m = (jsonData, None) /\
    sent = (list_byte_of_string "DCA1"
              ++ binary_Write_int32 (int32 (len jsonData)) ++ jsonData)
           :: map dcaBuf_of audio.
Proof.
  intros audio sent Hnew Hout Herr Hstart Hok Hx.
  destruct (Encode.RawOutput o) eqn:Hraw.
  { left. apply (raw_run_sent_frames w r path o e Hnew Hraw Hout Herr
                   Hstart Hok). }
  unfold sent in *. clear sent.
  unfold Encode.new_session in Hnew.
  destruct (Encode.BufferedFrames o <? 0); [discriminate|].
  injection Hnew as <-.
  unfold Encode.run, Encode.run_body in *.
  cbn [Encode.set_running Encode.options Encode.filePath] in *.
  rewrite Hout, Herr, Hstart, Hraw in *.
  set (e0 := Encode.set_running true _) in *.
  pose proof (writeMetadataFrame_shape w o e0) as Hshape.
  destruct (Encode.writeMetadataFrame w o e0) as [e1 [|pmsg]];
    [|discriminate].
  cbn [fst] in Hshape.
  set (e2 := Encode.set_process _) in *.
  destruct (readStdout_sent_frames w e2 Hok) as [Hrx Hs].
  destruct (Encode.readStdout w e2) as [e3 ex]. cbn [fst snd] in Hrx, Hs.
  subst ex. fold audio in Hs.
  assert (H3 : Encode.sent_frames (Encode.trace e3)
               = Encode.sent_frames (Encode.trace e1) ++ map dcaBuf_of audio).
  { rewrite Hs. unfold e2.
    cbn [Encode.set_process Encode.trace]. rewrite trace_emit.
    rewrite sent_frames_app. cbn [Encode.sent_frames].
    now rewrite app_nil_r. }
  assert (Hfin : Encode.sent_frames
                   (Encode.trace
                      (fst (let '(e4, ex4) :=
                              match Encode.Wait_err w with
                              | Some msg =>
                                  if negb (String.eqb msg "signal: killed")
                                  then (Encode.emit
                                          (Encode.EvLog
                                             "Error waiting for ffmpeg:") e3,
                                        Encode.Normal)
                                  else (e3, Encode.Normal)
                              | None => (e3, Encode.Normal)
                              end in
                            (Encode.set_running false e4, ex4))))
                 = Encode.sent_frames (Encode.trace e3)).
  { destruct (Encode.Wait_err w) as [msg|];
      [destruct (negb (String.eqb msg "signal: killed"))|];
      cbn [fst Encode.set_running Encode.trace];
      rewrite ?trace_emit, ?sent_frames_app; cbn [Encode.sent_frames];
      rewrite ?app_nil_r; reflexivity. }
  rewrite Hfin, H3.
  unfold e0 in Hshape. cbn [Encode.set_running Encode.trace
                              Encode.sent_frames app] in Hshape.
  destruct Hshape as [-> | (m & jsonData & Hj & ->)].
  - left. reflexivity.
  - right. split; [reflexivity|]. exists m, jsonData.
    split; [exact Hj|reflexivity].
Qed.

Lemma run_stream_shape_witness :
  let w := Samples.world_of_pages
             [Samples.small_page; Samples.empty_segment_page] in
  let e := Samples.file_session Encode.StdEncodeOptions in
  let sent := Encode.sent_frames (Encode.trace (fst (Encode.run w e))) in
  sent = [[Byte.x03; Byte.x00; Byte.x0a; Byte.x0b; Byte.x0c]] \/
  Encode.RawOutput Encode.StdEncodeOptions = false /\
  exists m jsonData,
    Encode.json_Marshal w m = (jsonData, None) /\
    sent = (list_byte_of_string "DCA1"
              ++ binary_Write_int32 (int32 (len jsonData)) ++ jsonData)
           :: [[Byte.x03; Byte.x00; Byte.x0a; Byte.x0b; Byte.x0c]].
Proof.
  intros w e sent.
  assert (Hok : Forall PacketSpec.page_ok
                  [Samples.small_page; Samples.empty_segment_page])
    by (repeat constructor; vm_compute; discriminate).
  exact (run_stream_shape w None "song.ogg" Encode.StdEncodeOptions e
           eq_refl eq_refl eq_refl eq_refl Hok eq_refl).
Defined.

(** ** Waiting for the mutex behind the prologue *)

(** X25: [Stop], [Running] and [Truncate] wait for ever behind a prologue
    that nobody takes.  [run] sends the prologue with the mutex held.  On
    a session for a pipe source without raw output and with
    [BufferedFrames] 0, whose metadata can be marshalled, that send needs a
    receiver; a caller that goes for the mutex at that point is not one:
    [Stop] and [Running] never return, and [Truncate], which begins with
    [Stop], never reaches its loop.  A call of [ReadFrame] instead takes
    the prologue. *)
Theorem calls_wait_behind_unread_prologue
        (w : Encode.World) (r : Reader) (o : Encode.EncodeOptions)
        (e e1 : Encode.encodeSession) (jsonData : list byte)
        (Kill_err : option error) :
  let q := Queue.init
             (Queue.chanops (Encode.trace (fst (Encode.run w e))))
             (Encode.BufferedFrames o) in
  let held := Session.HeldByRun true in
  Encode.EncodeMem r (Some o) = Returns e ->
  Encode.RawOutput o = false ->
  Encode.BufferedFrames o = 0 ->
  Encode.StdoutPipe_err w = None ->
  Encode.StderrPipe_err w = None ->
  Encode.Start_err w = None ->
  (forall m, Encode.json_Marshal w m = (jsonData, None)) ->
  Session.Stop Kill_err held e1 q = None /\
  Session.Running held e1 q = None /\
  Session.Truncate Kill_err held e1 q = None /\
  exists q',
    Session.ReadFrame q
    = Some (Some (list_byte_of_string "DCA1"
                    ++ binary_Write_int32 (int32 (len jsonData))
                    ++ jsonData), None, q').
Proof.
  intros q held Hnew Hraw Hcap Hout Herr Hstart Hjson.
  destruct (prologue_precedes_launch_for_pipe_sources
              w r o e jsonData Hnew Hraw Hout Herr Hstart Hjson)
    as [rest Ht].
  assert (Hl : Session.Lock held q = None).
  { unfold Session.Lock, held, q. rewrite Ht, Hcap. reflexivity. }
  split; [unfold Session.Stop; now rewrite Hl|].
  split; [unfold Session.Running; now rewrite Hl|].
  split; [unfold Session.Truncate, Session.Stop; now rewrite Hl|].
  unfold q. rewrite Ht. eexists. reflexivity.
Qed.

Lemma calls_wait_behind_unread_prologue_witness :
  let w := Samples.world_of_pages [Samples.small_page] in
  let o := {| Encode.Volume := 256; Encode.Channels := 2;
              Encode.FrameRate := 48000; Encode.FrameDuration := 20;
              Encode.Bitrate := 64; Encode.PacketLoss := 1;
              Encode.RawOutput := false; Encode.Application := "audio";
              Encode.CoverFormat := ""; Encode.CompressionLevel := 10;
              Encode.BufferedFrames := 0; Encode.VBR := true;
              Encode.Comment := "" |} in
  exists e,
    Encode.EncodeMem [] (Some o) = Returns e /\
    Session.Truncate None (Session.HeldByRun true) e
      (Queue.init (Queue.chanops (Encode.trace (fst (Encode.run w e)))) 0)
    = None.
Proof.
  intros w o.
  eexists. split; [reflexivity|].
  exact (proj1 (proj2 (proj2
           (calls_wait_behind_unread_prologue w [] o _ _
              (list_byte_of_string "{}") None
              eq_refl eq_refl eq_refl eq_refl eq_refl eq_refl
              (fun m => eq_refl))))).
Defined.
